(** * SO100 VLA demo: the WebSocket coordinator, the mock robot and the stub
    chat engine

    A shallow embedding of [so100_vla_demo/server.py],
    [so100_vla_demo/mock_robot_interface.py],
    [so100_vla_demo/robot_interface.py] and [so100_vla_demo/llm_engine.py].

    Python objects that are mutated in place and can be shared (the joint
    dictionaries) live in an explicit store; module-level globals of
    [server.py] are the fields of one record; the two background coroutines
    are resumptions that the event loop advances from one [await] to the
    next; a WebSocket endpoint handles one received text message per
    transition. Logging has no effect on any of this and is left out. *)

From Stdlib Require Import ZArith Floats Uint63 Ascii String List Bool Lia.
From stdpp Require Import base decidable option list sets gmap strings pretty.

#[local] Set Warnings "-inexact-float".
Local Open Scope Z_scope.
Local Open Scope string_scope.
Local Open Scope list_scope.

(** ** Exceptions and results *)

(** The exception classes the modelled code raises or intercepts. All of
    them derive from [Exception]; [asyncio.CancelledError] does not (it is a
    [BaseException]) and is handled by the task states below, never by an
    [except Exception] clause. *)
Inductive Exn : Type :=
| RuntimeError (msg : string)
| NotImplementedError (msg : string)
| AttributeError (msg : string)
| JSONDecodeError (msg : string)
| WebSocketDisconnect
| OtherException (msg : string).

Inductive result (A : Type) : Type :=
| Ok (a : A)
| Raise (e : Exn).
Arguments Ok {A} a.
Arguments Raise {A} e.

Definition is_ok {A} (r : result A) : bool :=
  match r with Ok _ => true | Raise _ => false end.

(** ** Python values *)

(** What [json.loads] returns and what [send_json] serialises. Dictionaries
    keep insertion order, as Python's do. *)
#[local] Set Warnings "-register-all".
Inductive Value : Type :=
| VNone
| VBool (b : bool)
| VInt (n : Z)
| VFloat (f : float)
| VStr (s : string)
| VList (l : list Value)
| VDict (d : list (string * Value)).

(** *** Ordered dictionaries with string keys *)

Section Dict.
Context {V : Type}.

Definition PyDict := list (string * V).

(** [d.get(k)] *)
Fixpoint dict_get (k : string) (d : list (string * V)) : option V :=
  match d with
  | [] => None
  | (k', v) :: d' => if String.eqb k k' then Some v else dict_get k d'
  end.

(** [d[k] = v]: an existing key keeps its position, a new key goes last. *)
Fixpoint dict_set (k : string) (v : V) (d : list (string * V)) : list (string * V) :=
  match d with
  | [] => [(k, v)]
  | (k', v') :: d' =>
      if String.eqb k k' then (k', v) :: d' else (k', v') :: dict_set k v d'
  end.

(** [d.update(other)]: the items of [other], in order, assigned into [d]. *)
Definition dict_update (d other : list (string * V)) : list (string * V) :=
  fold_left (fun acc kv => dict_set (fst kv) (snd kv) acc) other d.

(** [d.get(k, default)] *)
Definition dict_get_default (k : string) (default : V) (d : list (string * V)) : V :=
  match dict_get k d with Some v => v | None => default end.

Definition dict_keys (d : list (string * V)) : list string := map fst d.
End Dict.

(** *** [str], [repr] and [str.strip]

    A [string] is read as a sequence of code points below 256. *)

Definition hex_digit (n : N) : ascii :=
  match n with
  | 0 => "0" | 1 => "1" | 2 => "2" | 3 => "3" | 4 => "4" | 5 => "5"
  | 6 => "6" | 7 => "7" | 8 => "8" | 9 => "9" | 10 => "a" | 11 => "b"
  | 12 => "c" | 13 => "d" | 14 => "e" | _ => "f"
  end%N%char.

(** [\xHH], two lower-case hexadecimal digits. *)
Definition hex_escape (c : ascii) : string :=
  let n := N_of_ascii c in
  String "\" (String "x" (String (hex_digit (n / 16)) (String (hex_digit (n mod 16)) EmptyString))).

(** [str.isprintable] on one code point below 256: the ASCII range from the
    space to the tilde, and U+00A1 to U+00FF without the soft hyphen. *)
Definition isprintable (c : ascii) : bool :=
  let n := N_of_ascii c in
  ((32 <=? n) && (n <? 127) || (161 <=? n) && negb (n =? 173))%N.

Fixpoint contains_char (c : ascii) (s : string) : bool :=
  match s with
  | EmptyString => false
  | String c' s' => Ascii.eqb c c' || contains_char c s'
  end.

(** The quote [repr] wraps a string in: a double quote only when the string
    has a single quote and no double quote. *)
Definition repr_quote (s : string) : ascii :=
  if contains_char "'" s && negb (contains_char "034" s) then "034"%char else "'"%char.

Definition repr_char (quote c : ascii) : string :=
  if Ascii.eqb c quote || Ascii.eqb c "\" then String "\" (String c EmptyString)
  else if Ascii.eqb c "009" then "\t"
  else if Ascii.eqb c "010" then "\n"
  else if Ascii.eqb c "013" then "\r"
  else if isprintable c then String c EmptyString
  else hex_escape c.

Fixpoint repr_body (quote : ascii) (s : string) : string :=
  match s with
  | EmptyString => EmptyString
  | String c s' => repr_char quote c +:+ repr_body quote s'
  end.

(** [repr(s)] for a [str]. *)
Definition repr_str (s : string) : string :=
  let q := repr_quote s in
  String q (repr_body q s +:+ String q EmptyString).

(** [str.isspace] on one code point below 256. *)
Definition isspace (c : ascii) : bool :=
  let n := N_of_ascii c in
  ((9 <=? n) && (n <=? 13) || (28 <=? n) && (n <=? 32) || (n =? 133) || (n =? 160))%N.

Fixpoint lstrip (s : string) : string :=
  match s with
  | EmptyString => EmptyString
  | String c s' => if isspace c then lstrip s' else s
  end.

Fixpoint rstrip (s : string) : string :=
  match s with
  | EmptyString => EmptyString
  | String c s' =>
      match rstrip s' with
      | EmptyString => if isspace c then EmptyString else String c EmptyString
      | r => String c r
      end
  end.

(** [s.strip()] *)
Definition strip (s : string) : string := rstrip (lstrip s).

(** [", ".join(l)] *)
Fixpoint join_comma (l : list string) : string :=
  match l with
  | [] => EmptyString
  | [x] => x
  | x :: l' => x +:+ ", " +:+ join_comma l'
  end.

Section ValueText.
(** [repr] of a [float] (shortest round-trip decimal) is CPython's; it is
    taken as given. *)
Variable float_repr : float -> string.

(** [repr(v)] *)
Fixpoint py_repr (v : Value) : string :=
  match v with
  | VNone => "None"
  | VBool true => "True"
  | VBool false => "False"
  | VInt n => pretty n
  | VFloat f => float_repr f
  | VStr s => repr_str s
  | VList l => "[" +:+ join_comma (map py_repr l) +:+ "]"
  | VDict d =>
      "{" +:+ join_comma (map (fun kv => repr_str (fst kv) +:+ ": " +:+ py_repr (snd kv)) d) +:+ "}"
  end.

(** [str(v)]: a [str] is itself, everything else is its [repr]. *)
Definition py_str (v : Value) : string :=
  match v with
  | VStr s => s
  | _ => py_repr v
  end.
End ValueText.

(** [a == b] for a decoded value and a string literal, as in
    [mtype == "chat"]. *)
Definition value_is_str (v : Value) (s : string) : bool :=
  match v with
  | VStr s' => String.eqb s' s
  | _ => false
  end.

(** ** The store of joint dictionaries *)

(** A [Dict[str, float]] is a mutable object: [MockRobotInterface.joints] is
    updated in place and [get_observation] hands out dictionaries to its
    callers. Each dictionary object has an address in the store; two
    references alias exactly when the addresses are equal. *)
Abbreviation loc := nat.
Abbreviation Joints := (list (string * float)).
Abbreviation Store := (list (list (string * float))).

(** A new dictionary object holding [d]. *)
Definition alloc (d : Joints) (h : Store) : loc * Store := (length h, h ++ [d]).

Definition deref (h : Store) (l : loc) : Joints := default [] (h !! l).

(** ** Images *)

Inductive SceneObject := RedCup | BlueBlock | GreenBall.

(** A camera frame. The pixels of a decoded file or of a video frame are
    whatever the decoder produced, named here by an identifier; the
    synthetic scene is the 480x640 array [_generate_synthetic_scene] paints:
    dark background, table, and the listed objects. *)
Inductive ndarray : Type :=
| Decoded (id : N) (h w c : Z)
| RGB (bgr : ndarray)
| SyntheticScene (objects : list SceneObject).

Fixpoint shape (a : ndarray) : Z * Z * Z :=
  match a with
  | Decoded _ h w c => (h, w, c)
  | RGB a' => shape a'
  | SyntheticScene _ => (480, 640, 3)
  end.

(** [cv2.VideoCapture]: the frames of the file and the read position. *)
Record VideoCapture := {
  vc_opened : bool;
  vc_frames : list ndarray;
  vc_pos : nat;
}.

(** [cap.read()] *)
Definition vc_read (cap : VideoCapture) : option ndarray * VideoCapture :=
  if vc_opened cap then
    match vc_frames cap !! vc_pos cap with
    | Some f => (Some f, {| vc_opened := true; vc_frames := vc_frames cap; vc_pos := S (vc_pos cap) |})
    | None => (None, cap)
    end
  else (None, cap).

(** [cap.set(0, 0)]: property 0 is the position in the file. *)
Definition vc_rewind (cap : VideoCapture) : VideoCapture :=
  {| vc_opened := vc_opened cap; vc_frames := vc_frames cap; vc_pos := 0 |}.

(** ** Configuration ([config.py]) *)

Record SO100DemoConfig := {
  port : string;
  camera_index : Z;
  demo_fps : Z;
  use_mock : bool;
  mock_video_path : option string;
  mock_static_image_path : option string;
  search_policy_path : option string;
  grasp_policy_path : option string;
}.

Record OpenCVCameraConfig := {
  index_or_path : Z;
  width : Z;
  height : Z;
  fps : Z;
}.

Record SO100FollowerConfig := {
  follower_port : string;
  cameras : list (string * OpenCVCameraConfig);
}.

Definition to_robot_config (self : SO100DemoConfig) : SO100FollowerConfig :=
  let cam_cfg :=
    {| index_or_path := camera_index self; width := 640; height := 480;
       fps := demo_fps self |} in
  {| follower_port := port self; cameras := [("wrist", cam_cfg)] |}.

(** Truth value of an [Optional[str]]: [None] and the empty string are
    false. *)
Definition truthy (p : option string) : option string :=
  match p with
  | Some EmptyString => None
  | _ => p
  end.

(** [float(n)] of an [int]: the nearest double, ties to even; it is
    infinite exactly where Python raises [OverflowError]. *)
Definition float_of_Z (n : Z) : float :=
  SF2Prim (binary_normalize prec emax n 0 false).

(** An [int] as the operand of a float operation. *)
Definition float_of_int (n : Z) : result float :=
  if is_infinity (float_of_Z n) then Raise (OtherException "OverflowError")
  else Ok (float_of_Z n).

(** [x / y] on floats *)
Definition float_truediv (x y : float) : result float :=
  if (y =? 0)%float then Raise (OtherException "ZeroDivisionError")
  else Ok (x / y)%float.

(** ** What the code takes from outside the repository *)

(** Values observed on the real arm. *)
Inductive ObsValue := ObsImage (a : ndarray) | ObsNumber (f : float).

Class External := {
  (** CPython: [repr] of a float *)
  float_repr : float -> string;
  (** [json.loads]: the value of a JSON text, [JSONDecodeError] for a text
      that is not JSON, or the other exceptions the decoder raises
      ([RecursionError] on a text nested too deep, [ValueError] on an
      integer of too many digits) *)
  json_loads : string -> result Value;
  (** [numpy.sin] *)
  np_sin : float -> float;
  (** whether [import cv2] succeeded *)
  cv2 : bool;
  (** [cv2.imread]; [None] when the file cannot be read *)
  cv2_imread : string -> option ndarray;
  (** [np.array(Image.open(path).convert("RGB"))] *)
  pil_open_rgb : string -> result ndarray;
  (** [cv2.VideoCapture(path)] *)
  cv2_VideoCapture : string -> result VideoCapture;
  (** thumbnail within 320x240, JPEG, base64 *)
  jpeg_thumbnail_b64 : ndarray -> string;
  (** [lerobot]'s [SO100Follower] *)
  SO100Follower : Type;
  follower_new : SO100FollowerConfig -> SO100Follower;
  follower_is_connected : SO100Follower -> bool;
  follower_connect : SO100Follower -> result unit * SO100Follower;
  follower_get_observation : SO100Follower -> result (list (string * ObsValue)) * SO100Follower;
  follower_cameras : SO100Follower -> list string;
  follower_motors : SO100Follower -> list string;
  follower_send_action : list (string * float) -> SO100Follower -> result unit * SO100Follower;
}.

(** ** The mock robot ([mock_robot_interface.py]) *)

Module Mock.
Section WithExternal.
Context `{External}.

Record MockRobotInterface := {
  cfg : SO100DemoConfig;
  joints : loc;
  _static_image : option ndarray;
  _video_cap : option VideoCapture;
  _frame_index : Z;
  _connected : bool;
}.

Definition set_static_image (v : option ndarray) (self : MockRobotInterface) :=
  {| cfg := cfg self; joints := joints self; _static_image := v;
     _video_cap := _video_cap self; _frame_index := _frame_index self;
     _connected := _connected self |}.
Definition set_video_cap (v : option VideoCapture) (self : MockRobotInterface) :=
  {| cfg := cfg self; joints := joints self; _static_image := _static_image self;
     _video_cap := v; _frame_index := _frame_index self;
     _connected := _connected self |}.
Definition set_frame_index (v : Z) (self : MockRobotInterface) :=
  {| cfg := cfg self; joints := joints self; _static_image := _static_image self;
     _video_cap := _video_cap self; _frame_index := v;
     _connected := _connected self |}.
Definition set_connected (v : bool) (self : MockRobotInterface) :=
  {| cfg := cfg self; joints := joints self; _static_image := _static_image self;
     _video_cap := _video_cap self; _frame_index := _frame_index self;
     _connected := v |}.

(** The dataclass constructor: a new joint dictionary from the default
    factory, everything else at its default. *)
Definition make_mock_robot_interface (c : SO100DemoConfig) (h : Store)
  : MockRobotInterface * Store :=
  let '(l, h') := alloc [("joint_0", 0%float); ("joint_1", 0%float); ("joint_2", 0%float)] h in
  ({| cfg := c; joints := l; _static_image := None; _video_cap := None;
      _frame_index := 0; _connected := false |}, h').

Definition _load_image (path : string) : result ndarray :=
  if cv2 then
    match cv2_imread path with
    | None => Raise (RuntimeError ("cv2.imread failed for " +:+ path))
    | Some img_bgr => Ok (RGB img_bgr)
    end
  else pil_open_rgb path.

Definition connect (self : MockRobotInterface) : MockRobotInterface :=
  if _connected self then self
  else
    let self := set_connected true self in
    let self :=
      match truthy (mock_static_image_path (cfg self)) with
      | Some path =>
          match _load_image path with
          | Ok img => set_static_image (Some img) self
          | Raise _ => set_static_image None self
          end
      | None => self
      end in
    match truthy (mock_video_path (cfg self)) with
    | Some path =>
        if cv2 then
          match cv2_VideoCapture path with
          | Ok cap =>
              if vc_opened cap then set_video_cap (Some cap) self
              else set_video_cap None self
          | Raise _ => set_video_cap None self
          end
        else self
    | None => self
    end.

Definition disconnect (self : MockRobotInterface) : MockRobotInterface :=
  if negb (_connected self) then self
  else set_connected false (set_video_cap None self).

Definition _generate_synthetic_scene (self : MockRobotInterface)
  : ndarray * MockRobotInterface :=
  let self := set_frame_index (_frame_index self + 1) self in
  let phase := (_frame_index self / 20) mod 3 in
  let objects :=
    (if (0 <=? phase)%Z then [RedCup] else [])
      ++ (if (1 <=? phase)%Z then [BlueBlock] else [])
      ++ (if (2 <=? phase)%Z then [GreenBall] else []) in
  (SyntheticScene objects, self).

Definition _get_frame_fallback (self : MockRobotInterface)
  : ndarray * MockRobotInterface :=
  match _static_image self with
  | Some img => (img, self)
  | None => _generate_synthetic_scene self
  end.

Definition _get_frame (self : MockRobotInterface) : ndarray * MockRobotInterface :=
  match _video_cap self with
  | Some cap =>
      let '(frame_bgr, cap) := vc_read cap in
      let '(frame_bgr, cap) :=
        match frame_bgr with
        | Some f => (Some f, cap)
        | None => vc_read (vc_rewind cap)
        end in
      let self := set_video_cap (Some cap) self in
      match frame_bgr with
      | Some f => (RGB f, self)
      | None => _get_frame_fallback self
      end
  | None => _get_frame_fallback self
  end.

(** Returns the frame and the address of a new dictionary, [dict(self.joints)]. *)
Definition get_observation (self : MockRobotInterface) (h : Store)
  : result (ndarray * loc) * MockRobotInterface * Store :=
  if negb (_connected self) then
    (Raise (RuntimeError "MockRobotInterface not connected."), self, h)
  else
    let '(frame, self) := _get_frame self in
    let '(l, h) := alloc (deref h (joints self)) h in
    (Ok (frame, l), self, h).

(** [self.joints.update(joint_targets)]: the object at [self.joints] is
    changed in place. *)
Definition send_joint_targets (joint_targets : loc) (self : MockRobotInterface) (h : Store)
  : Store :=
  <[joints self := dict_update (deref h (joints self)) (deref h joint_targets)]> h.
End WithExternal.
End Mock.

(** ** The real arm ([robot_interface.py]) *)

Module SO100.
Section WithExternal.
Context `{External}.

Record SO100RobotInterface := {
  config : SO100FollowerConfig;
  robot : option SO100Follower;
}.

Definition connect (self : SO100RobotInterface) : result unit * SO100RobotInterface :=
  let already :=
    match robot self with
    | Some r => follower_is_connected r
    | None => false
    end in
  if already then (Ok tt, self)
  else
    let '(r, f) := follower_connect (follower_new (config self)) in
    (r, {| config := config self; robot := Some f |}).

Definition disconnect (self : SO100RobotInterface) : SO100RobotInterface :=
  {| config := config self; robot := None |}.

(** [joints[name] = float(obs[key])] for every motor whose [name.pos] is
    observed. An observation that holds an array where a number is read,
    or a number where the camera frame is read, is a [TypeError]. *)
Fixpoint joint_positions (obs : list (string * ObsValue)) (motors : list string)
  : result Joints :=
  match motors with
  | [] => Ok []
  | name :: rest =>
      match dict_get (name +:+ ".pos") obs with
      | None => joint_positions obs rest
      | Some (ObsNumber f) =>
          match joint_positions obs rest with
          | Ok d => Ok (dict_update [(name, f)] d)
          | Raise e => Raise e
          end
      | Some (ObsImage _) => Raise (OtherException "TypeError")
      end
  end.

Definition get_observation (self : SO100RobotInterface) (h : Store)
  : result (ndarray * loc) * SO100RobotInterface * Store :=
  match robot self with
  | None => (Raise (RuntimeError "Robot not connected."), self, h)
  | Some r =>
      let '(obs, r) := follower_get_observation r in
      let self := {| config := config self; robot := Some r |} in
      match obs with
      | Raise e => (Raise e, self, h)
      | Ok obs =>
          match follower_cameras r with
          | [] => (Raise (RuntimeError "No cameras configured on SO100Follower."), self, h)
          | cam_key :: _ =>
              match dict_get cam_key obs with
              | None => (Raise (OtherException "KeyError"), self, h)
              | Some (ObsNumber _) => (Raise (OtherException "TypeError"), self, h)
              | Some (ObsImage image) =>
                  match joint_positions obs (follower_motors r) with
                  | Raise e => (Raise e, self, h)
                  | Ok d => let '(l, h) := alloc d h in (Ok (image, l), self, h)
                  end
              end
          end
      end
  end.

Definition send_joint_targets (joint_targets : loc) (self : SO100RobotInterface) (h : Store)
  : result unit * SO100RobotInterface :=
  match robot self with
  | None => (Raise (RuntimeError "Robot not connected."), self)
  | Some r =>
      let action := map (fun kv => (fst kv +:+ ".pos", snd kv)) (deref h joint_targets) in
      let '(res, r) := follower_send_action action r in
      (res, {| config := config self; robot := Some r |})
  end.
End WithExternal.
End SO100.

(** [make_robot_interface]: the mock or the real arm, by configuration. *)
Inductive RobotInterface `{External} :=
| IsMock (r : Mock.MockRobotInterface)
| IsReal (r : SO100.SO100RobotInterface).

Definition make_robot_interface `{External} (c : SO100DemoConfig) (h : Store)
  : RobotInterface * Store :=
  if use_mock c then
    let '(r, h) := Mock.make_mock_robot_interface c h in (IsMock r, h)
  else (IsReal {| SO100.config := to_robot_config c; SO100.robot := None |}, h).

(** ** Chat engines ([llm_config.py], [llm_engine.py]) *)

Record LLMConfig := {
  provider : string;
  model_name : string;
  api_key_env : string;
}.

Inductive LLMEngine :=
| GeminiEngine (model_name api_key_env : string)
| ClaudeEngine (model_name api_key_env : string)
| QwenEngine (model_name api_key_env : string)
| StubEngine.

(** [str.lower] on code points below 256. *)
Definition lower_char (c : ascii) : ascii :=
  let n := N_of_ascii c in
  if ((65 <=? n) && (n <=? 90) || (192 <=? n) && (n <=? 222) && negb (n =? 215))%N
  then ascii_of_N (n + 32) else c.

Fixpoint lower (s : string) : string :=
  match s with
  | EmptyString => EmptyString
  | String c s' => String (lower_char c) (lower s')
  end.

Definition make_llm_engine (cfg : LLMConfig) : LLMEngine :=
  let provider := lower (provider cfg) in
  if String.eqb provider "gemini" then GeminiEngine (model_name cfg) (api_key_env cfg)
  else if String.eqb provider "claude" then ClaudeEngine (model_name cfg) (api_key_env cfg)
  else if String.eqb provider "qwen" then QwenEngine (model_name cfg) (api_key_env cfg)
  else StubEngine.

(** A JSON-shaped message, [Dict[str, Any]]. *)
Abbreviation Message := (list (string * Value)).

Section Chat.
Context `{External}.

(** The [for m in reversed(messages)] loop of [StubEngine.chat]: the
    content of the last message whose role is ["user"]. *)
Fixpoint last_user_content (reversed_messages : list Message) : string :=
  match reversed_messages with
  | [] => ""
  | m :: rest =>
      if value_is_str (dict_get_default "role" VNone m) "user"
      then py_str float_repr (dict_get_default "content" (VStr "") m)
      else last_user_content rest
  end.

Definition stub_chat (messages : list Message) : Message :=
  let last_user := last_user_content (rev messages) in
  [("role", VStr "assistant");
   ("content",
    VStr ("[STUB LLM] I received: " +:+ repr_str last_user
          +:+ ". Configure a real LLM to get meaningful answers."))].

(** [engine.chat(messages, tools=None)] *)
Definition chat (engine : LLMEngine) (messages : list Message) : result Message :=
  match engine with
  | GeminiEngine _ _ =>
      Raise (NotImplementedError
               "GeminiEngine.chat is a stub. Implement the HTTP call to Google Gemini here.")
  | ClaudeEngine _ _ =>
      Raise (NotImplementedError
               "ClaudeEngine.chat is a stub. Implement the HTTP call to Anthropic Claude here.")
  | QwenEngine _ _ =>
      Raise (NotImplementedError
               "QwenEngine.chat is a stub. Implement the HTTP call to Qwen here.")
  | StubEngine => Ok (stub_chat messages)
  end.
End Chat.

(** ** Computations over a state that may raise *)

(** A piece of synchronous Python code: it runs on the state and either
    returns or raises; the state changes made before a raise stay. *)
Definition M (S A : Type) : Type := S -> result A * S.

#[global] Instance M_ret {S} : MRet (M S) := fun A a s => (Ok a, s).
#[global] Instance M_bind {S} : MBind (M S) :=
  fun A B f c s =>
    match c s with
    | (Ok a, s') => f a s'
    | (Raise e, s') => (Raise e, s')
    end.

Definition raise {S A} (e : Exn) : M S A := fun s => (Raise e, s).
Definition gets {S A} (f : S -> A) : M S A := fun s => (Ok (f s), s).
Definition modify {S} (f : S -> S) : M S unit := fun s => (Ok tt, f s).

(** [try: c except <classes>: handler] *)
Definition try_except {S A} (c : M S A) (handles : Exn -> bool) (handler : Exn -> M S A)
  : M S A :=
  fun s =>
    match c s with
    | (Raise e, s') => if handles e then handler e s' else (Raise e, s')
    | r => r
    end.

(** [except Exception] *)
Definition any_Exception (e : Exn) : bool := true.

Definition is_NotImplementedError (e : Exn) : bool :=
  match e with NotImplementedError _ => true | _ => false end.

(** ** Coroutines *)

(** What a coroutine of [server.py] awaits. *)
Inductive Awaitable :=
| broadcast_json_call (message : Message)
| sleep_call (seconds : float).

(** The body of an [async def], as the code still to run. [Sync] is code
    without an [await]: it runs in one piece and its continuation sees
    whether it raised. At an [Await] the coroutine may be suspended. *)
Inductive Coro (S : Type) : Type :=
| Pass
| Return
| Throw (e : Exn)
| Sync {A : Type} (f : M S A) (k : result A -> Coro S)
| Await (a : Awaitable) (k : Coro S)
| While (cond : S -> bool) (body : Coro S) (k : Coro S).
Arguments Pass {S}.
Arguments Return {S}.
Arguments Throw {S} e.
Arguments Sync {S A} f k.
Arguments Await {S} a k.
Arguments While {S} cond body k.

(** Statement sequencing: [k] runs where [c] reaches the end of its block. *)
Fixpoint then_ {S} (c k : Coro S) : Coro S :=
  match c with
  | Pass => k
  | Return => Return
  | Throw e => Throw e
  | Sync f g => Sync f (fun r => then_ (g r) k)
  | Await a c' => Await a (then_ c' k)
  | While cond body k' => While cond body (then_ k' k)
  end.

Declare Scope coro_scope.
Delimit Scope coro_scope with coro.
Bind Scope coro_scope with Coro.
Notation "c ;; k" := (then_ c k)
  (at level 100, k at level 200, only parsing, right associativity) : coro_scope.

(** [await a] as a statement. *)
Definition await {S} (a : Awaitable) : Coro S := Await a Pass.

(** A call whose exception nobody handles. *)
Definition call {S A} (f : M S A) (k : A -> Coro S) : Coro S :=
  Sync f (fun r => match r with Ok a => k a | Raise e => Throw e end).

(** [for x in l: body x] *)
Fixpoint for_each {S A} (l : list A) (body : A -> Coro S) : Coro S :=
  match l with
  | [] => Pass
  | x :: l' => then_ (body x) (for_each l' body)
  end.

(** [range(n)] *)
Definition range (n : nat) : list nat := seq 0 n.

(** How a task ended. *)
Inductive Outcome :=
| Returned
| Raised (e : Exn)
| Cancelled.

(** Where a run of synchronous code stops. *)
Inductive Stop (S : Type) : Type :=
| StopAwait (a : Awaitable) (k : Coro S)
| StopLoop (cond : S -> bool) (body : Coro S) (k : Coro S)
| StopEnd (o : Outcome).
Arguments StopAwait {S} a k.
Arguments StopLoop {S} cond body k.
Arguments StopEnd {S} o.

(** Runs [c] up to its first [await], to the head of a [while], or to its
    end. *)
Fixpoint run_sync {S} (c : Coro S) (s : S) : Stop S * S :=
  match c with
  | Pass | Return => (StopEnd Returned, s)
  | Throw e => (StopEnd (Raised e), s)
  | Sync f k => let '(r, s') := f s in run_sync (k r) s'
  | Await a k => (StopAwait a k, s)
  | While cond body k => (StopLoop cond body k, s)
  end.

(** Runs [c] up to its first [await] or to its end, testing the condition
    of a [while] it meets and entering its body or going past it. A body
    that comes back to the head without an [await] is left at the head. *)
Definition run_to_await {S} (c : Coro S) (s : S) : Stop S * S :=
  match run_sync c s with
  | (StopLoop cond body k, s') =>
      if cond s' then run_sync (then_ body (While cond body k)) s'
      else
        match run_sync k s' with
        | (StopLoop cond' body' k', s'') => (StopLoop cond' body' k', s'')
        | r => r
        end
  | r => r
  end.

(** ** The server ([server.py]) *)

(** A client connection, as an opaque handle. *)
Abbreviation WebSocket := nat.

(** An [asyncio.Task], named by its creation rank. *)
Abbreviation TaskId := nat.

Module Server.
Section WithExternal.
Context `{External}.

(** The module-level state of [server.py], and the network it talks to:
    [closed] holds the connections on which [send_json] raises;
    [delivered] lists what the peers were sent, oldest first. *)
Record Globals := {
  active_connections : gset WebSocket;
  closed : gset WebSocket;
  delivered : list (WebSocket * Message);
  demo_cfg : SO100DemoConfig;
  llm_engine : LLMEngine;
  robot_interface : RobotInterface;
  store : Store;
  streaming : bool;
  stream_task : option TaskId;
  behavior_task : option TaskId;
}.

Definition set_active_connections (v : gset WebSocket) (g : Globals) : Globals :=
  {| active_connections := v; closed := closed g; delivered := delivered g;
     demo_cfg := demo_cfg g; llm_engine := llm_engine g;
     robot_interface := robot_interface g; store := store g;
     streaming := streaming g; stream_task := stream_task g;
     behavior_task := behavior_task g |}.
Definition set_closed (v : gset WebSocket) (g : Globals) : Globals :=
  {| active_connections := active_connections g; closed := v; delivered := delivered g;
     demo_cfg := demo_cfg g; llm_engine := llm_engine g;
     robot_interface := robot_interface g; store := store g;
     streaming := streaming g; stream_task := stream_task g;
     behavior_task := behavior_task g |}.
Definition set_delivered (v : list (WebSocket * Message)) (g : Globals) : Globals :=
  {| active_connections := active_connections g; closed := closed g; delivered := v;
     demo_cfg := demo_cfg g; llm_engine := llm_engine g;
     robot_interface := robot_interface g; store := store g;
     streaming := streaming g; stream_task := stream_task g;
     behavior_task := behavior_task g |}.
Definition set_robot (r : RobotInterface) (h : Store) (g : Globals) : Globals :=
  {| active_connections := active_connections g; closed := closed g;
     delivered := delivered g; demo_cfg := demo_cfg g; llm_engine := llm_engine g;
     robot_interface := r; store := h;
     streaming := streaming g; stream_task := stream_task g;
     behavior_task := behavior_task g |}.
Definition set_streaming (v : bool) (g : Globals) : Globals :=
  {| active_connections := active_connections g; closed := closed g;
     delivered := delivered g; demo_cfg := demo_cfg g; llm_engine := llm_engine g;
     robot_interface := robot_interface g; store := store g;
     streaming := v; stream_task := stream_task g;
     behavior_task := behavior_task g |}.
Definition set_stream_task (v : option TaskId) (g : Globals) : Globals :=
  {| active_connections := active_connections g; closed := closed g;
     delivered := delivered g; demo_cfg := demo_cfg g; llm_engine := llm_engine g;
     robot_interface := robot_interface g; store := store g;
     streaming := streaming g; stream_task := v;
     behavior_task := behavior_task g |}.
Definition set_behavior_task (v : option TaskId) (g : Globals) : Globals :=
  {| active_connections := active_connections g; closed := closed g;
     delivered := delivered g; demo_cfg := demo_cfg g; llm_engine := llm_engine g;
     robot_interface := robot_interface g; store := store g;
     streaming := streaming g; stream_task := stream_task g;
     behavior_task := v |}.

(** *** Sending on one connection *)

(** [await ws.send_json(message)] *)
Definition send_json (ws : WebSocket) (message : Message) : M Globals unit :=
  fun g =>
    if decide (ws ∈ closed g) then (Raise (RuntimeError "connection closed"), g)
    else (Ok tt, set_delivered (delivered g ++ [(ws, message)]) g).

(** *** [ConnectionManager]

    Every method body runs under [self._lock]; a method is one step for
    the other coroutines as far as the active set goes. *)

(** [ConnectionManager.connect], after [websocket.accept()] *)
Definition manager_connect (websocket : WebSocket) : M Globals unit :=
  modify (fun g => set_active_connections (active_connections g ∪ {[websocket]}) g).

(** [ConnectionManager.disconnect] *)
Definition manager_disconnect (websocket : WebSocket) : M Globals unit :=
  modify (fun g => set_active_connections (active_connections g ∖ {[websocket]}) g).

(** The first loop of [broadcast_json]: one send per connection, the
    connections whose send raised collected in [disconnect]. *)
Fixpoint broadcast_sends (message : Message) (conns : list WebSocket)
    (disconnect : gset WebSocket) : M Globals (gset WebSocket) :=
  match conns with
  | [] => mret disconnect
  | ws :: rest =>
      disconnect ←
        try_except (send_json ws message ;; mret disconnect)
                   any_Exception
                   (fun e => mret (disconnect ∪ {[ws]}));
      broadcast_sends message rest disconnect
  end.

(** The second loop of [broadcast_json]. *)
Fixpoint discard_all (conns : list WebSocket) : M Globals unit :=
  match conns with
  | [] => mret tt
  | ws :: rest =>
      modify (fun g => set_active_connections (active_connections g ∖ {[ws]}) g) ;;
      discard_all rest
  end.

(** [ConnectionManager.broadcast_json] *)
Definition broadcast_json (message : Message) : M Globals unit :=
  conns ← gets (fun g => elements (active_connections g));
  disconnect ← broadcast_sends message conns ∅;
  discard_all (elements disconnect).

(** *** Calls on [robot_interface] *)

Definition robot_connect : M Globals unit :=
  fun g =>
    match robot_interface g with
    | IsMock r => (Ok tt, set_robot (IsMock (Mock.connect r)) (store g) g)
    | IsReal r =>
        let '(res, r) := SO100.connect r in
        (res, set_robot (IsReal r) (store g) g)
    end.

Definition robot_get_observation : M Globals (ndarray * loc) :=
  fun g =>
    match robot_interface g with
    | IsMock r =>
        let '(res, r, h) := Mock.get_observation r (store g) in
        (res, set_robot (IsMock r) h g)
    | IsReal r =>
        let '(res, r, h) := SO100.get_observation r (store g) in
        (res, set_robot (IsReal r) h g)
    end.

Definition robot_send_joint_targets (joint_targets : loc) : M Globals unit :=
  fun g =>
    match robot_interface g with
    | IsMock r =>
        (Ok tt, set_robot (IsMock r) (Mock.send_joint_targets joint_targets r (store g)) g)
    | IsReal r =>
        let '(res, r) := SO100.send_joint_targets joint_targets r (store g) in
        (res, set_robot (IsReal r) (store g) g)
    end.

Definition _is_mock_robot (g : Globals) : bool :=
  match robot_interface g with
  | IsMock _ => true
  | IsReal _ => false
  end.

(** A new dictionary object. *)
Definition new_dict (d : Joints) : M Globals loc :=
  fun g => let '(l, h) := alloc d (store g) in (Ok l, set_robot (robot_interface g) h g).

(** The items of the dictionary at [l]. *)
Definition items (l : loc) : M Globals Joints :=
  gets (fun g => deref (store g) l).

Definition float_of_nat (n : nat) : float :=
  PrimFloat.of_uint63 (Uint63.of_Z (Z.of_nat n)).

(** *** [camera_stream_loop] *)

Definition frame_payload (frame : ndarray) (joints : Joints) : Message :=
  let '(h, w, c) := shape frame in
  [("type", VStr "frame");
   ("shape", VList [VInt h; VInt w; VInt c]);
   ("image_b64", VStr (jpeg_thumbnail_b64 frame));
   ("joints", VDict (map (fun kv => (fst kv, VFloat (snd kv))) joints))].

(** [1.0 / demo_cfg.demo_fps]: the rate is an [int], made a float for
    the division. *)
Definition stream_period : M Globals float :=
  fun g =>
    match float_of_int (demo_fps (demo_cfg g)) with
    | Raise e => (Raise e, g)
    | Ok fps => (float_truediv 1 fps, g)
    end.

Definition camera_stream_iteration : Coro Globals :=
  call robot_get_observation (fun '(frame, joints) =>
  call (items joints) (fun joints =>
  (await (broadcast_json_call (frame_payload frame joints)) ;;
   call stream_period (fun period =>
   await (sleep_call period)))%coro)).

Definition camera_stream_loop : Coro Globals :=
  Sync robot_connect (fun r =>
    match r with
    | Raise e => Sync (modify (set_streaming false)) (fun _ => Return)
    | Ok _ => While streaming camera_stream_iteration Pass
    end).

(** *** [_mock_search_and_grasp] *)

Definition status (phase : string) : Message :=
  [("type", VStr "status"); ("phase", VStr phase)].

Definition reasoning (thought : string) : Message :=
  [("type", VStr "reasoning"); ("thought", VStr thought)].

(** The joint-space scanning pattern of one search step: [new_joints],
    filled in the order of [joints.items()]. Both robot interfaces return a
    [dict], so the [isinstance] test of the source always passes. *)
Definition scan_targets (step : nat) (joints : Joints) : Joints :=
  foldl (fun new_joints '(idx, (name, val)) =>
           let delta := (0.1 * np_sin (float_of_nat step / 3 + float_of_nat idx))%float in
           dict_set name (val + delta)%float new_joints)
        [] (imap (fun idx kv => (idx, kv)) joints).

Definition search_step (step : nat) : Coro Globals :=
  Sync robot_get_observation (fun r =>
    match r with
    | Raise e =>
        (await (broadcast_json_call
                  [("type", VStr "status"); ("phase", VStr "error");
                   ("detail", VStr "observation_failed")]) ;;
         Return)%coro
    | Ok (frame, joints) =>
        call (items joints) (fun joint_items =>
        call (new_dict (scan_targets step joint_items)) (fun new_joints =>
        call (robot_send_joint_targets new_joints) (fun _ =>
        (await (broadcast_json_call
                  (reasoning ("[search step " +:+ pretty (Z.of_nat step)
                              +:+ "] Panning camera to look for the object..."))) ;;
         await (sleep_call 0.2))%coro)))
    end).

Definition grasp_step (step : nat) : Coro Globals :=
  (await (broadcast_json_call
            (reasoning ("[grasp step " +:+ pretty (Z.of_nat step)
                        +:+ "] Moving end-effector to grasp the object..."))) ;;
   await (sleep_call 0.3))%coro.

Definition _mock_search_and_grasp (object_name : string) : Coro Globals :=
  (await (broadcast_json_call (status "searching")) ;;
   await (broadcast_json_call
            (reasoning ("Starting search for '" +:+ object_name
                        +:+ "' using mock policy."))) ;;
   for_each (range 10) search_step ;;
   await (broadcast_json_call
            (reasoning ("Object '" +:+ object_name
                        +:+ "' appears to be visible. Switching to grasp phase."))) ;;
   await (broadcast_json_call (status "grasping")) ;;
   for_each (range 5) grasp_step ;;
   await (broadcast_json_call
            (reasoning ("Grasp completed in mock mode for '" +:+ object_name +:+ "'."))) ;;
   await (broadcast_json_call (status "done")))%coro.

(** *** The event loop *)

(** A task is suspended with the code it runs when resumed, or has been
    asked to cancel and gets [CancelledError] thrown in when resumed, or
    is done. Neither coroutine intercepts [CancelledError]: it is not an
    [Exception], and the only [finally] clause logs. *)
Inductive TaskState :=
| Suspended (code : Coro Globals)
| CancelRequested
| Done (o : Outcome).

(** [coro_name] is the name of the coroutine function the task runs. *)
Record Task := {
  coro_name : string;
  task_state : TaskState;
}.

(** [endpoints] are the connections whose [websocket_endpoint] coroutine
    sits in its receive loop. *)
Record World := {
  globals : Globals;
  tasks : list Task;
  endpoints : gset WebSocket;
}.

Definition set_globals (g : Globals) (w : World) : World :=
  {| globals := g; tasks := tasks w; endpoints := endpoints w |}.
Definition set_tasks (t : list Task) (w : World) : World :=
  {| globals := globals w; tasks := t; endpoints := endpoints w |}.
Definition set_endpoints (e : gset WebSocket) (w : World) : World :=
  {| globals := globals w; tasks := tasks w; endpoints := e |}.

(** Code on the module state, run in a world. *)
Definition on_globals {A} (c : M Globals A) : M World A :=
  fun w => let '(r, g) := c (globals w) in (r, set_globals g w).

(** [asyncio.create_task(coro)] *)
Definition create_task (name : string) (code : Coro Globals) : M World TaskId :=
  fun w =>
    (Ok (length (tasks w)),
     set_tasks (tasks w ++ [{| coro_name := name; task_state := Suspended code |}]) w).

(** [task.done()] *)
Definition task_done (tid : TaskId) : M World bool :=
  gets (fun w =>
          match tasks w !! tid with
          | Some {| task_state := Done _ |} => true
          | _ => false
          end).

(** [task.cancel()] *)
Definition cancel_state (t : Task) : Task :=
  match task_state t with
  | Done _ => t
  | _ => {| coro_name := coro_name t; task_state := CancelRequested |}
  end.

Definition task_cancel (tid : TaskId) : M World unit :=
  modify (fun w => set_tasks (alter cancel_state tid (tasks w)) w).

(** *** [websocket_endpoint]: one received text message *)

(** [data.get(key, default)]; only a [dict] has the method. *)
Definition data_get (data : Value) (key : string) (default : Value) : M World Value :=
  match data with
  | VDict d => mret (dict_get_default key default d)
  | _ => raise (AttributeError "get")
  end.

Definition chat_reply (reply : Message) : Message :=
  [("type", VStr "chat"); ("text", dict_get_default "content" (VStr "") reply)].

Definition handle_chat (websocket : WebSocket) (data : Value) : M World unit :=
  text ← data_get data "text" (VStr "");
  let text := py_str float_repr text in
  let messages := [[("role", VStr "user"); ("content", VStr text)]] in
  try_except
    (engine ← gets (fun w => llm_engine (globals w));
     reply ← (fun w => (chat engine messages, w));
     on_globals (send_json websocket (chat_reply reply)))
    is_NotImplementedError
    (fun _ =>
       reply ← (fun w => (chat StubEngine messages, w));
       on_globals (send_json websocket (chat_reply reply))).

Definition handle_start_stream (websocket : WebSocket) : M World unit :=
  is_streaming ← gets (fun w => streaming (globals w));
  (if negb is_streaming then
     on_globals (modify (set_streaming true)) ;;
     tid ← create_task "camera_stream_loop" camera_stream_loop;
     on_globals (modify (set_stream_task (Some tid)))
   else mret tt) ;;
  on_globals (send_json websocket
    [("type", VStr "status"); ("text", VStr "streaming_started");
     ("phase", VStr "streaming")]).

Definition handle_stop_stream (websocket : WebSocket) : M World unit :=
  on_globals (modify (set_streaming false)) ;;
  task ← gets (fun w => stream_task (globals w));
  match task with
  | Some tid =>
      task_cancel tid ;;
      on_globals (modify (set_stream_task None))
  | None => mret tt
  end ;;
  on_globals (send_json websocket
    [("type", VStr "status"); ("text", VStr "streaming_stopped");
     ("phase", VStr "idle")]).

(** [str(data.get("object", "object")).strip() or "object"] *)
Definition object_name_of (v : Value) : string :=
  match strip (py_str float_repr v) with
  | EmptyString => "object"
  | s => s
  end.

Definition handle_search_and_grasp (websocket : WebSocket) (data : Value) : M World unit :=
  object ← data_get data "object" (VStr "object");
  let object_name := object_name_of object in
  task ← gets (fun w => behavior_task (globals w));
  match task with
  | Some tid =>
      finished ← task_done tid;
      if negb finished then task_cancel tid else mret tt
  | None => mret tt
  end ;;
  is_mock ← gets (fun w => _is_mock_robot (globals w));
  if (is_mock : bool) then
    tid ← create_task "_mock_search_and_grasp" (_mock_search_and_grasp object_name);
    on_globals (modify (set_behavior_task (Some tid))) ;;
    on_globals (send_json websocket
      [("type", VStr "status");
       ("text", VStr ("search_and_grasp started for '" +:+ object_name
                      +:+ "' (mock mode)"));
       ("phase", VStr "searching")])
  else
    on_globals (send_json websocket
      [("type", VStr "status");
       ("text", VStr "search_and_grasp is only implemented in mock mode for now.");
       ("phase", VStr "idle")]).

Definition error_event (text : string) : Message :=
  [("type", VStr "error"); ("text", VStr text)].

Definition handle_command (websocket : WebSocket) (data : Value) : M World unit :=
  action ← data_get data "action" VNone;
  if value_is_str action "start_stream" then handle_start_stream websocket
  else if value_is_str action "stop_stream" then handle_stop_stream websocket
  else if value_is_str action "search_and_grasp" then handle_search_and_grasp websocket data
  else on_globals (send_json websocket
         (error_event ("Unknown command action: " +:+ py_repr float_repr action))).

(** The body of the [while True] loop for the received text [msg]. The
    [except json.JSONDecodeError] clause takes that exception only: any
    other exception of [json.loads] leaves the loop. *)
Definition handle_text (websocket : WebSocket) (msg : string) : M World unit :=
  match json_loads msg with
  | Raise (JSONDecodeError _) =>
      on_globals (send_json websocket (error_event "Invalid JSON"))
  | Raise e => raise e
  | Ok data =>
      mtype ← data_get data "type" VNone;
      if value_is_str mtype "chat" then handle_chat websocket data
      else if value_is_str mtype "command" then handle_command websocket data
      else on_globals (send_json websocket
             (error_event ("Unknown message type: " +:+ py_repr float_repr mtype)))
  end.

(** Both [except] clauses of the endpoint: deregister, and the coroutine
    ends. *)
Definition endpoint_stop (websocket : WebSocket) (w : World) : World :=
  let '(_, w) := on_globals (manager_disconnect websocket) w in
  set_endpoints (endpoints w ∖ {[websocket]}) w.

(** One turn of the receive loop. *)
Definition endpoint_receive (websocket : WebSocket) (msg : string) (w : World) : World :=
  match handle_text websocket msg w with
  | (Ok _, w') => w'
  | (Raise _, w') => endpoint_stop websocket w'
  end.

(** *** Transitions *)

(** The awaited call, run when the task reaches it. *)
Definition perform (a : Awaitable) : M Globals unit :=
  match a with
  | broadcast_json_call message => broadcast_json message
  | sleep_call _ => mret tt
  end.

(** The event loop resumes a task: its code runs through its next
    [await], the awaited call included. A broadcast is one piece for the
    other coroutines, since [self._lock] keeps them away from the active set
    while it lasts; a request to cancel is seen at the next resumption. *)
Definition resume_code (code : Coro Globals) (g : Globals)
  : TaskState * Globals * option Awaitable :=
  match run_to_await code g with
  | (StopAwait a k, g') =>
      match perform a g' with
      | (Ok _, g'') => (Suspended k, g'', Some a)
      | (Raise e, g'') => (Done (Raised e), g'', Some a)
      end
  | (StopLoop cond body k, g') => (Suspended (While cond body k), g', None)
  | (StopEnd o, g') => (Done o, g', None)
  end.

(** What can happen next: a client connects and is registered, a text
    arrives on a connection, [receive_text] raises [WebSocketDisconnect], a
    connection stops taking sends, the event loop resumes a task. *)
Inductive Label :=
| Accept (ws : WebSocket)
| Receive (ws : WebSocket) (msg : string)
| Hangup (ws : WebSocket)
| Break (ws : WebSocket)
| Resume (tid : TaskId).

(** What a transition lets the clients observe: the task that ran, the
    name of its coroutine, and the call it awaited. *)
Definition Emitted := option (TaskId * string * Awaitable).

Definition step (l : Label) (w : World) : option (World * Emitted) :=
  match l with
  | Accept ws =>
      if decide (ws ∈ endpoints w ∨ ws ∈ active_connections (globals w)
                 ∨ ws ∈ closed (globals w)) then None
      else
        let '(_, w) := on_globals (manager_connect ws) w in
        Some (set_endpoints (endpoints w ∪ {[ws]}) w, None)
  | Receive ws msg =>
      if decide (ws ∈ endpoints w) then Some (endpoint_receive ws msg w, None)
      else None
  | Hangup ws =>
      if decide (ws ∈ endpoints w) then
        let g := globals w in
        Some (endpoint_stop ws (set_globals (set_closed (closed g ∪ {[ws]}) g) w), None)
      else None
  | Break ws =>
      let g := globals w in
      Some (set_globals (set_closed (closed g ∪ {[ws]}) g) w, None)
  | Resume tid =>
      match tasks w !! tid with
      | Some {| coro_name := name; task_state := Suspended code |} =>
          let '(st, g, a) := resume_code code (globals w) in
          Some (set_tasks (<[tid := {| coro_name := name; task_state := st |}]> (tasks w))
                          (set_globals g w),
                option_map (fun a => (tid, name, a)) a)
      | Some {| coro_name := name; task_state := CancelRequested |} =>
          Some (set_tasks (<[tid := {| coro_name := name; task_state := Done Cancelled |}]>
                             (tasks w)) w,
                None)
      | _ => None
      end
  end.

(** A run of the server: the transitions taken, and what they emitted. *)
Fixpoint exec (ls : list Label) (w : World) : option (World * list Emitted) :=
  match ls with
  | [] => Some (w, [])
  | l :: ls' =>
      match step l w with
      | Some (w', e) =>
          match exec ls' w' with
          | Some (w'', es) => Some (w'', e :: es)
          | None => None
          end
      | None => None
      end
  end.

(** The module state when [server.py] has been imported. *)
Definition initial_globals (cfg : SO100DemoConfig) (llm_cfg : LLMConfig) : Globals :=
  let '(robot, h) := make_robot_interface cfg [] in
  {| active_connections := ∅; closed := ∅; delivered := [];
     demo_cfg := cfg; llm_engine := make_llm_engine llm_cfg;
     robot_interface := robot; store := h;
     streaming := false; stream_task := None; behavior_task := None |}.

Definition initial_world (cfg : SO100DemoConfig) (llm_cfg : LLMConfig) : World :=
  {| globals := initial_globals cfg llm_cfg; tasks := []; endpoints := ∅ |}.

(** *** Runs of one task *)

(** A run of one task: it is resumed once in each of the module states
    [gs], in order; between two resumptions the other coroutines may have
    turned the state into anything. The result is what each resumption
    awaited, and the state of the task after the last one. *)
Fixpoint resume_all (code : Coro Globals) (gs : list Globals)
  : list (option Awaitable) * TaskState :=
  match gs with
  | [] => ([], Suspended code)
  | g :: gs' =>
      match resume_code code g with
      | (Suspended k, _, a) =>
          let '(tr, st) := resume_all k gs' in (a :: tr, st)
      | (st, _, a) => ([a], st)
      end
  end.

(** The messages a run broadcast, in order. *)
Fixpoint broadcasts (tr : list (option Awaitable)) : list Message :=
  match tr with
  | [] => []
  | Some (broadcast_json_call m) :: tr' => m :: broadcasts tr'
  | _ :: tr' => broadcasts tr'
  end.

(** [robot_interface.get_observation()] returns in state [g]. *)
Definition fetch_ok (g : Globals) : bool := is_ok (robot_get_observation g).1.

(** The search step [step] is the resumption of rank [2 + 2 * step] of a
    run of [_mock_search_and_grasp]: two broadcasts come first, and each
    step is resumed twice, at its fetch and after its sleep. *)
Definition fetch_rank (step : nat) : nat := 2 + 2 * step.

Definition search_thought (step : nat) : string :=
  "[search step " +:+ pretty (Z.of_nat step)
    +:+ "] Panning camera to look for the object...".

Definition grasp_thought (step : nat) : string :=
  "[grasp step " +:+ pretty (Z.of_nat step)
    +:+ "] Moving end-effector to grasp the object...".

Definition error_status : Message :=
  [("type", VStr "status"); ("phase", VStr "error"); ("detail", VStr "observation_failed")].

(** [message] is a status event with phase [phase]. *)
Definition is_status (phase : string) (message : Message) : bool :=
  value_is_str (dict_get_default "type" VNone message) "status"
  && value_is_str (dict_get_default "phase" VNone message) phase.

Definition is_reasoning (message : Message) : bool :=
  value_is_str (dict_get_default "type" VNone message) "reasoning".

Definition is_error (message : Message) : bool :=
  value_is_str (dict_get_default "type" VNone message) "error".
End WithExternal.
End Server.

(** * The policy demo ([search_skill.py], [grasp_skill.py],
    [demo_orchestrator.py], [run_demo.py]) *)

(** ** Three methods of [str] *)

(** [s.startswith(prefix)] *)
Definition startswith (prefix s : string) : bool := String.prefix prefix s.

(** [s.endswith(suffix)] *)
Fixpoint endswith (suffix s : string) : bool :=
  String.eqb s suffix
  || match s with
     | EmptyString => false
     | String _ s' => endswith suffix s'
     end.

(** [s.replace(old, new)] for an [old] that is not empty: the occurrences
    of [old] are taken from left to right and do not overlap. [skip] is the
    number of characters of the occurrence just found that are still to be
    passed over. *)
Fixpoint replace_from (old new : string) (skip : nat) (s : string) : string :=
  match s with
  | EmptyString => EmptyString
  | String c s' =>
      match skip with
      | S k => replace_from old new k s'
      | O =>
          if String.prefix old s
          then new +:+ replace_from old new (String.length old - 1) s'
          else String c (replace_from old new 0 s')
      end
  end.

Definition replace (old new s : string) : string := replace_from old new 0 s.

(** ** What the skills take from [lerobot] and [numpy] *)

Class Lerobot := {
  (** [lerobot.policies.pretrained.PreTrainedPolicy] *)
  PreTrainedPolicy : Type;
  (** what a policy is given *)
  Batch : Type;
  (** an array of the action a policy returns *)
  Array : Type;
  (** [lerobot.utils.constants] *)
  ACTION : string;
  OBS_STR : string;
  (** [PreTrainedPolicy.from_pretrained(path)] *)
  from_pretrained : string -> result PreTrainedPolicy;
  (** the batch written as nested dictionaries *)
  raw_batch : list (string * list (string * ndarray)) -> Batch;
  (** [policy.no_grad()], entered *)
  policy_no_grad : PreTrainedPolicy -> result unit;
  (** [policy.select_action(batch)]; the policy keeps a state of its own *)
  select_action :
    Batch -> PreTrainedPolicy -> result (list (string * Array)) * PreTrainedPolicy;
  (** [float(np.asarray(v).squeeze())] *)
  squeeze_float : Array -> result float;
}.

Section Policies.
Context `{External} `{Lerobot}.

(** The loop that fills [flat_action]. *)
Fixpoint flat_action_loop (items : list (string * Array)) (flat_action : Joints)
  : result Joints :=
  match items with
  | [] => Ok flat_action
  | (k, v) :: rest =>
      if startswith ACTION k then
        match squeeze_float v with
        | Ok f => flat_action_loop rest (dict_set k f flat_action)
        | Raise e => Raise e
        end
      else flat_action_loop rest flat_action
  end.

(** The forward pass both [step] methods make: the batch of one frame,
    the preprocessor if there is one, [select_action] under [no_grad], the
    postprocessor if there is one, and the entries of the action whose key
    starts with [ACTION], as floats. The policy comes back with the state
    [select_action] left it in. *)
Definition forward_pass
    (preprocessor : option (Batch -> result Batch))
    (postprocessor : option (list (string * Array) -> result (list (string * Array))))
    (image : ndarray) (policy : PreTrainedPolicy)
  : result Joints * PreTrainedPolicy :=
  let obs_frame := [(OBS_STR +:+ ".image", image)] in
  let batch := raw_batch [(OBS_STR, obs_frame)] in
  match (match preprocessor with Some pre => pre batch | None => Ok batch end) with
  | Raise e => (Raise e, policy)
  | Ok batch =>
      match policy_no_grad policy with
      | Raise e => (Raise e, policy)
      | Ok _ =>
          let '(action, policy) := select_action batch policy in
          match action with
          | Raise e => (Raise e, policy)
          | Ok action =>
              match (match postprocessor with
                     | Some post => post action
                     | None => Ok action
                     end) with
              | Raise e => (Raise e, policy)
              | Ok action => (flat_action_loop action [], policy)
              end
          end
      end
  end.

(** The dictionary comprehension of the two loops: the entries of the
    action whose name ends with [.pos], under the name without [.pos]. *)
Definition joint_targets_of (action_dict : Joints) : Joints :=
  fold_left
    (fun targets kv =>
       if endswith ".pos" (fst kv)
       then dict_set (replace ".pos" "" (fst kv)) (snd kv) targets
       else targets)
    action_dict [].
End Policies.

Module SearchSkill.
Section WithExternal.
Context `{External} `{Lerobot}.

Record SearchPolicySkill := {
  policy_path : option string;
  preprocessor : option (Batch -> result Batch);
  postprocessor : option (list (string * Array) -> result (list (string * Array)));
  policy : option PreTrainedPolicy;
}.

Definition set_policy (v : option PreTrainedPolicy) (self : SearchPolicySkill) :=
  {| policy_path := policy_path self; preprocessor := preprocessor self;
     postprocessor := postprocessor self; policy := v |}.

Definition load : M SearchPolicySkill unit :=
  fun self =>
    match policy_path self with
    | None =>
        (Raise (RuntimeError
                  ("SearchPolicySkill.load called without a policy_path. "
                   +:+ "Provide --search-policy-path pointing to a trained search policy.")),
         self)
    | Some path =>
        match from_pretrained path with
        | Ok p => (Ok tt, set_policy (Some p) self)
        | Raise e => (Raise e, self)
        end
    end.

Definition _ensure_loaded : M SearchPolicySkill unit :=
  fun self =>
    match policy self with
    | None => load self
    | Some _ => (Ok tt, self)
    end.

(** [joints] is not looked at. *)
Definition step (image : ndarray) (joints : loc) : M SearchPolicySkill Joints :=
  _ensure_loaded ;;
  ((fun self =>
      match policy self with
      | None => (Raise (OtherException "AssertionError"), self)
      | Some p =>
          let '(r, p) := forward_pass (preprocessor self) (postprocessor self) image p in
          (r, set_policy (Some p) self)
      end) : M SearchPolicySkill Joints).
End WithExternal.
End SearchSkill.

Module GraspSkill.
Section WithExternal.
Context `{External} `{Lerobot}.

Record GraspPolicySkill := {
  policy_path : string;
  preprocessor : option (Batch -> result Batch);
  postprocessor : option (list (string * Array) -> result (list (string * Array)));
  policy : option PreTrainedPolicy;
}.

Definition set_policy (v : option PreTrainedPolicy) (self : GraspPolicySkill) :=
  {| policy_path := policy_path self; preprocessor := preprocessor self;
     postprocessor := postprocessor self; policy := v |}.

Definition load : M GraspPolicySkill unit :=
  fun self =>
    match from_pretrained (policy_path self) with
    | Ok p => (Ok tt, set_policy (Some p) self)
    | Raise e => (Raise e, self)
    end.

Definition _ensure_loaded : M GraspPolicySkill unit :=
  fun self =>
    match policy self with
    | None => load self
    | Some _ => (Ok tt, self)
    end.

Definition step (image : ndarray) (joints : loc) : M GraspPolicySkill Joints :=
  _ensure_loaded ;;
  ((fun self =>
      match policy self with
      | None => (Raise (OtherException "AssertionError"), self)
      | Some p =>
          let '(r, p) := forward_pass (preprocessor self) (postprocessor self) image p in
          (r, set_policy (Some p) self)
      end) : M GraspPolicySkill Joints).
End WithExternal.
End GraspSkill.

(** ** The orchestrator and its two loops *)

Module Orchestrator.
Section WithExternal.
Context `{External} `{Lerobot}.

(** [SO100DemoOrchestrator], with the store its robot interface works in.
    [cfg] is not used by [run] and [detect_fn] is an argument of [run]
    below. *)
Record SO100DemoOrchestrator := {
  robot : SO100.SO100RobotInterface;
  store : Store;
  search_skill : SearchSkill.SearchPolicySkill;
  grasp_skill : GraspSkill.GraspPolicySkill;
}.

Definition set_robot (r : SO100.SO100RobotInterface) (h : Store)
    (self : SO100DemoOrchestrator) :=
  {| robot := r; store := h; search_skill := search_skill self;
     grasp_skill := grasp_skill self |}.
Definition set_search_skill (s : SearchSkill.SearchPolicySkill)
    (self : SO100DemoOrchestrator) :=
  {| robot := robot self; store := store self; search_skill := s;
     grasp_skill := grasp_skill self |}.
Definition set_grasp_skill (s : GraspSkill.GraspPolicySkill)
    (self : SO100DemoOrchestrator) :=
  {| robot := robot self; store := store self; search_skill := search_skill self;
     grasp_skill := s |}.

(** Code of the search skill, of the grasp skill, run in the demo. *)
Definition on_search {A} (c : M SearchSkill.SearchPolicySkill A)
  : M SO100DemoOrchestrator A :=
  fun self => let '(r, s) := c (search_skill self) in (r, set_search_skill s self).

Definition on_grasp {A} (c : M GraspSkill.GraspPolicySkill A)
  : M SO100DemoOrchestrator A :=
  fun self => let '(r, s) := c (grasp_skill self) in (r, set_grasp_skill s self).

(** The calls on [robot]. *)
Definition robot_connect : M SO100DemoOrchestrator unit :=
  fun self =>
    let '(r, robot) := SO100.connect (robot self) in (r, set_robot robot (store self) self).

Definition robot_disconnect : M SO100DemoOrchestrator unit :=
  fun self => (Ok tt, set_robot (SO100.disconnect (robot self)) (store self) self).

Definition robot_get_observation : M SO100DemoOrchestrator (ndarray * loc) :=
  fun self =>
    let '(r, robot, h) := SO100.get_observation (robot self) (store self) in
    (r, set_robot robot h self).

(** [robot.send_joint_targets] on a new dictionary. *)
Definition robot_send_joint_targets (joint_targets : Joints)
  : M SO100DemoOrchestrator unit :=
  fun self =>
    let '(l, h) := alloc joint_targets (store self) in
    let '(r, robot) := SO100.send_joint_targets l (robot self) h in
    (r, set_robot robot h self).

(** The [for step in ...] loop of [SearchPolicySkill.run_search_loop]. *)
Fixpoint search_steps (steps : list nat) (object_name : string)
    (detect_fn : ndarray -> string -> bool) (max_steps : nat)
  : M SO100DemoOrchestrator (bool * nat) :=
  match steps with
  | [] => mret (false, max_steps)
  | step :: rest =>
      '(image, joints) ← robot_get_observation;
      if detect_fn image object_name then mret (true, step)
      else
        action_dict ← on_search (SearchSkill.step image joints);
        robot_send_joint_targets (joint_targets_of action_dict) ;;
        search_steps rest object_name detect_fn max_steps
  end.

(** [SearchPolicySkill.run_search_loop], for the skill and the robot of the
    demo. *)
Definition run_search_loop (object_name : string)
    (detect_fn : ndarray -> string -> bool) (max_steps : nat)
  : M SO100DemoOrchestrator (bool * nat) :=
  on_search SearchSkill._ensure_loaded ;;
  search_steps (range max_steps) object_name detect_fn max_steps.

(** The [for step in ...] loop of [GraspPolicySkill.run_grasp_loop]. *)
Fixpoint grasp_steps (steps : list nat) : M SO100DemoOrchestrator unit :=
  match steps with
  | [] => mret tt
  | step :: rest =>
      '(image, joints) ← robot_get_observation;
      action_dict ← on_grasp (GraspSkill.step image joints);
      robot_send_joint_targets (joint_targets_of action_dict) ;;
      grasp_steps rest
  end.

(** [GraspPolicySkill.run_grasp_loop] *)
Definition run_grasp_loop (max_steps : nat) : M SO100DemoOrchestrator unit :=
  on_grasp GraspSkill._ensure_loaded ;;
  grasp_steps (range max_steps).

(** [try: c finally: cleanup], for a [cleanup] that does not raise. *)
Definition try_finally {S A} (c : M S A) (cleanup : M S unit) : M S A :=
  fun s =>
    let '(r, s') := c s in
    let '(_, s'') := cleanup s' in
    (r, s'').

(** The body of the [try] of [run]. *)
Definition search_then_grasp (object_name : string)
    (detect_fn : ndarray -> string -> bool) : M SO100DemoOrchestrator unit :=
  path ← gets (fun self => SearchSkill.policy_path (search_skill self));
  go_on ←
    match path with
    | None => mret true
    | Some _ =>
        '(found, steps) ← run_search_loop object_name detect_fn 50;
        mret found
    end;
  if (go_on : bool) then run_grasp_loop 100 else mret tt.

(** [SO100DemoOrchestrator.run] *)
Definition run (object_name : string) (detect_fn : ndarray -> string -> bool)
  : M SO100DemoOrchestrator unit :=
  robot_connect ;;
  try_finally (search_then_grasp object_name detect_fn) robot_disconnect.
End WithExternal.
End Orchestrator.

(** ** [run_demo.py] *)

Module RunDemo.
Section WithExternal.
Context `{External} `{Lerobot}.

Definition simple_pixel_detector (frame : ndarray) (object_name : string) : bool := false.

(** The command line, parsed. *)
Record Namespace := {
  object_name : string;
  search_policy_path : option string;
  grasp_policy_path : option string;
  so100_port : option string;
  arg_camera_index : option Z;
}.

(** [SO100DemoConfig] called on [cfg_kwargs]; [defaults] holds the defaults
    of the class, which it read from the environment when it was defined. *)
Definition config_of_args (defaults : SO100DemoConfig) (args : Namespace)
  : SO100DemoConfig :=
  let 'Build_SO100DemoConfig port camera_index demo_fps use_mock video image search grasp :=
    defaults in
  Build_SO100DemoConfig
    (match so100_port args with Some p => p | None => port end)
    (match arg_camera_index args with Some i => i | None => camera_index end)
    demo_fps use_mock video image search grasp.

(** The orchestrator [main] builds. *)
Definition make_orchestrator (defaults : SO100DemoConfig) (args : Namespace) (h : Store)
  : Orchestrator.SO100DemoOrchestrator :=
  let cfg := config_of_args defaults args in
  {| Orchestrator.robot :=
       {| SO100.config := to_robot_config cfg; SO100.robot := None |};
     Orchestrator.store := h;
     Orchestrator.search_skill :=
       {| SearchSkill.policy_path := truthy (search_policy_path args);
          SearchSkill.preprocessor := None; SearchSkill.postprocessor := None;
          SearchSkill.policy := None |};
     Orchestrator.grasp_skill :=
       {| GraspSkill.policy_path :=
            match truthy (grasp_policy_path args) with
            | Some p => p
            | None => "MISSING_GRASP_POLICY"
            end;
          GraspSkill.preprocessor := None; GraspSkill.postprocessor := None;
          GraspSkill.policy := None |} |}.

(** [main], after [parse_args]: the result of [orchestrator.run] and the
    orchestrator as the run left it. *)
Definition main (defaults : SO100DemoConfig) (args : Namespace) (h : Store)
  : result unit * Orchestrator.SO100DemoOrchestrator :=
  Orchestrator.run (object_name args) simple_pixel_detector
    (make_orchestrator defaults args h).
End WithExternal.
End RunDemo.

(** * Loading the chat configuration ([llm_config.py]) *)

(** The files and the environment of the process. *)
Class Host := {
  (** [Path(p).is_file()] *)
  is_file : string -> bool;
  (** [Path(p).read_text()] *)
  read_text : string -> result string;
  (** [os.environ.get(name)] *)
  environ_get : string -> option string;
}.

(** An [LLMConfig] as [load] builds it. The dataclass checks no types, and
    a JSON file can hold any value under a key, so a field is a [Value]. *)
Record LoadedLLMConfig := {
  loaded_provider : Value;
  loaded_model_name : Value;
  loaded_api_key_env : Value;
}.

(** The defaults of the class. *)
Definition LLMConfig_defaults : LLMConfig :=
  {| provider := "gemini"; model_name := "gemini-1.5-flash";
     api_key_env := "GEMINI_API_KEY" |}.

Section Load.
Context `{External} `{Host}.

(** The second part of [load]: the environment, then the defaults. *)
Definition load_from_environment : LoadedLLMConfig :=
  {| loaded_provider :=
       VStr (default (provider LLMConfig_defaults) (environ_get "LLM_PROVIDER"));
     loaded_model_name :=
       VStr (default (model_name LLMConfig_defaults) (environ_get "LLM_MODEL"));
     loaded_api_key_env :=
       VStr (default (api_key_env LLMConfig_defaults) (environ_get "LLM_API_KEY_ENV")) |}.

(** [LLMConfig.load(config_path)] *)
Definition load (config_path : option string) : result LoadedLLMConfig :=
  match config_path with
  | Some path =>
      if is_file path then
        match read_text path with
        | Raise e => Raise e
        | Ok text =>
            match json_loads text with
            | Raise e => Raise e
            | Ok (VDict data) =>
                Ok {| loaded_provider :=
                        dict_get_default "provider"
                          (VStr (provider LLMConfig_defaults)) data;
                      loaded_model_name :=
                        dict_get_default "model_name"
                          (VStr (model_name LLMConfig_defaults)) data;
                      loaded_api_key_env :=
                        dict_get_default "api_key_env"
                          (VStr (api_key_env LLMConfig_defaults)) data |}
            | Ok _ => Raise (AttributeError "get")
            end
        end
      else Ok load_from_environment
  | None => Ok load_from_environment
  end.

(** [llm_cfg] of [server.py], for the path of [llm_config.json]. *)
Definition server_llm_cfg (_llm_config_path : string) : result LoadedLLMConfig :=
  if is_file _llm_config_path then load (Some _llm_config_path) else load None.
End Load.

(** * Vocabulary of the properties *)

Import Server.

Section Vocabulary.
Context `{Ext : External}.
Implicit Types (g : Globals) (w : World) (t : Task).

(** The fields a broadcast cannot touch. *)
Definition same_control (g g' : Globals) : Prop :=
  closed g' = closed g
  ∧ demo_cfg g' = demo_cfg g
  ∧ llm_engine g' = llm_engine g
  ∧ robot_interface g' = robot_interface g
  ∧ store g' = store g
  ∧ streaming g' = streaming g
  ∧ stream_task g' = stream_task g
  ∧ behavior_task g' = behavior_task g.

(** The world after one more delivery to [ws]. *)
Definition with_delivery (ws : WebSocket) (message : Message) (w : World) : World :=
  set_globals (set_delivered (delivered (globals w) ++ [(ws, message)]) (globals w)) w.

(** The text the stub engine answers [t] with. *)
Definition stub_echo (t : string) : string :=
  "[STUB LLM] I received: " +:+ repr_str t
    +:+ ". Configure a real LLM to get meaningful answers.".

Definition search_trace (steps : list nat) : list (option Awaitable) :=
  flat_map (λ step, [Some (broadcast_json_call (reasoning (search_thought step)));
                     Some (sleep_call 0.2)]) steps.

Definition grasp_trace (steps : list nat) : list (option Awaitable) :=
  flat_map (λ step, [Some (broadcast_json_call (reasoning (grasp_thought step)));
                     Some (sleep_call 0.3)]) steps.

Definition search_narration (object_name : string) : list Message :=
  reasoning ("Starting search for '" +:+ object_name +:+ "' using mock policy.")
  :: map (λ step, reasoning (search_thought step)) (range 10)
  ++ [reasoning ("Object '" +:+ object_name
                 +:+ "' appears to be visible. Switching to grasp phase.")].

Definition grasp_narration (object_name : string) : list Message :=
  map (λ step, reasoning (grasp_thought step)) (range 5)
  ++ [reasoning ("Grasp completed in mock mode for '" +:+ object_name +:+ "'.")].

(** A message the endpoint does not recognize: text on which [json.loads]
    raises [JSONDecodeError], a JSON object whose type is neither ["chat"]
    nor ["command"], or a command whose action is none of the three. *)
Definition unrecognized (msg : string) : bool :=
  match json_loads msg with
  | Raise (JSONDecodeError _) => true
  | Raise _ => false
  | Ok (VDict data) =>
      let mtype := dict_get_default "type" VNone data in
      if value_is_str mtype "chat" then false
      else if value_is_str mtype "command" then
        let action := dict_get_default "action" VNone data in
        negb (value_is_str action "start_stream"
              || value_is_str action "stop_stream"
              || value_is_str action "search_and_grasp")
      else true
  | Ok _ => false
  end.

(** The streaming flag and the two task handles. *)
Definition same_ctl (g g' : Globals) : Prop :=
  streaming g' = streaming g
  ∧ stream_task g' = stream_task g
  ∧ behavior_task g' = behavior_task g.

(** Code that never assigns the streaming flag or a task handle. *)
Fixpoint quiet (c : Coro Globals) : Prop :=
  match c with
  | Pass | Return | Throw _ => True
  | Sync f k => (∀ g, same_ctl g (f g).2) ∧ ∀ r, quiet (k r)
  | Await _ k => quiet k
  | While _ body k => quiet body ∧ quiet k
  end.

Definition is_stream_task (t : Task) : bool :=
  String.eqb (coro_name t) "camera_stream_loop".

Definition is_behavior_task (t : Task) : bool :=
  String.eqb (coro_name t) "_mock_search_and_grasp".

(** [not task.done()] *)
Definition alive (t : Task) : bool :=
  match task_state t with Done _ => false | _ => true end.

(** The task still has code to run: it is neither done nor cancelled. *)
Definition runnable (t : Task) : bool :=
  match task_state t with Suspended _ => true | _ => false end.

(** [msg] is a command with the given action. *)
Definition is_command (action : string) (msg : string) : bool :=
  match json_loads msg with
  | Ok (VDict data) =>
      value_is_str (dict_get_default "type" VNone data) "command"
      && value_is_str (dict_get_default "action" VNone data) action
  | _ => false
  end.

(** [task.cancel()] on a handle that may be [None]. *)
Definition cancel_handle (handle : option TaskId) (ts : list Task) : list Task :=
  match handle with
  | Some tid => alter cancel_state tid ts
  | None => ts
  end.

Definition stream_task_new : Task :=
  {| coro_name := "camera_stream_loop"; task_state := Suspended camera_stream_loop |}.

Definition behavior_task_new (object_name : string) : Task :=
  {| coro_name := "_mock_search_and_grasp";
     task_state := Suspended (_mock_search_and_grasp object_name) |}.

(** What handling one received message does to the tasks, the flag and the
    handles. *)
Inductive Effect (msg : string) (w w' : World) : Prop :=
| Effect_none :
    tasks w' = tasks w →
    same_ctl (globals w) (globals w') →
    Effect msg w w'
| Effect_start :
    is_command "start_stream" msg = true →
    streaming (globals w) = false →
    tasks w' = tasks w ++ [stream_task_new] →
    streaming (globals w') = true →
    stream_task (globals w') = Some (length (tasks w)) →
    behavior_task (globals w') = behavior_task (globals w) →
    Effect msg w w'
| Effect_stop :
    is_command "stop_stream" msg = true →
    tasks w' = cancel_handle (stream_task (globals w)) (tasks w) →
    streaming (globals w') = false →
    stream_task (globals w') = None →
    behavior_task (globals w') = behavior_task (globals w) →
    Effect msg w w'
| Effect_search_mock object_name :
    is_command "search_and_grasp" msg = true →
    _is_mock_robot (globals w) = true →
    tasks w' = cancel_handle (behavior_task (globals w)) (tasks w)
               ++ [behavior_task_new object_name] →
    behavior_task (globals w') = Some (length (tasks w)) →
    streaming (globals w') = streaming (globals w) →
    stream_task (globals w') = stream_task (globals w) →
    Effect msg w w'
| Effect_search_real :
    is_command "search_and_grasp" msg = true →
    _is_mock_robot (globals w) = false →
    tasks w' = cancel_handle (behavior_task (globals w)) (tasks w) →
    same_ctl (globals w) (globals w') →
    Effect msg w w'.

(** How a turn of the receive loop ends: the world as it is, or the endpoint
    stopped when an exception came up. *)
Definition finish (websocket : WebSocket) (r : result unit * World) : World :=
  match r with
  | (Ok _, w') => w'
  | (Raise _, w') => endpoint_stop websocket w'
  end.

(** The code a suspended task holds: quiet code, or the whole of
    [camera_stream_loop] in a task of that name. *)
Definition well_coded (t : Task) : Prop :=
  match task_state t with
  | Suspended code =>
      quiet code ∨ (code = camera_stream_loop ∧ is_stream_task t = true)
  | _ => True
  end.

(** What holds of the behaviour tasks in every world the server reaches:
    the only one that can still run is the one [behavior_task] names. *)
Record Inv (w : World) : Prop := {
  inv_coded : ∀ tid t, tasks w !! tid = Some t → well_coded t;
  inv_behavior : ∀ tid t,
    tasks w !! tid = Some t → is_behavior_task t = true → runnable t = true →
    behavior_task (globals w) = Some tid;
  inv_handle : ∀ h, behavior_task (globals w) = Some h → (h < length (tasks w))%nat;
}.

(** What holds of the streaming tasks as long as nobody sends
    [stop_stream]: one that is not done is the one [stream_task] names, and
    the flag is up. *)
Definition StreamInv (w : World) : Prop :=
  ∀ tid t,
    tasks w !! tid = Some t → is_stream_task t = true → alive t = true →
    stream_task (globals w) = Some tid ∧ streaming (globals w) = true.

(** A label that is not the receipt of a [stop_stream] command. *)
Definition not_stop (l : Label) : Prop :=
  match l with
  | Receive _ msg => is_command "stop_stream" msg = false
  | _ => True
  end.

(** The least rank a behaviour task that broadcasts from now on can have:
    the rank [behavior_task] names, or the rank of the next task created. *)
Definition floor (w : World) : nat :=
  match behavior_task (globals w) with
  | Some h => h
  | None => length (tasks w)
  end.

End Vocabulary.

(** * Vocabulary of the further properties *)

Section FurtherVocabulary.
Context `{Ext : External}.
Implicit Types (g : Globals) (w : World) (t : Task).

(** The frames of [n] successive calls of [_get_frame]. *)
Fixpoint get_frames (n : nat) (self : Mock.MockRobotInterface) : list ndarray :=
  match n with
  | O => []
  | S n' => let '(frame, self') := Mock._get_frame self in frame :: get_frames n' self'
  end.

(** The objects painted in phase [phase] of the synthetic scene. *)
Definition scene_objects (phase : Z) : list SceneObject :=
  take (Z.to_nat (phase + 1)) [RedCup; BlueBlock; GreenBall].

(** The first, the last character of [s] is white space. *)
Definition starts_with_space (s : string) : bool :=
  match s with
  | EmptyString => false
  | String c _ => isspace c
  end.

Fixpoint ends_with_space (s : string) : bool :=
  match s with
  | EmptyString => false
  | String c EmptyString => isspace c
  | String _ s' => ends_with_space s'
  end.

(** The offset a search step adds to the joint of rank [idx]. *)
Definition scan_delta (step idx : nat) : float :=
  (0.1 * np_sin (float_of_nat step / 3 + float_of_nat idx))%float.

(** The role of a chat message is ["user"]. *)
Definition is_user (m : Message) : bool :=
  value_is_str (dict_get_default "role" VNone m) "user".

(** The reply of the stub engine to a last user message [t]. *)
Definition stub_reply (t : string) : Message :=
  [("role", VStr "assistant"); ("content", VStr (stub_echo t))].

(** The position the arm reports for the motor [name], if any. *)
Definition observed_position (obs : list (string * ObsValue)) (name : string)
  : option (string * float) :=
  match dict_get (name +:+ ".pos") obs with
  | Some (ObsNumber f) => Some (name, f)
  | _ => None
  end.

(** Everything but the streaming flag and the task handles: the network,
    the configuration, the engine, the robot and the store. *)
Definition same_net (g g' : Globals) : Prop :=
  active_connections g' = active_connections g
  ∧ closed g' = closed g
  ∧ delivered g' = delivered g
  ∧ demo_cfg g' = demo_cfg g
  ∧ llm_engine g' = llm_engine g
  ∧ robot_interface g' = robot_interface g
  ∧ store g' = store g.

(** The text is JSON, and not an object. *)
Definition not_an_object (msg : string) : Prop :=
  ∃ v, json_loads msg = Ok v ∧ ∀ data, v ≠ VDict data.

(** [json.loads] raises on the text, and not [JSONDecodeError]. *)
Definition loads_raises (msg : string) : Prop :=
  ∃ e, json_loads msg = Raise e ∧ ∀ text, e ≠ JSONDecodeError text.

(** A text the endpoint has no answer to. *)
Definition unanswered (msg : string) : Prop :=
  not_an_object msg ∨ loads_raises msg.

(** Code whose synchronous pieces all take a state to one that [R]
    relates to it. *)
Fixpoint keeps (R : Globals → Globals → Prop) (c : Coro Globals) : Prop :=
  match c with
  | Pass | Return | Throw _ => True
  | Sync f k => (∀ g, R g (f g).2) ∧ ∀ r, keeps R (k r)
  | Await _ k => keeps R k
  | While _ body k => keeps R body ∧ keeps R k
  end.

(** What a task cannot do to the module state: change the kind of robot,
    the configuration or the engine, register a connection, close one. *)
Definition task_frame (g g' : Globals) : Prop :=
  _is_mock_robot g' = _is_mock_robot g
  ∧ active_connections g' ⊆ active_connections g
  ∧ closed g' = closed g
  ∧ demo_cfg g' = demo_cfg g
  ∧ llm_engine g' = llm_engine g.

(** Every suspended task holds code that keeps [R]. *)
Definition Coded (R : Globals → Globals → Prop) (w : World) : Prop :=
  ∀ tid name code,
    tasks w !! tid = Some {| coro_name := name; task_state := Suspended code |} →
    keeps R code.

(** What holds of the streaming tasks in every world the server reaches,
    [stop_stream] or not: one that can still run is the one [stream_task]
    names, and the flag is up. *)
Record RunInv (w : World) : Prop := {
  run_stream : ∀ tid t,
    tasks w !! tid = Some t → is_stream_task t = true → runnable t = true →
    stream_task (globals w) = Some tid ∧ streaming (globals w) = true;
  run_handle : ∀ h, stream_task (globals w) = Some h → (h < length (tasks w))%nat;
}.

(** The least rank a streaming task that broadcasts from now on can have. *)
Definition stream_floor (w : World) : nat :=
  match stream_task (globals w) with
  | Some h => h
  | None => length (tasks w)
  end.

(** A label that is not the receipt of a [start_stream] command. *)
Definition not_start (l : Label) : Prop :=
  match l with
  | Receive _ msg => is_command "start_stream" msg = false
  | _ => True
  end.

(** The robot is the mock, and [connect] has not been called on it. *)
Definition mock_off (g : Globals) : Prop :=
  match robot_interface g with
  | IsMock r => Mock._connected r = false
  | IsReal _ => False
  end.

(** The robot is the mock, and it is connected. *)
Definition mock_on (g : Globals) : Prop :=
  match robot_interface g with
  | IsMock r => Mock._connected r = true
  | IsReal _ => False
  end.

(** [_mock_search_and_grasp] from its search loop on, and after it. *)
Definition behavior_tail (object_name : string) : Coro Globals :=
  (await (broadcast_json_call
            (reasoning ("Object '" +:+ object_name
                        +:+ "' appears to be visible. Switching to grasp phase."))) ;;
   await (broadcast_json_call (status "grasping")) ;;
   for_each (range 5) grasp_step ;;
   await (broadcast_json_call
            (reasoning ("Grasp completed in mock mode for '" +:+ object_name +:+ "'."))) ;;
   await (broadcast_json_call (status "done")))%coro.

Definition behavior_search (object_name : string) : Coro Globals :=
  then_ (for_each (range 10) search_step) (behavior_tail object_name).

Definition starting_search (object_name : string) : Message :=
  reasoning ("Starting search for '" +:+ object_name +:+ "' using mock policy.").

(** The code a behaviour task can hold as long as the robot is not
    connected. *)
Inductive off_code : Coro Globals → Prop :=
| off_code_start object_name : off_code (_mock_search_and_grasp object_name)
| off_code_announce object_name :
    off_code (Await (broadcast_json_call (starting_search object_name))
                    (behavior_search object_name))
| off_code_search object_name : off_code (behavior_search object_name)
| off_code_return : off_code Return.

(** What a behaviour task awaits as long as the robot is not connected. *)
Definition off_awaited (a : Awaitable) : Prop :=
  a = broadcast_json_call (status "searching")
  ∨ (∃ object_name, a = broadcast_json_call (starting_search object_name))
  ∨ a = broadcast_json_call error_status.

Record OffInv (w : World) : Prop := {
  off_robot : mock_off (globals w);
  off_tasks : ∀ tid name code,
    tasks w !! tid = Some {| coro_name := name; task_state := Suspended code |} →
    name = "_mock_search_and_grasp" ∧ off_code code;
}.

(** The head of the loop of [camera_stream_loop], and the loop from the
    sleep of an iteration on. *)
Definition stream_head : Coro Globals := While streaming camera_stream_iteration Pass.

Definition stream_sleep : Coro Globals :=
  then_ (call stream_period (λ period, await (sleep_call period))) stream_head.

(** The frame event sent in state [g] by a mock robot [r]. *)
Definition mock_frame_event (r : Mock.MockRobotInterface) (g : Globals) : Awaitable :=
  broadcast_json_call
    (frame_payload (Mock._get_frame (Mock.connect r)).1 (deref (store g) (Mock.joints r))).

(** The frame rate is a number other than zero, positive or negative,
    that a float holds: [1.0 / demo_fps] has a value. *)
Definition rate_divides (g : Globals) : Prop :=
  is_infinity (float_of_Z (demo_fps (demo_cfg g))) = false
  ∧ (float_of_Z (demo_fps (demo_cfg g)) =? 0)%float = false.

(** A mock server that is streaming at such a rate. *)
Definition mock_streaming (g : Globals) : Prop :=
  _is_mock_robot g = true ∧ streaming g = true ∧ rate_divides g.

(** What holds of the set-up in every world the server reaches. *)
Record Setup (cfg : SO100DemoConfig) (llm_cfg : LLMConfig) (w : World) : Prop := {
  setup_coded : Coded task_frame w;
  setup_registered : active_connections (globals w) ⊆ endpoints w;
  setup_cfg : demo_cfg (globals w) = cfg;
  setup_engine : llm_engine (globals w) = make_llm_engine llm_cfg;
  setup_kind : _is_mock_robot (globals w) = use_mock cfg;
}.

(** What holds in every world the server reaches on the real arm. *)
Record RealInv (w : World) : Prop := {
  real_kind : _is_mock_robot (globals w) = false;
  real_handle : behavior_task (globals w) = None;
  real_tasks : ∀ tid t, tasks w !! tid = Some t → is_stream_task t = true;
}.

(** The answer to [search_and_grasp] on the real arm. *)
Definition real_reply : Message :=
  [("type", VStr "status");
   ("text", VStr "search_and_grasp is only implemented in mock mode for now.");
   ("phase", VStr "idle")].

(** The two acknowledgements of the streaming commands. *)
Definition streaming_started : Message :=
  [("type", VStr "status"); ("text", VStr "streaming_started"); ("phase", VStr "streaming")].

Definition streaming_stopped : Message :=
  [("type", VStr "status"); ("text", VStr "streaming_stopped"); ("phase", VStr "idle")].

(** [1.0 / demo_cfg.demo_fps] in state [g], when the rate divides. *)
Definition stream_pause (g : Globals) : float :=
  (1 / float_of_Z (demo_fps (demo_cfg g)))%float.

(** What a streaming task on a mock robot awaits, resumption after
    resumption: a frame event, the pause, a frame event, the pause. The
    states are those in which it is resumed. *)
Fixpoint stream_trace (frame : bool) (gs : list Globals) : list (option Awaitable) :=
  match gs with
  | [] => []
  | g :: gs' =>
      (if frame then
         match robot_interface g with
         | IsMock r => Some (mock_frame_event r g)
         | IsReal _ => None
         end
       else Some (sleep_call (stream_pause g)))
      :: stream_trace (negb frame) gs'
  end.

(** [old] occurs in [s]. *)
Fixpoint occurs (old s : string) : bool :=
  String.prefix old s
  || match s with
     | EmptyString => false
     | String _ s' => occurs old s'
     end.

(** The name of a position: a name in which [.pos] does not occur,
    followed by [.pos]. *)
Definition position_name (name : string) : Prop :=
  ∃ base, name = base +:+ ".pos" ∧ occurs ".pos" base = false.

(** The action [SO100RobotInterface.send_joint_targets] sends for the
    targets it is given. *)
Definition action_of_targets (joint_targets : Joints) : Joints :=
  map (λ kv, (fst kv +:+ ".pos", snd kv)) joint_targets.

End FurtherVocabulary.

(** * A setting to run the definitions in

    No OpenCV, no files, an arm that does not answer, and [json.loads] on
    the few texts used in the examples. *)

(** The double quote. *)
Definition dq : string := String "034" EmptyString.

(** The JSON text of a value, for values without floats and without
    characters to escape. *)
Fixpoint json_text (v : Value) : string :=
  match v with
  | VNone => "null"
  | VBool true => "true"
  | VBool false => "false"
  | VInt n => pretty n
  | VFloat _ => "0.0"
  | VStr s => dq +:+ s +:+ dq
  | VList l => "[" +:+ join_comma (map json_text l) +:+ "]"
  | VDict d =>
      "{" +:+ join_comma (map (λ kv, dq +:+ fst kv +:+ dq +:+ ": " +:+ json_text (snd kv)) d)
          +:+ "}"
  end.

Definition chat_hello : Value :=
  VDict [("type", VStr "chat"); ("text", VStr "hello")].

Definition command_start_stream : Value :=
  VDict [("type", VStr "command"); ("action", VStr "start_stream")].

Definition command_stop_stream : Value :=
  VDict [("type", VStr "command"); ("action", VStr "stop_stream")].

Definition command_search_ball : Value :=
  VDict [("type", VStr "command"); ("action", VStr "search_and_grasp");
         ("object", VStr "ball")].

Definition command_dance : Value :=
  VDict [("type", VStr "command"); ("action", VStr "dance")].

Definition ping : Value := VDict [("type", VStr "ping")].

Definition sample_values : list Value :=
  [chat_hello; command_start_stream; command_stop_stream; command_search_ball;
   command_dance; ping; VList []].

(** A text of more than 4300 decimal digits: the decoder gives up on the
    integer with [ValueError]. *)
Definition is_digit (c : ascii) : bool :=
  (48 <=? N_of_ascii c)%N && (N_of_ascii c <=? 57)%N.

Fixpoint all_digits (s : string) : bool :=
  match s with
  | EmptyString => true
  | String c s' => is_digit c && all_digits s'
  end.

Definition too_many_digits (msg : string) : bool :=
  all_digits msg && (4300 <? N.of_nat (String.length msg))%N.

(** Five thousand times the digit 1. *)
Definition many_digits : string := N.iter 5000 (String "1") "".

(** [json.loads] on the sample texts; an integer of too many digits
    raises [ValueError]; any other text is taken not to be JSON. *)
Definition sample_json_loads (msg : string) : result Value :=
  if too_many_digits msg then Raise (OtherException "ValueError")
  else
    match find (λ v, String.eqb (json_text v) msg) sample_values with
    | Some v => Ok v
    | None => Raise (JSONDecodeError "Expecting value")
    end.

#[local] Instance sample_external : External := {|
  float_repr := λ _, "0.0";
  json_loads := sample_json_loads;
  np_sin := λ x, x;
  cv2 := false;
  cv2_imread := λ _, None;
  pil_open_rgb := λ _, Raise (OtherException "FileNotFoundError");
  cv2_VideoCapture := λ _, Raise (OtherException "cv2 is not installed");
  jpeg_thumbnail_b64 := λ _, "";
  SO100Follower := unit;
  follower_new := λ _, tt;
  follower_is_connected := λ _, false;
  follower_connect := λ f, (Raise (OtherException "ConnectionError"), f);
  follower_get_observation := λ f, (Raise (OtherException "DeviceNotConnectedError"), f);
  follower_cameras := λ _, ["wrist"];
  follower_motors := λ _, [];
  follower_send_action := λ _ f, (Raise (OtherException "DeviceNotConnectedError"), f);
|}.

Definition sample_cfg (mock : bool) : SO100DemoConfig :=
  {| port := "/dev/ttyUSB0"; camera_index := 0; demo_fps := 15; use_mock := mock;
     mock_video_path := None; mock_static_image_path := None;
     search_policy_path := None; grasp_policy_path := None |}.

Definition sample_llm_cfg : LLMConfig :=
  {| provider := "gemini"; model_name := "gemini-1.5-flash";
     api_key_env := "GEMINI_API_KEY" |}.

(** The mock server at start-up, and the same once its robot is connected. *)
Definition mock_idle : Globals := initial_globals (sample_cfg true) sample_llm_cfg.

Definition mock_connected : Globals := (robot_connect mock_idle).2.

(** A connected mock robot whose joint dictionary is at address 0. *)
Definition sample_robot : Mock.MockRobotInterface :=
  {| Mock.cfg := sample_cfg true; Mock.joints := 0%nat; Mock._static_image := None;
     Mock._video_cap := None; Mock._frame_index := 0; Mock._connected := true |}.

(** The robot's own dictionary at address 0, a target map at address 1. *)
Definition sample_store : Store :=
  [[("joint_0", 0%float); ("joint_1", 0%float); ("joint_2", 0%float)];
   [("joint_1", 1.5%float); ("gripper", 0.5%float)]].

(** The mock server with the client 0 connected. *)
Definition one_client : World :=
  {| globals := set_active_connections {[0%nat]} mock_idle;
     tasks := [];
     endpoints := {[0%nat]} |}.

(** The same client once its connection is broken. *)
Definition one_client_gone : World :=
  set_globals (set_closed {[0%nat]} (globals one_client)) one_client.

(** The server on the real arm, after a [start_stream] command: the flag is
    up and task 0 is about to run [camera_stream_loop]. *)
Definition real_started : World :=
  {| globals :=
       set_stream_task (Some 0%nat)
         (set_streaming true (initial_globals (sample_cfg false) sample_llm_cfg));
     tasks := [stream_task_new];
     endpoints := ∅ |}.

(** A whole run in mock mode with the robot connected: 36 awaits and the
    return. *)
Definition sample_states : list Globals := replicate 37 mock_connected.

Definition sample_run : list (option Awaitable) * TaskState :=
  resume_all (_mock_search_and_grasp "ball") sample_states.

(** A run in which the robot is not connected when the first search step
    fetches: two broadcasts, the error status, the return. *)
Definition failing_states : list Globals := [mock_connected; mock_connected].

Definition failing_run : list (option Awaitable) * TaskState :=
  resume_all (_mock_search_and_grasp "ball") (failing_states ++ mock_idle :: [mock_idle]).

(** The labels can be taken one after the other from [w]. *)
Definition runs (ls : list Label) (w : World) : bool :=
  match exec ls w with Some _ => true | None => false end.

(** A client connects and asks for the stream twice; the streaming task
    runs in between and after. *)
Definition stream_labels : list Label :=
  [Accept 0%nat;
   Receive 0%nat (json_text command_start_stream);
   Resume 0%nat;
   Receive 0%nat (json_text command_start_stream);
   Resume 0%nat].

(** A client asks for the behaviour, the task broadcasts once, the client
    asks again: the first task is cancelled and the second one runs. *)
Definition behavior_labels : list Label :=
  [Accept 0%nat;
   Receive 0%nat (json_text command_search_ball);
   Resume 0%nat;
   Receive 0%nat (json_text command_search_ball);
   Resume 0%nat;
   Resume 1%nat;
   Resume 1%nat].

(** ** More of the setting *)

(** A video of two frames, and a connected mock robot that plays it and
    has a static image as well. *)
Definition sample_video : VideoCapture :=
  {| vc_opened := true;
     vc_frames := [Decoded 0 480 640 3; Decoded 1 480 640 3];
     vc_pos := 0 |}.

Definition video_robot : Mock.MockRobotInterface :=
  {| Mock.cfg := sample_cfg true; Mock.joints := 0%nat;
     Mock._static_image := Some (Decoded 9 48 64 3);
     Mock._video_cap := Some sample_video; Mock._frame_index := 0;
     Mock._connected := true |}.

(** The sample robot sixty synthetic frames later. *)
Definition later_robot : Mock.MockRobotInterface :=
  Mock.set_frame_index 60 sample_robot.

(** A conversation: two user messages, then an answer. *)
Definition sample_conversation : list Message :=
  [[("role", VStr "user"); ("content", VStr "first")];
   [("role", VStr "user"); ("content", VStr "second")]].

Definition sample_answer : list Message :=
  [[("role", VStr "assistant"); ("content", VStr "ok")]].

(** An arm that answers: one camera, three motors, and an observation that
    holds the frame and the positions of two of the motors. *)
Definition arm_observation : list (string * ObsValue) :=
  [("wrist", ObsImage (Decoded 7 480 640 3));
   ("shoulder_pan.pos", ObsNumber 0.5);
   ("gripper.pos", ObsNumber 1)].

Definition arm_external : External := {|
  float_repr := λ _, "0.0";
  json_loads := sample_json_loads;
  np_sin := λ x, x;
  cv2 := false;
  cv2_imread := λ _, None;
  pil_open_rgb := λ _, Raise (OtherException "FileNotFoundError");
  cv2_VideoCapture := λ _, Raise (OtherException "cv2 is not installed");
  jpeg_thumbnail_b64 := λ _, "";
  SO100Follower := unit;
  follower_new := λ _, tt;
  follower_is_connected := λ _, true;
  follower_connect := λ f, (Ok tt, f);
  follower_get_observation := λ f, (Ok arm_observation, f);
  follower_cameras := λ _, ["wrist"];
  follower_motors := λ _, ["shoulder_pan"; "elbow_flex"; "gripper"];
  follower_send_action := λ _ f, (Ok tt, f);
|}.

Definition arm_interface : @SO100.SO100RobotInterface arm_external :=
  @SO100.Build_SO100RobotInterface arm_external (to_robot_config (sample_cfg false)) (Some tt).

(** A client starts the stream, the task runs once, the client stops the
    stream and starts it again; the old task and the new one are resumed. *)
Definition restart_prefix : list Label :=
  [Accept 0%nat;
   Receive 0%nat (json_text command_start_stream);
   Resume 0%nat].

Definition restart_suffix : list Label :=
  [Receive 0%nat (json_text command_start_stream);
   Resume 0%nat;
   Resume 1%nat;
   Resume 1%nat].

Definition restart_labels : list Label :=
  restart_prefix ++ Receive 0%nat (json_text command_stop_stream) :: restart_suffix.

(** A client of a server on the real arm asks for the behaviour. *)
Definition real_labels : list Label :=
  [Accept 0%nat;
   Receive 0%nat (json_text command_search_ball);
   Receive 0%nat (json_text command_start_stream);
   Resume 0%nat].

(** The mock server with the flag up, before and after the robot is
    connected. *)
Definition streaming_idle : Globals := set_streaming true mock_idle.

Definition streaming_connected : Globals := set_streaming true mock_connected.

(** The mock server of a configuration whose frame rate is negative,
    streaming with its robot connected. *)
Definition negative_rate_cfg : SO100DemoConfig :=
  {| port := "/dev/ttyUSB0"; camera_index := 0; demo_fps := -15; use_mock := true;
     mock_video_path := None; mock_static_image_path := None;
     search_policy_path := None; grasp_policy_path := None |}.

Definition streaming_backwards : Globals :=
  set_streaming true (robot_connect (initial_globals negative_rate_cfg sample_llm_cfg)).2.

(** A streaming task at the head of its loop, and a robot that is not
    connected. *)
Definition stalled : World :=
  {| globals := set_stream_task (Some 0%nat) streaming_idle;
     tasks := [{| coro_name := "camera_stream_loop"; task_state := Suspended stream_head |}];
     endpoints := ∅ |}.

(** Policies: every path but [MISSING_GRASP_POLICY] holds one, and a policy
    asks for the gripper to close. *)
Definition sample_lerobot : Lerobot := {|
  PreTrainedPolicy := unit;
  Batch := unit;
  Array := float;
  ACTION := "action";
  OBS_STR := "observation";
  from_pretrained := λ path,
    if String.eqb path "MISSING_GRASP_POLICY"
    then Raise (OtherException "FileNotFoundError")
    else Ok tt;
  raw_batch := λ _, tt;
  policy_no_grad := λ _, Ok tt;
  select_action := λ _ policy, (Ok [("action.gripper.pos", 1%float)], policy);
  squeeze_float := Ok;
|}.

(** Two command lines of [run_demo.py]: with a search policy, and with no
    policy at all. *)
Definition search_args : RunDemo.Namespace :=
  {| RunDemo.object_name := "tennis ball";
     RunDemo.search_policy_path := Some "outputs/search";
     RunDemo.grasp_policy_path := Some "outputs/grasp";
     RunDemo.so100_port := None;
     RunDemo.arg_camera_index := None |}.

Definition bare_args : RunDemo.Namespace :=
  {| RunDemo.object_name := "tennis ball";
     RunDemo.search_policy_path := None;
     RunDemo.grasp_policy_path := None;
     RunDemo.so100_port := Some "/dev/ttyACM0";
     RunDemo.arg_camera_index := None |}.

(** An action of a policy: two positions and a value that is none. *)
Definition sample_action : Joints :=
  [("shoulder_pan.pos", 0.5%float); ("speed", 2%float); ("gripper.pos", 1%float)].

(** An orchestrator whose arm is connected. *)
Definition arm_orchestrator : @Orchestrator.SO100DemoOrchestrator arm_external sample_lerobot :=
  @Orchestrator.set_robot arm_external sample_lerobot arm_interface []
    (@RunDemo.make_orchestrator arm_external sample_lerobot (sample_cfg false) search_args []).

(** * Properties *)

(** ** Dictionaries *)

Section DictFacts.

Context {V : Type}.

Implicit Types d other : list (string * V).

Lemma dict_get_set_eq k v d : dict_get k (dict_set k v d) = Some v.
Proof.
  induction d as [|[k' v'] d IH]; simpl.
  - by rewrite String.eqb_refl.
  - destruct (String.eqb k k') eqn:E; simpl; rewrite E; [done|apply IH].
Qed.

Lemma dict_get_set_ne k k' v d :
  k ≠ k' → dict_get k (dict_set k' v d) = dict_get k d.
Proof.
  intros Hne. induction d as [|[k0 v0] d IH]; simpl.
  - destruct (String.eqb k k') eqn:E; [|done].
    apply String.eqb_eq in E. done.
  - destruct (String.eqb k' k0) eqn:E; simpl.
    + apply String.eqb_eq in E. subst k0.
      destruct (String.eqb k k') eqn:E'; [|done].
      apply String.eqb_eq in E'. done.
    + by rewrite IH.
Qed.

Lemma dict_get_None k d : dict_get k d = None ↔ k ∉ dict_keys d.
Proof.
  induction d as [|[k' v'] d IH]; simpl.
  - split; [intros _; apply not_elem_of_nil|done].
  - rewrite not_elem_of_cons. destruct (String.eqb k k') eqn:E.
    + apply String.eqb_eq in E. split; [done|intros [? _]; done].
    + apply String.eqb_neq in E. rewrite IH. unfold dict_keys. tauto.
Qed.

Lemma dict_get_Some_head k v d :
  dict_get k ((k, v) :: d) = Some v.
Proof. simpl. by rewrite String.eqb_refl. Qed.

(** The merge law of [dict.update], for a well-formed [other] (a Python
    dictionary holds a key once). *)
Lemma dict_get_update k d other :
  NoDup (dict_keys other) →
  dict_get k (dict_update d other) =
    match dict_get k other with
    | Some v => Some v
    | None => dict_get k d
    end.
Proof.
  unfold dict_update. revert d.
  induction other as [|[k' v'] other IH]; intros d Hnd; simpl; [done|].
  apply NoDup_cons in Hnd as [Hnotin Hnd]. simpl in Hnotin.
  rewrite IH by done.
  destruct (String.eqb k k') eqn:E.
  - apply String.eqb_eq in E. subst k'.
    apply dict_get_None in Hnotin. rewrite Hnotin.
    apply dict_get_set_eq.
  - apply String.eqb_neq in E.
    destruct (dict_get k other); [done|].
    by apply dict_get_set_ne.
Qed.

End DictFacts.

(** ** The store *)

Lemma deref_alloc_old (d : Joints) (h : Store) (l : loc) :
  (l < length h)%nat → deref (alloc d h).2 l = deref h l.
Proof. intros Hl. unfold deref, alloc. simpl. by rewrite lookup_app_l. Qed.

Lemma deref_alloc_new (d : Joints) (h : Store) :
  deref (alloc d h).2 (alloc d h).1 = d.
Proof.
  unfold deref, alloc. simpl.
  rewrite lookup_app_r by done. by rewrite Nat.sub_diag.
Qed.

Lemma deref_insert_eq (h : Store) (l : loc) (d : Joints) :
  (l < length h)%nat → deref (<[l := d]> h) l = d.
Proof. intros Hl. unfold deref. by rewrite list_lookup_insert_eq. Qed.

Lemma deref_insert_ne (h : Store) (l l' : loc) (d : Joints) :
  l ≠ l' → deref (<[l := d]> h) l' = deref h l'.
Proof. intros Hne. unfold deref. by rewrite list_lookup_insert_ne. Qed.

(** ** The mock robot *)

Section MockFacts.

Context `{External}.

Lemma mock_get_frame_joints self :
  Mock.joints (Mock._get_frame self).2 = Mock.joints self
  ∧ Mock._connected (Mock._get_frame self).2 = Mock._connected self.
Proof.
  unfold Mock._get_frame, Mock._get_frame_fallback, Mock._generate_synthetic_scene.
  destruct (Mock._video_cap self) as [cap|].
  - destruct (vc_read cap) as [[f|] cap'].
    + done.
    + destruct (vc_read (vc_rewind cap')) as [[f|] cap'']; [done|].
      simpl. by destruct (Mock._static_image self).
  - by destruct (Mock._static_image self).
Qed.

(** C9: [send_joint_targets] is a merge. After the call the robot's joint
    dictionary maps every name of the target map to the target's value and
    every other name to what it held before; no other dictionary object
    changes. *)
Theorem send_joint_targets_merges
    (self : Mock.MockRobotInterface) (h : Store) (joint_targets : loc) :
  (Mock.joints self < length h)%nat →
  NoDup (dict_keys (deref h joint_targets)) →
  let h' := Mock.send_joint_targets joint_targets self h in
  (∀ name,
      dict_get name (deref h' (Mock.joints self)) =
        match dict_get name (deref h joint_targets) with
        | Some v => Some v
        | None => dict_get name (deref h (Mock.joints self))
        end)
  ∧ (∀ l, l ≠ Mock.joints self → deref h' l = deref h l)
  ∧ length h' = length h.
Proof.
  intros Hvalid Hnd h'. subst h'. unfold Mock.send_joint_targets.
  split; [|split].
  - intros name. rewrite deref_insert_eq by done. by apply dict_get_update.
  - intros l Hl. by rewrite deref_insert_ne.
  - apply length_insert.
Qed.

(** C10: [get_observation] raises [RuntimeError] exactly when the robot is
    not connected. When connected it returns a frame and the address of a
    new dictionary that holds the stored joint map; the stored dictionary
    and every other existing one are left as they were, and writing to the
    returned dictionary does not reach the stored one. *)
Theorem get_observation_connected_copy (self : Mock.MockRobotInterface) (h : Store) :
  (Mock.joints self < length h)%nat →
  let '(res, self', h') := Mock.get_observation self h in
  ((∃ msg, res = Raise (RuntimeError msg)) ↔ Mock._connected self = false)
  ∧ (Mock._connected self = true →
     ∃ frame l,
       res = Ok (frame, l)
       ∧ l ≠ Mock.joints self
       ∧ h !! l = None
       ∧ deref h' l = deref h (Mock.joints self)
       ∧ Mock.joints self' = Mock.joints self
       ∧ (∀ l0, (l0 < length h)%nat → h' !! l0 = h !! l0)
       ∧ (∀ d, deref (<[l := d]> h') (Mock.joints self') = deref h (Mock.joints self))).
Proof.
  intros Hvalid. unfold Mock.get_observation.
  destruct (Mock._connected self) eqn:Hc; simpl.
  - pose proof (mock_get_frame_joints self) as [Hj _].
    destruct (Mock._get_frame self) as [frame self'] eqn:Hf. simpl in Hj.
    rewrite Hj. split.
    + split; [intros [msg Hmsg]; done|done].
    + intros _. exists frame, (length h). split; [done|].
      split; [lia|]. split; [by apply lookup_ge_None_2|].
      split; [|split; [done|split]].
      * unfold deref at 1. rewrite lookup_app_r by done.
        by rewrite Nat.sub_diag.
      * intros l0 Hl0. by apply lookup_app_l.
      * intros d. rewrite deref_insert_ne by lia.
        unfold deref. by rewrite lookup_app_l.
  - split; [|done]. split; [done|]. intros _. eauto.
Qed.

End MockFacts.

(** ** The connection manager *)

Section ManagerFacts.

Context `{Ext : External}.

Implicit Types g : Globals.

Lemma same_control_refl g : same_control g g.
Proof. by repeat split. Qed.

Lemma same_control_trans g1 g2 g3 :
  same_control g1 g2 → same_control g2 g3 → same_control g1 g3.
Proof.
  unfold same_control. intros (?&?&?&?&?&?&?&?) (?&?&?&?&?&?&?&?).
  repeat split; congruence.
Qed.

Lemma broadcast_sends_spec message conns disconnect g :
  broadcast_sends message conns disconnect g =
    (Ok (disconnect ∪ list_to_set (filter (λ ws, ws ∈ closed g) conns)),
     set_delivered
       (delivered g ++ map (λ ws, (ws, message)) (filter (λ ws, ws ∉ closed g) conns))
       g).
Proof.
  revert disconnect g. induction conns as [|ws conns IH]; intros disconnect g.
  - simpl. rewrite app_nil_r. unfold mret, M_ret.
    f_equal; [f_equal; set_solver|by destruct g].
  - cbn [broadcast_sends]. unfold mbind at 1, M_bind.
    unfold try_except, send_json.
    unfold mbind at 1, M_bind.
    rewrite !filter_cons.
    destruct (decide (ws ∈ closed g)) as [Hin|Hout].
    + rewrite decide_False by (intros Hn; done). simpl.
      rewrite IH. f_equal. f_equal. set_solver.
    + rewrite decide_True by done. simpl.
      rewrite IH. simpl. f_equal.
      destruct g; unfold set_delivered; simpl. f_equal.
      by rewrite <- app_assoc.
Qed.

Lemma discard_all_spec conns g :
  discard_all conns g =
    (Ok tt, set_active_connections (active_connections g ∖ list_to_set conns) g).
Proof.
  revert g. induction conns as [|ws conns IH]; intros g.
  - simpl. unfold mret, M_ret. f_equal.
    destruct g; unfold set_active_connections; simpl. f_equal. set_solver.
  - cbn [discard_all]. unfold mbind, M_bind, modify. rewrite IH. f_equal.
    destruct g; unfold set_active_connections; simpl. f_equal. set_solver.
Qed.

Lemma broadcast_json_spec message g :
  broadcast_json message g =
    (Ok tt,
     set_active_connections (active_connections g ∖ closed g)
       (set_delivered
          (delivered g ++ map (λ ws, (ws, message))
             (filter (λ ws, ws ∉ closed g) (elements (active_connections g))))
          g)).
Proof.
  unfold broadcast_json, mbind, M_bind, gets.
  rewrite broadcast_sends_spec, discard_all_spec. f_equal.
  destruct g; unfold set_active_connections, set_delivered; simpl. f_equal.
  apply set_eq. intros ws.
  rewrite !elem_of_difference, elem_of_list_to_set, elem_of_elements.
  rewrite elem_of_union, elem_of_list_to_set, list_elem_of_filter, elem_of_elements.
  rewrite elem_of_empty. tauto.
Qed.

(** C1: a broadcast is best effort. The call returns without raising;
    the message is appended to the deliveries once for each active
    connection whose send does not raise and for nobody else; afterwards the
    active set is the old one without the connections whose send raised. *)
Theorem broadcast_json_best_effort (message : Message) (g : Globals) :
  ∃ g' sends,
    broadcast_json message g = (Ok tt, g')
    ∧ delivered g' = delivered g ++ sends
    ∧ sends ≡ₚ map (λ ws, (ws, message)) (elements (active_connections g ∖ closed g))
    ∧ NoDup sends
    ∧ active_connections g' = active_connections g ∖ closed g
    ∧ same_control g g'.
Proof.
  eexists _, _. split; [apply broadcast_json_spec|].
  assert (filter (λ ws, ws ∉ closed g) (elements (active_connections g))
            ≡ₚ elements (active_connections g ∖ closed g)) as Hperm.
  { apply NoDup_Permutation.
    - apply NoDup_filter, NoDup_elements.
    - apply NoDup_elements.
    - intros ws. rewrite list_elem_of_filter, !elem_of_elements. set_solver. }
  split; [done|]. split; [by rewrite Hperm|]. split.
  - apply NoDup_fmap_2; [intros ws1 ws2; congruence|].
    apply NoDup_filter, NoDup_elements.
  - split; [done|]. by repeat split.
Qed.

End ManagerFacts.

(** ** The endpoint *)

Section EndpointFacts.

Context `{Ext : External}.

Implicit Types (g : Globals) (w : World).

Lemma on_globals_send_json_open ws message w :
  ws ∉ closed (globals w) →
  on_globals (send_json ws message) w = (Ok tt, with_delivery ws message w).
Proof.
  intros Hopen. unfold on_globals, send_json. by rewrite decide_False.
Qed.

Lemma on_globals_send_json_closed ws message w :
  ws ∈ closed (globals w) →
  on_globals (send_json ws message) w
    = (Raise (RuntimeError "connection closed"), set_globals (globals w) w).
Proof.
  intros Hclosed. unfold on_globals, send_json. by rewrite decide_True.
Qed.

Lemma set_globals_id w : set_globals (globals w) w = w.
Proof. by destruct w. Qed.

(** C8: a chat message is answered by the stub echo, whatever engine is
    configured. All the endpoint does with the message is send the sender
    one chat event whose text is ["[STUB LLM] I received: "] followed by
    [repr] of the text; on a connection that takes the send, the event is
    delivered and nothing else changes. For the text ["hello"] the reply
    reads ["[STUB LLM] I received: 'hello'. ..."]. *)
Theorem chat_answered_by_stub_echo
    (w : World) (websocket : WebSocket) (msg : string) (data : list (string * Value)) :
  json_loads msg = Ok (VDict data) →
  dict_get "type" data = Some (VStr "chat") →
  let t := py_str float_repr (dict_get_default "text" (VStr "") data) in
  let reply := [("type", VStr "chat"); ("text", VStr (stub_echo t))] in
  handle_text websocket msg w = on_globals (send_json websocket reply) w
  ∧ (websocket ∉ closed (globals w) →
     endpoint_receive websocket msg w = with_delivery websocket reply w)
  ∧ (∃ rest, stub_echo t = "[STUB LLM] I received: " +:+ repr_str t +:+ rest)
  ∧ (dict_get "text" data = Some (VStr "hello") →
     ∃ rest, stub_echo t = "[STUB LLM] I received: 'hello'." +:+ rest).
Proof.
  intros Hjson Htype t reply.
  assert (handle_text websocket msg w = on_globals (send_json websocket reply) w)
    as Hsend.
  { unfold handle_text. rewrite Hjson.
    unfold data_get at 1. unfold mbind at 1, M_bind, mret, M_ret.
    unfold dict_get_default at 1. rewrite Htype.
    change (value_is_str (VStr "chat") "chat") with true. cbv iota.
    unfold handle_chat, data_get. unfold mbind at 1, M_bind, mret, M_ret.
    fold t. unfold try_except, gets, mbind, M_bind.
    destruct (llm_engine (globals w)) eqn:Hengine; simpl chat; cbv beta iota;
      try reflexivity.
    fold reply. unfold on_globals, send_json.
    by destruct (decide (websocket ∈ closed (globals w))). }
  split; [done|]. split; [|split].
  - intros Hopen. unfold endpoint_receive. rewrite Hsend.
    by rewrite on_globals_send_json_open.
  - eexists. reflexivity.
  - intros Htext. subst t. unfold dict_get_default. rewrite Htext. simpl.
    eexists. reflexivity.
Qed.

End EndpointFacts.

(** ** The coroutines, one resumption at a time *)

Section ResumeFacts.

Context `{Ext : External}.

Implicit Types (g : Globals) (K : Coro Globals).

Lemma perform_ok a g : (perform a g).1 = Ok tt.
Proof. destruct a as [message|seconds]; simpl; [by rewrite broadcast_json_spec|done]. Qed.

Lemma resume_code_Await a K g :
  resume_code (Await a K) g = (Suspended K, (perform a g).2, Some a).
Proof.
  unfold resume_code, run_to_await. simpl.
  pose proof (perform_ok a g) as Hok.
  destruct (perform a g) as [r g']. simpl in *. by subst r.
Qed.

Lemma resume_code_end g :
  resume_code (Pass : Coro Globals) g = (Done Returned, g, None)
  ∧ resume_code (Return : Coro Globals) g = (Done Returned, g, None).
Proof. done. Qed.

Lemma resume_all_Await a K g gs :
  resume_all (Await a K) (g :: gs) =
    let '(tr, st) := resume_all K gs in (Some a :: tr, st).
Proof. simpl. by rewrite resume_code_Await. Qed.

(** A search step whose fetch raises: the error status, then [return]. *)
Lemma resume_search_step_raises step X K g :
  fetch_ok g = false →
  resume_code (then_ (then_ (search_step step) X) K) g
    = (Suspended Return,
       (perform (broadcast_json_call error_status) (robot_get_observation g).2).2,
       Some (broadcast_json_call error_status)).
Proof.
  unfold fetch_ok. intros Hfail.
  unfold resume_code, run_to_await, search_step. simpl.
  destruct (robot_get_observation g) as [[[frame joints]|e] g1]; [done|]. simpl.
  fold error_status.
  pose proof (perform_ok (broadcast_json_call error_status) g1) as Hok.
  simpl in Hok. destruct (broadcast_json error_status g1) as [r g2].
  simpl in *. by subst r.
Qed.

(** A search step whose fetch returns: the narration of the step, with the
    sleep next; or the task dies of an exception of [send_joint_targets]. *)
Lemma resume_search_step_returns step X K g :
  fetch_ok g = true →
  (∃ g', resume_code (then_ (then_ (search_step step) X) K) g
         = (Suspended (Await (sleep_call 0.2) (then_ X K)), g',
            Some (broadcast_json_call (reasoning (search_thought step)))))
  ∨ (∃ e g', resume_code (then_ (then_ (search_step step) X) K) g
             = (Done (Raised e), g', None)).
Proof.
  unfold fetch_ok. intros Hok.
  unfold resume_code, run_to_await, search_step. simpl.
  destruct (robot_get_observation g) as [[[frame joints]|e] g1]; [|done]. simpl.
  destruct (robot_send_joint_targets _ _) as [[[]|e] g2]; simpl.
  - left. fold (search_thought step).
    pose proof (perform_ok (broadcast_json_call (reasoning (search_thought step))) g2) as Hp.
    simpl in Hp. destruct (broadcast_json _ g2) as [r g3]. simpl in *. subst r.
    by eexists.
  - right. by eexists _, _.
Qed.

(** On the mock robot a search step whose fetch returns goes on to its
    narration: [send_joint_targets] of the mock does not raise. *)
Lemma resume_search_step_mock step X K g :
  fetch_ok g = true → _is_mock_robot g = true →
  ∃ g', resume_code (then_ (then_ (search_step step) X) K) g
        = (Suspended (Await (sleep_call 0.2) (then_ X K)), g',
           Some (broadcast_json_call (reasoning (search_thought step)))).
Proof.
  unfold fetch_ok, _is_mock_robot. intros Hok Hmock.
  unfold resume_code, run_to_await, search_step. simpl.
  unfold robot_get_observation in *.
  destruct (robot_interface g) as [r|r] eqn:Hr; [|done].
  destruct (Mock.get_observation r (store g)) as [[[[frame joints]|e] r'] h]; [|done].
  simpl. fold (search_thought step).
  set (g3 := set_robot _ _ _).
  pose proof (perform_ok (broadcast_json_call (reasoning (search_thought step))) g3) as Hp.
  simpl in Hp. destruct (broadcast_json _ g3) as [res g4]. simpl in *. subst res.
  by eexists.
Qed.

(** *** Runs through the two loops *)

Lemma resume_all_cons K g gs :
  resume_all K (g :: gs) =
    match resume_code K g with
    | (Suspended k, _, a) => let '(tr, st) := resume_all k gs in (a :: tr, st)
    | (st, _, a) => ([a], st)
    end.
Proof. done. Qed.

(** On the mock robot, a run resumed often enough goes through every step
    of the search loop, if the fetches of the loop return. *)
Lemma resume_all_search_runs n : ∀ s K gs,
  (∀ i g, (i < n)%nat → gs !! (2 * i)%nat = Some g →
          fetch_ok g = true ∧ _is_mock_robot g = true) →
  (2 * n ≤ length gs)%nat →
  resume_all (then_ (for_each (seq s n) search_step) K) gs
  = ((search_trace (seq s n) ++ (resume_all K (drop (2 * n) gs)).1),
     (resume_all K (drop (2 * n) gs)).2).
Proof.
  induction n as [|n IH]; intros s K gs Hfetch Hlen.
  - simpl. rewrite drop_0. by destruct (resume_all K gs).
  - destruct gs as [|g0 [|g1 gs]]; [simpl in Hlen; lia ..|].
    cbn [seq for_each]. rewrite resume_all_cons.
    destruct (Hfetch 0%nat g0) as [Hok Hmock]; [lia|done|].
    destruct (resume_search_step_mock s (for_each (seq (S s) n) search_step) K g0
                Hok Hmock) as [g' ->].
    cbv beta iota. rewrite resume_all_Await, IH.
    + replace (2 * S n)%nat with (S (S (2 * n))) by lia. done.
    + intros i g Hi Hg. apply (Hfetch (S i)); [lia|].
      replace (2 * S i)%nat with (S (S (2 * i))) by lia. done.
    + simpl in Hlen. lia.
Qed.

(** A run resumed often enough goes through every step of the grasp
    loop. *)
Lemma resume_all_grasp_runs steps : ∀ K gs,
  (2 * length steps ≤ length gs)%nat →
  resume_all (then_ (for_each steps grasp_step) K) gs
  = ((grasp_trace steps ++ (resume_all K (drop (2 * length steps) gs)).1),
     (resume_all K (drop (2 * length steps) gs)).2).
Proof.
  induction steps as [|step steps IH]; intros K gs Hlen.
  - simpl. rewrite drop_0. by destruct (resume_all K gs).
  - destruct gs as [|g0 [|g1 gs]]; [simpl in Hlen; lia ..|].
    cbn [for_each]. unfold grasp_step at 1. unfold await. cbn [then_].
    fold (grasp_thought step).
    rewrite !resume_all_Await, IH by (simpl in Hlen; lia).
    replace (2 * length (step :: steps))%nat with (S (S (2 * length steps)))
      by (simpl; lia).
    done.
Qed.

Lemma resume_all_nil_not_done K tr o :
  resume_all K [] = (tr, Done o) → False.
Proof. done. Qed.

(** A run that returns went through every step of the search loop, if the
    fetches of the loop returned. *)
Lemma resume_all_search_returns n : ∀ s K gs tr,
  (∀ i g, (i < n)%nat → gs !! (2 * i)%nat = Some g → fetch_ok g = true) →
  resume_all (then_ (for_each (seq s n) search_step) K) gs = (tr, Done Returned) →
  ∃ tr', tr = search_trace (seq s n) ++ tr'
         ∧ resume_all K (drop (2 * n) gs) = (tr', Done Returned).
Proof.
  induction n as [|n IH]; intros s K gs tr Hfetch Hrun.
  - exists tr. by rewrite drop_0.
  - destruct gs as [|g0 gs]; [done|].
    cbn [seq for_each] in Hrun. rewrite resume_all_cons in Hrun.
    destruct (resume_search_step_returns s (for_each (seq (S s) n) search_step) K g0)
      as [[g' Hstep]|(e & g' & Hstep)].
    { apply (Hfetch 0%nat); [lia|done]. }
    + rewrite Hstep in Hrun. cbv beta iota in Hrun.
      destruct gs as [|g1 gs]; [done|].
      rewrite resume_all_Await in Hrun.
      destruct (resume_all _ gs) as [tr1 st1] eqn:Hrest.
      destruct (IH (S s) K gs tr1) as (tr' & -> & Hdrop).
      * intros i g Hi Hg. apply (Hfetch (S i)); [lia|].
        replace (2 * S i)%nat with (S (S (2 * i))) by lia. done.
      * congruence.
      * exists tr'. split; [by inversion Hrun|].
        replace (2 * S n)%nat with (S (S (2 * n))) by lia. done.
    + rewrite Hstep in Hrun. done.
Qed.

(** A run that returns went through every step of the grasp loop. *)
Lemma resume_all_grasp_returns steps : ∀ K gs tr,
  resume_all (then_ (for_each steps grasp_step) K) gs = (tr, Done Returned) →
  ∃ tr', tr = grasp_trace steps ++ tr'
         ∧ resume_all K (drop (2 * length steps) gs) = (tr', Done Returned).
Proof.
  induction steps as [|step steps IH]; intros K gs tr Hrun.
  - exists tr. by rewrite drop_0.
  - cbn [for_each] in Hrun. unfold grasp_step at 1 in Hrun.
    unfold await in Hrun. cbn [then_] in Hrun. fold (grasp_thought step) in Hrun.
    destruct gs as [|g0 gs]; [done|]. rewrite resume_all_Await in Hrun.
    destruct gs as [|g1 gs]; [done|]. rewrite resume_all_Await in Hrun.
    destruct (resume_all _ gs) as [tr1 st1] eqn:Hrest.
    destruct (IH K gs tr1) as (tr' & -> & Hdrop); [congruence|].
    exists tr'. split; [by inversion Hrun|].
    replace (2 * length (step :: steps))%nat with (S (S (2 * length steps)))
      by (simpl; lia).
    done.
Qed.

(** A run that got to a search step whose fetch raises. *)
Lemma resume_all_search_raises j : ∀ n s K gs1 g gs2 tr st,
  (j < n)%nat →
  length gs1 = (2 * j)%nat →
  fetch_ok g = false →
  resume_all (then_ (for_each (seq s n) search_step) K) (gs1 ++ g :: gs2) = (tr, st) →
  (length gs1 < length tr)%nat →
  tr = search_trace (seq s j)
         ++ Some (broadcast_json_call error_status)
         :: match gs2 with [] => [] | _ => [None] end
  ∧ st = match gs2 with [] => Suspended Return | _ => Done Returned end.
Proof.
  induction j as [|j IH]; intros n s K gs1 g gs2 tr st Hj Hlen Hfail Hrun Hreached.
  - destruct gs1; [|done]. destruct n as [|n]; [lia|].
    cbn [seq for_each app] in Hrun. rewrite resume_all_cons in Hrun.
    rewrite resume_search_step_raises in Hrun by done. cbv beta iota in Hrun.
    destruct gs2 as [|g' gs2]; simpl in Hrun; by inversion Hrun.
  - destruct gs1 as [|g0 [|g1 gs1]]; [done|simpl in Hlen; lia|].
    destruct n as [|n]; [lia|].
    cbn [seq for_each app] in Hrun. rewrite resume_all_cons in Hrun.
    destruct (fetch_ok g0) eqn:Hg0.
    + destruct (resume_search_step_returns s (for_each (seq (S s) n) search_step) K g0 Hg0)
        as [[g' Hstep]|(e & g' & Hstep)]; rewrite Hstep in Hrun; cbv beta iota in Hrun.
      * rewrite resume_all_Await in Hrun.
        destruct (resume_all _ (gs1 ++ g :: gs2)) as [tr1 st1] eqn:Hrest.
        inversion Hrun; subst tr st.
        destruct (IH n (S s) K gs1 g gs2 tr1 st1) as [-> ->]; try done.
        -- lia.
        -- simpl in Hlen. lia.
        -- simpl in Hreached. simpl. lia.
      * inversion Hrun; subst tr st. simpl in Hreached. lia.
    + rewrite resume_search_step_raises in Hrun by done. cbv beta iota in Hrun.
      simpl in Hrun. inversion Hrun; subst tr st. simpl in Hreached. lia.
Qed.

(** *** The scripted behaviour *)

(** C4: the script of [_mock_search_and_grasp]. On the mock robot, a run
    that is resumed at least 37 times and all of whose observation fetches
    return does return, at its 37th resumption, whatever the object name
    and whatever the other coroutines do to the state in between. A run
    that returns, all of whose fetches returned, broadcast: the status
    "searching", twelve reasoning events, the status "grasping", six
    reasoning events, the status "done", in this order and nothing else. *)
Theorem mock_search_and_grasp_script
    (object_name : string) (gs : list Globals) :
  (∀ step g, (step < 10)%nat → gs !! fetch_rank step = Some g → fetch_ok g = true) →
  (∀ tr, resume_all (_mock_search_and_grasp object_name) gs = (tr, Done Returned) →
         broadcasts tr
         = status "searching" :: search_narration object_name
             ++ status "grasping" :: grasp_narration object_name
             ++ [status "done"])
  ∧ ((∀ step g, (step < 10)%nat → gs !! fetch_rank step = Some g →
                _is_mock_robot g = true) →
     (37 ≤ length gs)%nat →
     ∃ tr, resume_all (_mock_search_and_grasp object_name) gs = (tr, Done Returned)
           ∧ length tr = 37%nat
           ∧ broadcasts tr
             = status "searching" :: search_narration object_name
                 ++ status "grasping" :: grasp_narration object_name
                 ++ [status "done"])
  ∧ is_status "searching" (status "searching") = true
  ∧ forallb is_reasoning (search_narration object_name) = true
  ∧ length (search_narration object_name) = 12%nat
  ∧ is_status "grasping" (status "grasping") = true
  ∧ forallb is_reasoning (grasp_narration object_name) = true
  ∧ length (grasp_narration object_name) = 6%nat
  ∧ is_status "done" (status "done") = true.
Proof.
  intros Hfetch. split; [|split; [|by repeat split]].
  - intros tr Hrun.
    unfold _mock_search_and_grasp, await in Hrun. cbn [then_] in Hrun.
    destruct gs as [|g0 gs]; [done|]. rewrite resume_all_Await in Hrun.
    destruct gs as [|g1 gs]; [done|]. rewrite resume_all_Await in Hrun.
    destruct (resume_all _ gs) as [tr1 st1] eqn:Hsearch.
    inversion Hrun; subst tr st1. clear Hrun.
    apply resume_all_search_returns in Hsearch as (tr2 & -> & Hrest).
    2:{ intros i g Hi Hg. apply (Hfetch i); [done|]. by unfold fetch_rank. }
    set (gs' := drop (2 * 10) gs) in Hrest.
    destruct gs' as [|g2 gs']; [done|]. rewrite resume_all_Await in Hrest.
    destruct gs' as [|g3 gs']; [done|]. rewrite resume_all_Await in Hrest.
    destruct (resume_all _ gs') as [tr3 st3] eqn:Hgrasp.
    inversion Hrest; subst tr2 st3. clear Hrest.
    apply resume_all_grasp_returns in Hgrasp as (tr4 & -> & Hrest).
    set (gs'' := drop _ gs') in Hrest.
    destruct gs'' as [|g4 gs'']; [done|]. rewrite resume_all_Await in Hrest.
    destruct gs'' as [|g5 gs'']; [done|]. rewrite resume_all_Await in Hrest.
    destruct gs'' as [|g6 gs'']; [done|]. rewrite resume_all_cons in Hrest.
    simpl in Hrest. inversion Hrest; subst tr4. clear Hrest.
    reflexivity.
  - intros Hmock Hlen.
    unfold _mock_search_and_grasp, await, range. cbn [then_].
    destruct gs as [|g0 [|g1 gs]]; [simpl in Hlen; lia ..|].
    rewrite !resume_all_Await, resume_all_search_runs.
    2:{ intros i g Hi Hg. split.
        - apply (Hfetch i); [done|]. by unfold fetch_rank.
        - apply (Hmock i); [done|]. by unfold fetch_rank. }
    2:{ simpl in Hlen. lia. }
    assert (15 ≤ length (drop (2 * 10) gs))%nat as Hlen'.
    { rewrite length_drop. simpl in Hlen. lia. }
    destruct (drop (2 * 10) gs) as [|g2 [|g3 gs']]; [simpl in Hlen'; lia ..|].
    rewrite !resume_all_Await, resume_all_grasp_runs by (simpl in *; lia).
    assert (3 ≤ length (drop (2 * length (seq 0 5)) gs'))%nat as Hlen''.
    { rewrite length_drop. simpl in *. lia. }
    destruct (drop (2 * length (seq 0 5)) gs') as [|g4 [|g5 [|g6 gs'']]];
      [simpl in Hlen''; lia ..|].
    rewrite !resume_all_Await, resume_all_cons. simpl.
    eexists. split; [reflexivity|]. split; reflexivity.
Qed.

(** C5: a run of [_mock_search_and_grasp] that gets to the fetch of a
    search step, and whose fetch raises there, broadcasts the status
    "error" and returns at its next resumption: what it broadcast is the
    status "searching", the narration up to that step, and the status
    "error" last; no status "grasping", and no reasoning event after the
    error. *)
Theorem mock_search_and_grasp_fetch_raises
    (object_name : string) (step : nat) (gs1 : list Globals) (g : Globals)
    (gs2 : list Globals) (tr : list (option Awaitable)) (st : TaskState) :
  (step < 10)%nat →
  length gs1 = fetch_rank step →
  fetch_ok g = false →
  resume_all (_mock_search_and_grasp object_name) (gs1 ++ g :: gs2) = (tr, st) →
  (length gs1 < length tr)%nat →
  broadcasts tr
    = status "searching" :: take (S step) (search_narration object_name) ++ [error_status]
  ∧ is_status "error" error_status = true
  ∧ Forall (λ m, is_status "grasping" m = false) (broadcasts tr)
  ∧ (∃ before, tr = before ++ Some (broadcast_json_call error_status)
                     :: match gs2 with [] => [] | _ => [None] end)
  ∧ st = match gs2 with [] => Suspended Return | _ => Done Returned end.
Proof.
  intros Hstep Hlen Hfail Hrun Hreached.
  unfold _mock_search_and_grasp, await in Hrun. cbn [then_] in Hrun.
  unfold fetch_rank in Hlen.
  destruct gs1 as [|g0 [|g1 gs1]]; [done|simpl in Hlen; lia|].
  cbn [app] in Hrun.
  rewrite resume_all_Await in Hrun. rewrite resume_all_Await in Hrun.
  destruct (resume_all _ (gs1 ++ g :: gs2)) as [tr1 st1] eqn:Hsearch.
  inversion Hrun; subst tr st1. clear Hrun.
  apply (resume_all_search_raises step) in Hsearch as [-> ->]; try done.
  2:{ simpl in Hlen. lia. }
  2:{ simpl in Hreached. lia. }
  assert (broadcasts
            (Some (broadcast_json_call (status "searching"))
             :: Some (broadcast_json_call
                        (reasoning ("Starting search for '" +:+ object_name
                                    +:+ "' using mock policy.")))
             :: search_trace (seq 0 step)
             ++ Some (broadcast_json_call error_status)
             :: match gs2 with [] => [] | _ => [None] end)
          = status "searching" :: take (S step) (search_narration object_name)
              ++ [error_status]) as Hb.
  { do 10 (destruct step as [|step]; [by destruct gs2|]). lia. }
  split; [done|]. split; [done|]. split.
  - rewrite Hb. clear -Hstep. unfold search_narration.
    do 10 (destruct step as [|step];
           [simpl; repeat (apply Forall_cons_2; [reflexivity|]); constructor|]).
    lia.
  - split; [|done]. eexists (_ :: _ :: _). reflexivity.
Qed.

End ResumeFacts.

(** ** The streaming loop and malformed messages *)

Section StreamAndErrors.

Context `{Ext : External}.

Implicit Types (g : Globals) (w : World).

(** A call on the robot touches the robot and the store only. *)
Lemma robot_connect_frame g :
  let g' := (robot_connect g).2 in
  delivered g' = delivered g
  ∧ active_connections g' = active_connections g
  ∧ closed g' = closed g
  ∧ streaming g' = streaming g
  ∧ stream_task g' = stream_task g
  ∧ behavior_task g' = behavior_task g.
Proof.
  unfold robot_connect. destruct (robot_interface g) as [r|r]; [done|].
  by destruct (SO100.connect r).
Qed.

(** C6: when connecting the frame source raises, the first resumption of
    the streaming task sets [streaming] to false and returns; nothing is
    broadcast, nothing is delivered to any client, and the task never runs
    again. *)
Theorem stream_loop_connect_failure
    (w : World) (tid : TaskId) (name : string) (e : Exn) :
  tasks w !! tid = Some {| coro_name := name; task_state := Suspended camera_stream_loop |} →
  (robot_connect (globals w)).1 = Raise e →
  ∃ w', step (Resume tid) w = Some (w', None)
        ∧ streaming (globals w') = false
        ∧ tasks w' !! tid = Some {| coro_name := name; task_state := Done Returned |}
        ∧ delivered (globals w') = delivered (globals w)
        ∧ active_connections (globals w') = active_connections (globals w)
        ∧ step (Resume tid) w' = None.
Proof.
  intros Htask Hraise.
  pose proof (robot_connect_frame (globals w)) as (Hd & Ha & _).
  unfold step. rewrite Htask.
  unfold resume_code, run_to_await, camera_stream_loop. cbn [run_sync].
  destruct (robot_connect (globals w)) as [r g1]. simpl in Hraise, Hd, Ha. subst r.
  simpl. eexists. split; [done|]. simpl.
  assert (tid < length (tasks w))%nat as Hlt by (by eapply lookup_lt_Some).
  rewrite list_lookup_insert_eq by done.
  repeat split; try done.
Qed.

Lemma unrecognized_handle_text websocket msg :
  unrecognized msg = true →
  ∃ text, handle_text websocket msg
          = on_globals (send_json websocket (error_event text)).
Proof.
  unfold unrecognized, handle_text.
  destruct (json_loads msg) as [[| | | | |l|data]|[]]; try done.
  - unfold data_get, mbind, M_bind, mret, M_ret.
    destruct (value_is_str _ "chat"); [done|].
    destruct (value_is_str _ "command") eqn:Hcommand.
    + unfold handle_command, data_get, mbind, M_bind, mret, M_ret.
      destruct (value_is_str _ "start_stream"); [done|].
      destruct (value_is_str _ "stop_stream"); [done|].
      destruct (value_is_str _ "search_and_grasp"); [done|].
      intros _. by eexists.
    + intros _. by eexists.
  - intros _. by eexists.
Qed.

(** A message that is JSON but not an object (a list, a number, a string,
    [null]) is outside the three cases above: [data.get] raises, no error event
    is sent, and the endpoint ends with the sender deregistered. *)
Lemma non_object_json_stops_endpoint (w : World) (websocket : WebSocket) (msg : string) v :
  json_loads msg = Ok v →
  (∀ data, v ≠ VDict data) →
  endpoint_receive websocket msg w = endpoint_stop websocket w
  ∧ delivered (globals (endpoint_receive websocket msg w)) = delivered (globals w)
  ∧ active_connections (globals (endpoint_receive websocket msg w))
    = active_connections (globals w) ∖ {[websocket]}.
Proof.
  intros Hjson Hv.
  assert (endpoint_receive websocket msg w = endpoint_stop websocket w) as ->.
  { unfold endpoint_receive, handle_text. rewrite Hjson.
    destruct v as [| | | | | |data]; try done. by destruct (Hv data). }
  done.
Qed.

(** A text on which [json.loads] raises another exception than
    [JSONDecodeError] ([RecursionError], [ValueError]) is outside the three
    cases as well: the [except json.JSONDecodeError] clause does not take
    the exception, no error event is sent, and the endpoint ends with the
    sender deregistered, whether its connection takes sends or not. *)
Lemma loads_exception_stops_endpoint (w : World) (websocket : WebSocket) (msg : string) e :
  json_loads msg = Raise e →
  (∀ text, e ≠ JSONDecodeError text) →
  unrecognized msg = false
  ∧ handle_text websocket msg w = (Raise e, w)
  ∧ endpoint_receive websocket msg w = endpoint_stop websocket w
  ∧ delivered (globals (endpoint_receive websocket msg w)) = delivered (globals w)
  ∧ active_connections (globals (endpoint_receive websocket msg w))
    = active_connections (globals w) ∖ {[websocket]}.
Proof.
  intros Hjson He.
  assert (handle_text websocket msg w = (Raise e, w)) as Hraise.
  { unfold handle_text. rewrite Hjson. destruct e; try done. by destruct (He msg0). }
  assert (endpoint_receive websocket msg w = endpoint_stop websocket w) as ->.
  { unfold endpoint_receive. by rewrite Hraise. }
  split; [|done].
  unfold unrecognized. rewrite Hjson. destruct e; try done. by destruct (He msg0).
Qed.

(** C7, as the code has it: all the endpoint does with an unrecognized
    message (a text on which [json.loads] raises [JSONDecodeError], an
    object of another type than chat and command, a command of another
    action than the three) is send one error event to the sender; it
    leaves the streaming flag, both task handles and every task as they
    were. The active set is unchanged too when the send goes through; when
    the send raises, the sender, and only the sender, is deregistered and
    its endpoint ends. *)
Theorem unrecognized_message_error_reply
    (w : World) (websocket : WebSocket) (msg : string) :
  unrecognized msg = true →
  let w' := endpoint_receive websocket msg w in
  (∃ text, handle_text websocket msg w
           = on_globals (send_json websocket (error_event text)) w)
  ∧ streaming (globals w') = streaming (globals w)
  ∧ stream_task (globals w') = stream_task (globals w)
  ∧ behavior_task (globals w') = behavior_task (globals w)
  ∧ tasks w' = tasks w
  ∧ (websocket ∉ closed (globals w) →
     ∃ text, w' = with_delivery websocket (error_event text) w)
  ∧ (websocket ∈ closed (globals w) →
     delivered (globals w') = delivered (globals w)
     ∧ active_connections (globals w')
       = active_connections (globals w) ∖ {[websocket]}
     ∧ endpoints w' = endpoints w ∖ {[websocket]}).
Proof.
  intros Hmsg w'. subst w'. unfold endpoint_receive.
  destruct (unrecognized_handle_text websocket msg Hmsg) as [text ->].
  split; [by exists text|].
  destruct (decide (websocket ∈ closed (globals w))) as [Hclosed|Hopen].
  - rewrite on_globals_send_json_closed by done. rewrite set_globals_id.
    repeat split; try done.
  - rewrite on_globals_send_json_open by done.
    repeat split; try done. intros _. by exists text.
Qed.

End StreamAndErrors.

(** ** Single flight *)

Section Tasks.

Context `{Ext : External}.

Implicit Types (g : Globals) (w : World) (t : Task).

Lemma same_ctl_refl g : same_ctl g g.
Proof. done. Qed.

Lemma same_ctl_trans g1 g2 g3 : same_ctl g1 g2 → same_ctl g2 g3 → same_ctl g1 g3.
Proof. unfold same_ctl. intros (?&?&?) (?&?&?). repeat split; congruence. Qed.

Lemma quiet_then (c1 c2 : Coro Globals) : quiet c1 → quiet c2 → quiet (then_ c1 c2).
Proof.
  induction c1 as [| | |A f k IH|aw k IH|cond body IHbody k IHk]; simpl; try done.
  - intros [Hf Hk] Hb. split; [done|]. intros r. by apply IH.
  - intros [Hbody Hk] Hb. split; [done|]. by apply IHk.
Qed.

Lemma quiet_for_each {A} (l : list A) (body : A → Coro Globals) :
  (∀ x, quiet (body x)) → quiet (for_each l body).
Proof. intros Hbody. induction l; simpl; [done|]. by apply quiet_then. Qed.

Lemma perform_ctl a g : same_ctl g (perform a g).2.
Proof.
  destruct a as [message|seconds]; simpl; [|done].
  by rewrite broadcast_json_spec.
Qed.

Lemma run_sync_quiet (c : Coro Globals) : ∀ g stop g',
  quiet c → run_sync c g = (stop, g') →
  same_ctl g g'
  ∧ match stop with
    | StopAwait _ k => quiet k
    | StopLoop _ body k => quiet body ∧ quiet k
    | StopEnd _ => True
    end.
Proof.
  induction c as [| | |A f k IH|a k IH|cond body IHbody k IHk];
    intros g stop g' Hq Hrun; simpl in Hrun; try (by inversion Hrun).
  destruct Hq as [Hf Hk]. specialize (Hf g).
  destruct (f g) as [r g1]. simpl in Hf.
  destruct (IH r g1 stop g' (Hk r) Hrun) as [Hctl Hstop].
  split; [by eapply same_ctl_trans|done].
Qed.

Lemma run_to_await_quiet (c : Coro Globals) g stop g' :
  quiet c → run_to_await c g = (stop, g') →
  same_ctl g g'
  ∧ match stop with
    | StopAwait _ k => quiet k
    | StopLoop _ body k => quiet body ∧ quiet k
    | StopEnd _ => True
    end.
Proof.
  intros Hq. unfold run_to_await.
  destruct (run_sync c g) as [stop1 g1] eqn:Hrun1.
  destruct (run_sync_quiet c g stop1 g1 Hq Hrun1) as [Hctl1 Hstop1].
  destruct stop1 as [a k|cond body k|o]; try (intros [= <- <-]; done).
  destruct Hstop1 as [Hbody Hk].
  destruct (cond g1).
  - intros Hrun2.
    eapply run_sync_quiet in Hrun2 as [Hctl2 Hstop2].
    + split; [by eapply same_ctl_trans|done].
    + apply quiet_then; [done|]. by split.
  - destruct (run_sync k g1) as [stop2 g2] eqn:Hrun2.
    destruct (run_sync_quiet k g1 stop2 g2 Hk Hrun2) as [Hctl2 Hstop2].
    intros Heq.
    assert ((stop, g') = (stop2, g2)) as [= -> ->] by (by destruct stop2).
    split; [by eapply same_ctl_trans|done].
Qed.

(** Resuming quiet code leaves the flag and the handles alone, and the code
    that remains is quiet. *)
Lemma resume_code_quiet (c : Coro Globals) g st g' a :
  quiet c → resume_code c g = (st, g', a) →
  same_ctl g g' ∧ ∀ k, st = Suspended k → quiet k.
Proof.
  intros Hq. unfold resume_code.
  destruct (run_to_await c g) as [stop g1] eqn:Hrun.
  destruct (run_to_await_quiet c g stop g1 Hq Hrun) as [Hctl Hstop].
  destruct stop as [aw k|cond body k|o].
  - pose proof (perform_ctl aw g1) as Hp. pose proof (perform_ok aw g1) as Hok.
    destruct (perform aw g1) as [r g2]. simpl in Hp, Hok. subst r.
    intros [= <- <- <-]. split; [by eapply same_ctl_trans|].
    by intros k' [= <-].
  - intros [= <- <- <-]. split; [done|]. by intros k' [= <-].
  - intros [= <- <- <-]. split; [done|]. by intros k'.
Qed.

End Tasks.

Section QuietCoroutines.

Context `{Ext : External}.

Implicit Types (g : Globals) (w : World) (t : Task).

Lemma robot_get_observation_ctl g : same_ctl g (robot_get_observation g).2.
Proof.
  unfold robot_get_observation. destruct (robot_interface g) as [r|r].
  - by destruct (Mock.get_observation r (store g)) as [[res r'] h].
  - by destruct (SO100.get_observation r (store g)) as [[res r'] h].
Qed.

Lemma robot_send_joint_targets_ctl l g : same_ctl g (robot_send_joint_targets l g).2.
Proof.
  unfold robot_send_joint_targets. destruct (robot_interface g) as [r|r]; [done|].
  by destruct (SO100.send_joint_targets l r (store g)) as [res r'].
Qed.

Lemma robot_connect_ctl g : same_ctl g (robot_connect g).2.
Proof. pose proof (robot_connect_frame g) as (_ & _ & _ & ? & ? & ?). done. Qed.

Lemma stream_period_ctl g : same_ctl g (stream_period g).2.
Proof. unfold stream_period. by destruct (float_of_int _). Qed.

Lemma quiet_call {A} (f : M Globals A) (k : A → Coro Globals) :
  (∀ g, same_ctl g (f g).2) → (∀ a, quiet (k a)) → quiet (call f k).
Proof. intros Hf Hk. split; [done|]. by intros [a|e]. Qed.

Lemma quiet_search_step step : quiet (search_step step).
Proof.
  split; [apply robot_get_observation_ctl|].
  intros [[frame joints]|e]; [|done].
  apply quiet_call; [done|]. intros joint_items.
  apply quiet_call; [done|]. intros new_joints.
  apply quiet_call; [apply robot_send_joint_targets_ctl|]. done.
Qed.

Lemma quiet_grasp_step step : quiet (grasp_step step).
Proof. done. Qed.

Lemma quiet_mock_search_and_grasp object_name :
  quiet (_mock_search_and_grasp object_name).
Proof.
  unfold _mock_search_and_grasp.
  repeat (apply quiet_then; [first [done|apply quiet_for_each;
    first [apply quiet_search_step|apply quiet_grasp_step]]|]).
  done.
Qed.

Lemma quiet_camera_stream_iteration : quiet camera_stream_iteration.
Proof.
  apply quiet_call; [apply robot_get_observation_ctl|]. intros [frame joints].
  apply quiet_call; [done|]. intros joint_items.
  apply quiet_then; [done|].
  apply quiet_call; [apply stream_period_ctl|]. done.
Qed.

Lemma resume_code_Sync {A} (f : M Globals A) (k : result A → Coro Globals) g :
  resume_code (Sync f k) g = resume_code (k (f g).1) (f g).2.
Proof. unfold resume_code, run_to_await. simpl. by destruct (f g). Qed.

(** The first resumption of [camera_stream_loop]: the handles stay; the
    flag stays too, unless connecting raised, and then it is false and the
    task has returned. *)
Lemma resume_code_camera_stream_loop g st g' a :
  resume_code camera_stream_loop g = (st, g', a) →
  stream_task g' = stream_task g
  ∧ behavior_task g' = behavior_task g
  ∧ (streaming g' = streaming g ∧ (∀ k, st = Suspended k → quiet k)
     ∨ streaming g' = false ∧ st = Done Returned).
Proof.
  unfold camera_stream_loop. rewrite resume_code_Sync.
  pose proof (robot_connect_ctl g) as (Hs & Hst & Hbt).
  destruct (robot_connect g) as [[[]|e] g1]; simpl in *.
  - intros Hres. apply resume_code_quiet in Hres as [(Hs' & Hst' & Hbt') Hk].
    + split; [congruence|]. split; [congruence|]. left. split; [congruence|done].
    + split; [apply quiet_camera_stream_iteration|done].
  - rewrite resume_code_Sync. simpl. intros [= <- <- <-]. simpl.
    split; [done|]. split; [done|]. by right.
Qed.

End QuietCoroutines.

Section HandlerEffects.

Context `{Ext : External}.

Implicit Types (g : Globals) (w : World) (t : Task).

Lemma endpoint_receive_finish websocket msg w :
  endpoint_receive websocket msg w = finish websocket (handle_text websocket msg w).
Proof. unfold endpoint_receive, finish. by destruct (handle_text websocket msg w) as [[]]. Qed.

Lemma finish_frame websocket r w1 :
  r.2 = w1 ∨ (∃ m, r = on_globals (send_json websocket m) w1) →
  tasks (finish websocket r) = tasks w1
  ∧ same_ctl (globals w1) (globals (finish websocket r)).
Proof.
  intros [Hr|[m ->]].
  - destruct r as [[[]|e] w']; simpl in *; by subst w'.
  - unfold on_globals, send_json.
    by destruct (decide (websocket ∈ closed (globals w1))).
Qed.

Lemma finish_send websocket m w1 :
  tasks (finish websocket (on_globals (send_json websocket m) w1)) = tasks w1
  ∧ same_ctl (globals w1)
      (globals (finish websocket (on_globals (send_json websocket m) w1))).
Proof. apply finish_frame. right. by eexists. Qed.

Lemma alter_cancel_done (ts : list Task) tid :
  (match ts !! tid with
   | Some {| task_state := Done _ |} => true
   | _ => false
   end) = true →
  alter cancel_state tid ts = ts.
Proof.
  intros Hdone. apply list_eq. intros i.
  destruct (decide (i = tid)) as [->|Hne].
  - rewrite list_lookup_alter_eq.
    destruct (ts !! tid) as [[name [code| |o]]|]; simpl in *; done.
  - by rewrite list_lookup_alter_ne.
Qed.

Lemma handle_chat_sends websocket data w :
  ∃ m, handle_chat websocket (VDict data) w = on_globals (send_json websocket m) w.
Proof.
  unfold handle_chat, data_get, try_except, gets, mbind, M_bind, mret, M_ret.
  destruct (llm_engine (globals w)); simpl chat; cbv beta iota.
  1-3: by eexists.
  eexists. unfold on_globals, send_json.
  by destruct (decide (websocket ∈ closed (globals w))).
Qed.

Lemma handle_start_stream_effect websocket w :
  ∃ m w1, handle_start_stream websocket w = on_globals (send_json websocket m) w1
    ∧ endpoints w1 = endpoints w
    ∧ (streaming (globals w) = true ∧ w1 = w
       ∨ streaming (globals w) = false
         ∧ tasks w1 = tasks w ++ [stream_task_new]
         ∧ streaming (globals w1) = true
         ∧ stream_task (globals w1) = Some (length (tasks w))
         ∧ behavior_task (globals w1) = behavior_task (globals w)).
Proof.
  unfold handle_start_stream, gets, mbind, M_bind, mret, M_ret.
  destruct (streaming (globals w)) eqn:Hs; simpl.
  - eexists _, w. split; [done|]. split; [done|]. by left.
  - eexists _, _. split; [reflexivity|]. split; [done|]. right. by repeat split.
Qed.

Lemma handle_stop_stream_effect websocket w :
  ∃ m w1, handle_stop_stream websocket w = on_globals (send_json websocket m) w1
    ∧ endpoints w1 = endpoints w
    ∧ tasks w1 = cancel_handle (stream_task (globals w)) (tasks w)
    ∧ streaming (globals w1) = false
    ∧ stream_task (globals w1) = None
    ∧ behavior_task (globals w1) = behavior_task (globals w).
Proof.
  unfold handle_stop_stream, gets, mbind, M_bind, mret, M_ret, task_cancel, modify.
  simpl. destruct (stream_task (globals w)) as [tid|] eqn:Hst; simpl.
  - eexists _, _. split; [reflexivity|]. by repeat split.
  - eexists _, _. split; [reflexivity|]. by repeat split.
Qed.

Lemma handle_search_and_grasp_effect websocket data w :
  ∃ m w1 object_name,
    handle_search_and_grasp websocket (VDict data) w
      = on_globals (send_json websocket m) w1
    ∧ endpoints w1 = endpoints w
    ∧ (_is_mock_robot (globals w) = true
       ∧ tasks w1 = cancel_handle (behavior_task (globals w)) (tasks w)
                    ++ [behavior_task_new object_name]
       ∧ behavior_task (globals w1) = Some (length (tasks w))
       ∧ streaming (globals w1) = streaming (globals w)
       ∧ stream_task (globals w1) = stream_task (globals w)
       ∨ _is_mock_robot (globals w) = false
         ∧ tasks w1 = cancel_handle (behavior_task (globals w)) (tasks w)
         ∧ same_ctl (globals w) (globals w1)).
Proof.
  unfold handle_search_and_grasp, data_get, gets, mbind, M_bind, mret, M_ret,
    task_done, task_cancel, modify, gets.
  simpl.
  destruct (behavior_task (globals w)) as [tid|] eqn:Hbt; simpl.
  - destruct (match tasks w !! tid with
              | Some {| task_state := Done _ |} => true
              | _ => false
              end) eqn:Hdone; simpl.
    + rewrite (alter_cancel_done _ _ Hdone).
      destruct (_is_mock_robot (globals w)) eqn:Hmock; simpl.
      * eexists _, _, _. split; [reflexivity|]. split; [done|]. left.
        by repeat split.
      * eexists _, _, "". split; [reflexivity|]. split; [done|]. right.
        by repeat split.
    + destruct (_is_mock_robot (globals w)) eqn:Hmock; simpl.
      * eexists _, _, _. split; [reflexivity|]. split; [done|]. left.
        repeat split; try done. simpl. by rewrite length_alter.
      * eexists _, _, "". split; [reflexivity|]. split; [done|]. right.
        by repeat split.
  - destruct (_is_mock_robot (globals w)) eqn:Hmock; simpl.
    + eexists _, _, _. split; [reflexivity|]. split; [done|]. left. by repeat split.
    + eexists _, _, "". split; [reflexivity|]. split; [done|]. right. by repeat split.
Qed.

End HandlerEffects.

Section Dispatch.

Context `{Ext : External}.

Implicit Types (g : Globals) (w : World) (t : Task).

Lemma value_is_str_eq v s : value_is_str v s = true → v = VStr s.
Proof.
  destruct v; simpl; try done. intros Heq. apply String.eqb_eq in Heq. by subst.
Qed.

Lemma is_command_handle_text action msg websocket :
  is_command action msg = true →
  ∃ data, json_loads msg = Ok (VDict data)
          ∧ dict_get_default "action" VNone data = VStr action
          ∧ handle_text websocket msg = handle_command websocket (VDict data).
Proof.
  unfold is_command, handle_text.
  destruct (json_loads msg) as [[| | | | | |data]|]; try done.
  intros [Htype Haction]%andb_prop. exists data.
  apply value_is_str_eq in Htype, Haction. split; [done|]. split; [done|].
  unfold data_get, mbind, M_bind, mret, M_ret. by rewrite Htype.
Qed.

Lemma handle_command_start websocket data :
  dict_get_default "action" VNone data = VStr "start_stream" →
  handle_command websocket (VDict data) = handle_start_stream websocket.
Proof.
  intros Ha. unfold handle_command, data_get, mbind, M_bind, mret, M_ret.
  by rewrite Ha.
Qed.

Lemma handle_command_stop websocket data :
  dict_get_default "action" VNone data = VStr "stop_stream" →
  handle_command websocket (VDict data) = handle_stop_stream websocket.
Proof.
  intros Ha. unfold handle_command, data_get, mbind, M_bind, mret, M_ret.
  by rewrite Ha.
Qed.

Lemma handle_command_search websocket data :
  dict_get_default "action" VNone data = VStr "search_and_grasp" →
  handle_command websocket (VDict data)
    = handle_search_and_grasp websocket (VDict data).
Proof.
  intros Ha. unfold handle_command, data_get, mbind, M_bind, mret, M_ret.
  by rewrite Ha.
Qed.

(** Every received message has one of the five effects. *)
Lemma effect_none_send msg websocket m w :
  Effect msg w (finish websocket (on_globals (send_json websocket m) w)).
Proof. destruct (finish_send websocket m w) as [Ht Hc]. by apply Effect_none. Qed.

Lemma effect_none_raise msg websocket e w :
  Effect msg w (finish websocket (Raise e, w)).
Proof.
  destruct (finish_frame websocket (Raise e, w) w) as [Ht Hc]; [by left|].
  by apply Effect_none.
Qed.

Lemma endpoint_receive_effect websocket msg w :
  Effect msg w (endpoint_receive websocket msg w).
Proof.
  rewrite endpoint_receive_finish.
  destruct (json_loads msg) as [data|e] eqn:Hjson.
  2:{ unfold handle_text. rewrite Hjson.
      destruct e; first [apply effect_none_send | apply effect_none_raise]. }
  destruct data as [| | | | | |data].
  1-6: unfold handle_text; rewrite Hjson; apply effect_none_raise.
  destruct (value_is_str (dict_get_default "type" VNone data) "chat") eqn:Hchat.
  { unfold handle_text. rewrite Hjson.
    unfold data_get at 1. unfold mbind at 1, M_bind, mret, M_ret. rewrite Hchat.
    destruct (handle_chat_sends websocket data w) as [m ->].
    apply effect_none_send. }
  destruct (value_is_str (dict_get_default "type" VNone data) "command") eqn:Hcommand.
  2:{ unfold handle_text. rewrite Hjson.
      unfold data_get at 1. unfold mbind at 1, M_bind, mret, M_ret.
      rewrite Hchat, Hcommand. apply effect_none_send. }
  assert (∀ action,
            value_is_str (dict_get_default "action" VNone data) action = true →
            is_command action msg = true) as Hcmd.
  { intros action Ha. unfold is_command. by rewrite Hjson, Hcommand, Ha. }
  assert (handle_text websocket msg = handle_command websocket (VDict data)) as ->.
  { unfold handle_text. rewrite Hjson.
    unfold data_get at 1. unfold mbind at 1, M_bind, mret, M_ret.
    by rewrite Hchat, Hcommand. }
  destruct (value_is_str (dict_get_default "action" VNone data) "start_stream") eqn:Hstart.
  { rewrite handle_command_start by (by apply value_is_str_eq).
    destruct (handle_start_stream_effect websocket w)
      as (m & w1 & -> & _ & [[Hs ->]|(Hs & Ht1 & Hs1 & Hst1 & Hbt1)]).
    - apply effect_none_send.
    - destruct (finish_send websocket m w1) as [Ht (Hc1 & Hc2 & Hc3)].
      apply Effect_start; try congruence. by apply Hcmd. }
  destruct (value_is_str (dict_get_default "action" VNone data) "stop_stream") eqn:Hstop.
  { rewrite handle_command_stop by (by apply value_is_str_eq).
    destruct (handle_stop_stream_effect websocket w)
      as (m & w1 & -> & _ & Ht1 & Hs1 & Hst1 & Hbt1).
    destruct (finish_send websocket m w1) as [Ht (Hc1 & Hc2 & Hc3)].
    apply Effect_stop; try congruence. by apply Hcmd. }
  destruct (value_is_str (dict_get_default "action" VNone data) "search_and_grasp")
    eqn:Hsearch.
  { rewrite handle_command_search by (by apply value_is_str_eq).
    destruct (handle_search_and_grasp_effect websocket data w)
      as (m & w1 & object_name & -> & _
          & [(Hmock & Ht1 & Hbt1 & Hs1 & Hst1)|(Hmock & Ht1 & Hc1 & Hc2 & Hc3)]);
      destruct (finish_send websocket m w1) as [Ht (Hd1 & Hd2 & Hd3)].
    - apply (Effect_search_mock _ _ _ object_name); try congruence. by apply Hcmd.
    - apply Effect_search_real; try congruence; [by apply Hcmd|].
      repeat split; congruence. }
  unfold handle_command, data_get, mbind, M_bind, mret, M_ret.
  rewrite Hstart, Hstop, Hsearch. apply effect_none_send.
Qed.

End Dispatch.

Section Invariants.

Context `{Ext : External}.

Implicit Types (g : Globals) (w : World) (t : Task).

Lemma lookup_snoc_Some {A} (l : list A) (x y : A) i :
  (l ++ [x]) !! i = Some y → l !! i = Some y ∨ (i = length l ∧ y = x).
Proof.
  intros [Hl|[Hge Hx]]%lookup_app_Some; [by left|right].
  destruct (i - length l)%nat as [|n] eqn:Hn; [|done].
  simpl in Hx. split; [lia|congruence].
Qed.

Lemma cancel_state_facts t :
  coro_name (cancel_state t) = coro_name t
  ∧ alive (cancel_state t) = alive t
  ∧ runnable (cancel_state t) = false
  ∧ well_coded (cancel_state t).
Proof. unfold cancel_state, alive, runnable, well_coded. by destruct t as [name [code| |o]]. Qed.

Lemma cancel_handle_length h (ts : list Task) :
  length (cancel_handle h ts) = length ts.
Proof. destruct h; simpl; [apply length_alter|done]. Qed.

Lemma cancel_handle_lookup h (ts : list Task) i t' :
  cancel_handle h ts !! i = Some t' →
  ∃ t, ts !! i = Some t
       ∧ coro_name t' = coro_name t
       ∧ alive t' = alive t
       ∧ (well_coded t → well_coded t')
       ∧ (runnable t' = true → t' = t ∧ h ≠ Some i).
Proof.
  destruct h as [tid|]; simpl.
  - destruct (decide (tid = i)) as [->|Hne].
    + rewrite list_lookup_alter_eq.
      destruct (ts !! i) as [t|] eqn:Ht; [|done]. simpl. intros [= <-].
      destruct (cancel_state_facts t) as (Hn & Ha & Hr & Hw).
      exists t. split; [done|]. split; [done|]. split; [done|]. split; [done|].
      rewrite Hr. done.
    + rewrite list_lookup_alter_ne by done. intros Ht. exists t'.
      repeat split; try done. congruence.
  - intros Ht. exists t'. by repeat split.
Qed.

Lemma stream_not_behavior t : is_stream_task t = true → is_behavior_task t = false.
Proof.
  unfold is_stream_task, is_behavior_task. intros Hs%String.eqb_eq. by rewrite Hs.
Qed.

Lemma well_coded_stream_task_new : well_coded stream_task_new.
Proof. right. done. Qed.

Lemma well_coded_behavior_task_new object_name :
  well_coded (behavior_task_new object_name).
Proof. left. apply quiet_mock_search_and_grasp. Qed.

Lemma Inv_same_tasks w w' :
  tasks w' = tasks w → behavior_task (globals w') = behavior_task (globals w) →
  Inv w → Inv w'.
Proof.
  intros Ht Hb [Hcoded Hbeh Hhandle].
  split; rewrite ?Ht, ?Hb; done.
Qed.

Lemma StreamInv_same_tasks w w' :
  tasks w' = tasks w → same_ctl (globals w) (globals w') →
  StreamInv w → StreamInv w'.
Proof.
  intros Ht (Hs & Hst & _) Hinv tid t. rewrite Ht, Hs, Hst. apply Hinv.
Qed.

Lemma Effect_Inv msg w w' : Inv w → Effect msg w w' → Inv w'.
Proof.
  intros Hinv
    [Ht (_ & _ & Hb)
    |_ _ Ht _ _ Hb
    |_ Ht _ _ Hb
    |object_name _ _ Ht Hb _ _
    |_ _ Ht (_ & _ & Hb)].
  - by eapply Inv_same_tasks.
  - destruct Hinv as [Hcoded Hbeh Hhandle]. split.
    + intros tid t. rewrite Ht.
      intros [Hold|[-> ->]]%lookup_snoc_Some; [by eapply Hcoded|].
      apply well_coded_stream_task_new.
    + intros tid t. rewrite Ht, Hb.
      intros [Hold|[-> ->]]%lookup_snoc_Some; [by eapply Hbeh|done].
    + intros h. rewrite Ht, Hb, length_app. intros Hh%Hhandle. simpl. lia.
  - destruct Hinv as [Hcoded Hbeh Hhandle]. split.
    + intros tid t. rewrite Ht.
      intros (t0 & Ht0 & _ & _ & Hw & _)%cancel_handle_lookup.
      apply Hw. by eapply Hcoded.
    + intros tid t. rewrite Ht, Hb.
      intros (t0 & Ht0 & Hn & _ & _ & Hr)%cancel_handle_lookup Hbt Hrun.
      destruct (Hr Hrun) as [-> _]. by eapply Hbeh.
    + intros h. rewrite Ht, Hb, cancel_handle_length. apply Hhandle.
  - destruct Hinv as [Hcoded Hbeh Hhandle]. split.
    + intros tid t. rewrite Ht.
      intros [Hold|[-> ->]]%lookup_snoc_Some.
      * apply cancel_handle_lookup in Hold as (t0 & Ht0 & _ & _ & Hw & _).
        apply Hw. by eapply Hcoded.
      * apply well_coded_behavior_task_new.
    + intros tid t. rewrite Ht, Hb.
      intros [Hold|[-> ->]]%lookup_snoc_Some Hbt Hrun.
      * apply cancel_handle_lookup in Hold as (t0 & Ht0 & _ & _ & _ & Hr).
        destruct (Hr Hrun) as [-> Hne]. exfalso. apply Hne. by eapply Hbeh.
      * by rewrite cancel_handle_length.
    + intros h. rewrite Ht, Hb, length_app, cancel_handle_length.
      intros [= <-]. simpl. lia.
  - destruct Hinv as [Hcoded Hbeh Hhandle]. split.
    + intros tid t. rewrite Ht.
      intros (t0 & Ht0 & _ & _ & Hw & _)%cancel_handle_lookup.
      apply Hw. by eapply Hcoded.
    + intros tid t. rewrite Ht, Hb.
      intros (t0 & Ht0 & Hn & _ & _ & Hr)%cancel_handle_lookup Hbt Hrun.
      destruct (Hr Hrun) as [-> _]. by eapply Hbeh.
    + intros h. rewrite Ht, Hb, cancel_handle_length. apply Hhandle.
Qed.

Lemma Effect_StreamInv msg w w' :
  is_command "stop_stream" msg = false →
  StreamInv w → Effect msg w w' → StreamInv w'.
Proof.
  intros Hnostop Hinv
    [Ht Hc
    |_ Hidle Ht Hs Hst _
    |Hstop _ _ _ _
    |object_name _ _ Ht _ Hs Hst
    |_ _ Ht (Hs & Hst & _)].
  - by eapply StreamInv_same_tasks.
  - intros tid t. rewrite Ht, Hs, Hst.
    intros [Hold|[-> ->]]%lookup_snoc_Some Hname Halive; [|done].
    destruct (Hinv tid t Hold Hname Halive) as [_ Hup]. congruence.
  - congruence.
  - intros tid t. rewrite Ht, Hs, Hst.
    intros [Hold|[-> ->]]%lookup_snoc_Some Hname Halive; [|done].
    apply cancel_handle_lookup in Hold as (t0 & Ht0 & Hn & Ha & _).
    apply (Hinv tid t0 Ht0); [|congruence].
    unfold is_stream_task in *. by rewrite <- Hn.
  - intros tid t. rewrite Ht, Hs, Hst.
    intros (t0 & Ht0 & Hn & Ha & _)%cancel_handle_lookup Hname Halive.
    apply (Hinv tid t0 Ht0); [|congruence].
    unfold is_stream_task in *. by rewrite <- Hn.
Qed.

(** What resuming a well-coded task does to the flag and the handles. *)
Lemma resume_code_well_coded name code g st g' a :
  well_coded {| coro_name := name; task_state := Suspended code |} →
  resume_code code g = (st, g', a) →
  stream_task g' = stream_task g
  ∧ behavior_task g' = behavior_task g
  ∧ well_coded {| coro_name := name; task_state := st |}
  ∧ (streaming g' = streaming g
     ∨ streaming g' = false ∧ st = Done Returned
       ∧ is_stream_task {| coro_name := name; task_state := Suspended code |} = true).
Proof.
  unfold well_coded. simpl. intros [Hq|[-> Hname]] Hres.
  - apply resume_code_quiet in Hres as [(Hs & Hst & Hbt) Hk]; [|done].
    repeat split; try done; [|by left].
    destruct st as [k| |o]; [|done..]. left. by apply Hk.
  - apply resume_code_camera_stream_loop in Hres
      as (Hst & Hbt & [[Hs Hk]|[Hs ->]]).
    + repeat split; try done; [|by left].
      destruct st as [k| |o]; [|done..]. left. by apply Hk.
    + repeat split; try done. by right.
Qed.

Lemma step_Resume_Suspended tid w name code :
  tasks w !! tid = Some {| coro_name := name; task_state := Suspended code |} →
  step (Resume tid) w =
    let '(st, g, a) := resume_code code (globals w) in
    Some (set_tasks (<[tid := {| coro_name := name; task_state := st |}]> (tasks w))
                    (set_globals g w),
          option_map (λ a, (tid, name, a)) a).
Proof. intros Ht. unfold step. by rewrite Ht. Qed.

Lemma step_Resume_CancelRequested tid w name :
  tasks w !! tid = Some {| coro_name := name; task_state := CancelRequested |} →
  step (Resume tid) w =
    Some (set_tasks (<[tid := {| coro_name := name; task_state := Done Cancelled |}]>
                       (tasks w)) w,
          None).
Proof. intros Ht. unfold step. by rewrite Ht. Qed.

(** The transitions other than a receive or a resume keep the tasks, the
    flag and the handles. *)
Lemma step_connection l w w' e :
  match l with Receive _ _ | Resume _ => False | _ => True end →
  step l w = Some (w', e) →
  tasks w' = tasks w ∧ same_ctl (globals w) (globals w') ∧ e = None.
Proof.
  destruct l as [ws|ws msg|ws|ws|tid]; try done; intros _; simpl.
  - destruct (decide _); [done|]. by intros [= <- <-].
  - destruct (decide _); [|done]. by intros [= <- <-].
  - by intros [= <- <-].
Qed.

Lemma step_Inv l w w' e : Inv w → step l w = Some (w', e) → Inv w'.
Proof.
  intros Hinv Hstep.
  destruct l as [ws|ws msg|ws|ws|tid].
  1,3,4: apply step_connection in Hstep as (Ht & (_ & _ & Hb) & _); [|done];
         by eapply Inv_same_tasks.
  - simpl in Hstep. destruct (decide _); [|done]. injection Hstep as <- <-.
    eapply Effect_Inv; [done|]. apply endpoint_receive_effect.
  - destruct (tasks w !! tid) as [[name [code| |o]]|] eqn:Htid.
    + rewrite (step_Resume_Suspended _ _ _ _ Htid) in Hstep.
      destruct (resume_code code (globals w)) as [[st g'] a] eqn:Hres.
      injection Hstep as <- <-.
      destruct Hinv as [Hcoded Hbeh Hhandle].
      destruct (resume_code_well_coded name code _ _ _ _ (Hcoded _ _ Htid) Hres)
        as (Hst & Hbt & Hw & _).
      assert (tid < length (tasks w))%nat as Hlt by (by eapply lookup_lt_Some).
      split; simpl.
      * intros i t. destruct (decide (i = tid)) as [->|Hne].
        -- rewrite list_lookup_insert_eq by done. by intros [= <-].
        -- rewrite list_lookup_insert_ne by done. apply Hcoded.
      * intros i t. rewrite Hbt. destruct (decide (i = tid)) as [->|Hne].
        -- rewrite list_lookup_insert_eq by done. intros [= <-] Hname _.
           by eapply Hbeh.
        -- rewrite list_lookup_insert_ne by done. apply Hbeh.
      * intros h. rewrite Hbt, length_insert. apply Hhandle.
    + rewrite (step_Resume_CancelRequested _ _ _ Htid) in Hstep.
      injection Hstep as <- <-.
      destruct Hinv as [Hcoded Hbeh Hhandle].
      assert (tid < length (tasks w))%nat as Hlt by (by eapply lookup_lt_Some).
      split; simpl.
      * intros i t. destruct (decide (i = tid)) as [->|Hne].
        -- rewrite list_lookup_insert_eq by done. by intros [= <-].
        -- rewrite list_lookup_insert_ne by done. apply Hcoded.
      * intros i t. destruct (decide (i = tid)) as [->|Hne].
        -- rewrite list_lookup_insert_eq by done. by intros [= <-].
        -- rewrite list_lookup_insert_ne by done. apply Hbeh.
      * intros h. rewrite length_insert. apply Hhandle.
    + unfold step in Hstep. by rewrite Htid in Hstep.
    + unfold step in Hstep. by rewrite Htid in Hstep.
Qed.

Lemma step_StreamInv l w w' e :
  not_stop l → Inv w → StreamInv w → step l w = Some (w', e) → StreamInv w'.
Proof.
  intros Hl Hinv Hsinv Hstep.
  destruct l as [ws|ws msg|ws|ws|tid].
  1,3,4: apply step_connection in Hstep as (Ht & Hc & _); [|done];
         by eapply StreamInv_same_tasks.
  - simpl in Hstep. destruct (decide _); [|done]. injection Hstep as <- <-.
    eapply Effect_StreamInv; [done..|]. apply endpoint_receive_effect.
  - destruct (tasks w !! tid) as [[name [code| |o]]|] eqn:Htid.
    + rewrite (step_Resume_Suspended _ _ _ _ Htid) in Hstep.
      destruct (resume_code code (globals w)) as [[st g'] a] eqn:Hres.
      injection Hstep as <- <-.
      destruct (resume_code_well_coded name code _ _ _ _
                  (inv_coded _ Hinv _ _ Htid) Hres)
        as (Hst & Hbt & Hw & Hflag).
      assert (tid < length (tasks w))%nat as Hlt by (by eapply lookup_lt_Some).
      intros i t. simpl. rewrite Hst.
      destruct (decide (i = tid)) as [->|Hne].
      * rewrite list_lookup_insert_eq by done. intros [= <-] Hname Halive.
        destruct (Hsinv _ _ Htid Hname eq_refl) as [Hh Hup].
        split; [done|]. destruct Hflag as [->|(_ & -> & _)]; done.
      * rewrite list_lookup_insert_ne by done. intros Hi Hname Halive.
        destruct (Hsinv _ _ Hi Hname Halive) as [Hh Hup].
        split; [done|]. destruct Hflag as [->|(_ & _ & Hstream)]; [done|].
        destruct (Hsinv _ _ Htid Hstream eq_refl) as [Hh' _]. congruence.
    + rewrite (step_Resume_CancelRequested _ _ _ Htid) in Hstep.
      injection Hstep as <- <-.
      assert (tid < length (tasks w))%nat as Hlt by (by eapply lookup_lt_Some).
      intros i t. simpl.
      destruct (decide (i = tid)) as [->|Hne].
      * rewrite list_lookup_insert_eq by done. by intros [= <-].
      * rewrite list_lookup_insert_ne by done. apply Hsinv.
    + unfold step in Hstep. by rewrite Htid in Hstep.
    + unfold step in Hstep. by rewrite Htid in Hstep.
Qed.

(** *** Runs of the server *)

Lemma initial_world_facts cfg llm_cfg :
  tasks (initial_world cfg llm_cfg) = []
  ∧ streaming (globals (initial_world cfg llm_cfg)) = false
  ∧ stream_task (globals (initial_world cfg llm_cfg)) = None
  ∧ behavior_task (globals (initial_world cfg llm_cfg)) = None.
Proof.
  unfold initial_world, initial_globals. simpl.
  by destruct (make_robot_interface cfg []).
Qed.

Lemma Inv_initial cfg llm_cfg : Inv (initial_world cfg llm_cfg).
Proof.
  destruct (initial_world_facts cfg llm_cfg) as (Ht & _ & _ & Hb).
  split; rewrite ?Ht, ?Hb; done.
Qed.

Lemma StreamInv_initial cfg llm_cfg : StreamInv (initial_world cfg llm_cfg).
Proof.
  destruct (initial_world_facts cfg llm_cfg) as (Ht & _). intros tid t.
  by rewrite Ht.
Qed.

Lemma exec_cons l ls w w'' es :
  exec (l :: ls) w = Some (w'', es) →
  ∃ w' e es', step l w = Some (w', e) ∧ exec ls w' = Some (w'', es') ∧ es = e :: es'.
Proof.
  simpl. destruct (step l w) as [[w' e]|]; [|done].
  destruct (exec ls w') as [[w2 es']|] eqn:Hexec; [|done].
  intros [= <- <-]. by exists w', e, es'.
Qed.

Lemma exec_Inv ls : ∀ w w' es, Inv w → exec ls w = Some (w', es) → Inv w'.
Proof.
  induction ls as [|l ls IH]; intros w w' es Hinv Hexec.
  - by injection Hexec as <- <-.
  - apply exec_cons in Hexec as (w1 & e & es' & Hstep & Hexec & ->).
    eapply IH; [|done]. by eapply step_Inv.
Qed.

Lemma exec_StreamInv ls : ∀ w w' es,
  Forall not_stop ls → Inv w → StreamInv w → exec ls w = Some (w', es) → StreamInv w'.
Proof.
  induction ls as [|l ls IH]; intros w w' es Hls Hinv Hsinv Hexec.
  - by injection Hexec as <- <-.
  - apply exec_cons in Hexec as (w1 & e & es' & Hstep & Hexec & ->).
    apply Forall_cons in Hls as [Hl Hls].
    eapply IH; [done| | |done].
    + by eapply step_Inv.
    + by eapply step_StreamInv.
Qed.

Lemma Effect_floor msg w w' : Inv w → Effect msg w w' → (floor w ≤ floor w')%nat.
Proof.
  intros Hinv
    [Ht (_ & _ & Hb)
    |_ _ Ht _ _ Hb
    |_ Ht _ _ Hb
    |object_name _ _ Ht Hb _ _
    |_ _ Ht (_ & _ & Hb)]; unfold floor; rewrite Hb, ?Ht.
  - done.
  - destruct (behavior_task (globals w)); [done|]. rewrite length_app. lia.
  - by rewrite cancel_handle_length.
  - destruct (behavior_task (globals w)) as [h|] eqn:Hh; [|done].
    apply (inv_handle _ Hinv) in Hh. lia.
  - by rewrite cancel_handle_length.
Qed.

Lemma step_floor l w w' e :
  Inv w → step l w = Some (w', e) →
  (floor w ≤ floor w')%nat
  ∧ ∀ tid a, e = Some (tid, "_mock_search_and_grasp", a) → tid = floor w.
Proof.
  intros Hinv Hstep.
  destruct l as [ws|ws msg|ws|ws|tid].
  1,3,4: apply step_connection in Hstep as (Ht & (_ & _ & Hb) & ->); [|done];
         unfold floor; rewrite Ht, Hb; done.
  - simpl in Hstep. destruct (decide _); [|done]. injection Hstep as <- <-.
    split; [|done]. eapply Effect_floor; [done|]. apply endpoint_receive_effect.
  - destruct (tasks w !! tid) as [[name [code| |o]]|] eqn:Htid.
    + rewrite (step_Resume_Suspended _ _ _ _ Htid) in Hstep.
      destruct (resume_code code (globals w)) as [[st g'] a] eqn:Hres.
      injection Hstep as <- <-.
      destruct (resume_code_well_coded name code _ _ _ _
                  (inv_coded _ Hinv _ _ Htid) Hres)
        as (Hst & Hbt & Hw & Hflag).
      unfold floor. simpl. rewrite Hbt, length_insert. split; [done|].
      intros tid' a'. destruct a as [a|]; [|done]. simpl. intros [= -> -> _].
      by rewrite (inv_behavior _ Hinv _ _ Htid).
    + rewrite (step_Resume_CancelRequested _ _ _ Htid) in Hstep.
      injection Hstep as <- <-. unfold floor. simpl. by rewrite length_insert.
    + unfold step in Hstep. by rewrite Htid in Hstep.
    + unfold step in Hstep. by rewrite Htid in Hstep.
Qed.

(** In a run, the behaviour tasks broadcast in the order of their creation:
    once a later one has been heard, no earlier one is heard again. *)
Lemma exec_order ls : ∀ w w' es,
  Inv w → exec ls w = Some (w', es) →
  (∀ i tid a, es !! i = Some (Some (tid, "_mock_search_and_grasp", a)) →
              (floor w ≤ tid)%nat)
  ∧ (∀ i j tid1 a1 tid2 a2,
       (i < j)%nat →
       es !! i = Some (Some (tid1, "_mock_search_and_grasp", a1)) →
       es !! j = Some (Some (tid2, "_mock_search_and_grasp", a2)) →
       (tid1 ≤ tid2)%nat).
Proof.
  induction ls as [|l ls IH]; intros w w' es Hinv Hexec.
  - injection Hexec as <- <-. by split.
  - apply exec_cons in Hexec as (w1 & e & es' & Hstep & Hexec & ->).
    destruct (step_floor _ _ _ _ Hinv Hstep) as [Hfloor Hemit].
    destruct (IH w1 w' es' (step_Inv _ _ _ _ Hinv Hstep) Hexec) as [Hlow Hsorted].
    split.
    + intros [|i] tid a; simpl.
      * intros [= ->]. by rewrite (Hemit _ _ eq_refl).
      * intros Hi%Hlow. lia.
    + intros [|i] [|j] tid1 a1 tid2 a2 Hij; simpl; try lia.
      * intros [= ->] Hj%Hlow. rewrite (Hemit _ _ eq_refl). lia.
      * apply Hsorted. lia.
Qed.

(** *** The two commands that start a task *)

Lemma receive_start_stream websocket msg w :
  is_command "start_stream" msg = true →
  let w' := endpoint_receive websocket msg w in
  (streaming (globals w) = true →
   tasks w' = tasks w ∧ same_ctl (globals w) (globals w'))
  ∧ (streaming (globals w) = false →
     tasks w' = tasks w ++ [stream_task_new]
     ∧ streaming (globals w') = true
     ∧ stream_task (globals w') = Some (length (tasks w))
     ∧ behavior_task (globals w') = behavior_task (globals w)).
Proof.
  intros (data & _ & Haction & Htext)%(is_command_handle_text _ _ websocket).
  simpl. rewrite endpoint_receive_finish, Htext, handle_command_start by done.
  destruct (handle_start_stream_effect websocket w)
    as (m & w1 & -> & _ & [[Hs ->]|(Hs & Ht1 & Hs1 & Hst1 & Hbt1)]);
    destruct (finish_send websocket m w1) as [Ht (Hc1 & Hc2 & Hc3)] ||
    destruct (finish_send websocket m w) as [Ht (Hc1 & Hc2 & Hc3)].
  - split; [done|]. congruence.
  - split; [congruence|]. intros _. repeat split; congruence.
Qed.

Lemma receive_search_and_grasp websocket msg w :
  is_command "search_and_grasp" msg = true →
  let w' := endpoint_receive websocket msg w in
  ∃ object_name,
    if _is_mock_robot (globals w) then
      tasks w' = cancel_handle (behavior_task (globals w)) (tasks w)
                 ++ [behavior_task_new object_name]
      ∧ behavior_task (globals w') = Some (length (tasks w))
    else
      tasks w' = cancel_handle (behavior_task (globals w)) (tasks w)
      ∧ behavior_task (globals w') = behavior_task (globals w).
Proof.
  intros (data & _ & Haction & Htext)%(is_command_handle_text _ _ websocket).
  simpl. rewrite endpoint_receive_finish, Htext, handle_command_search by done.
  destruct (handle_search_and_grasp_effect websocket data w)
    as (m & w1 & object_name & -> & _
        & [(Hmock & Ht1 & Hbt1 & Hs1 & Hst1)|(Hmock & Ht1 & Hc1 & Hc2 & Hc3)]);
    destruct (finish_send websocket m w1) as [Ht (Hd1 & Hd2 & Hd3)];
    exists object_name; rewrite Hmock; split; congruence.
Qed.

(** C2: single flight of the streaming loop. In every world the server
    reaches without a [stop_stream] command, at most one task running
    [camera_stream_loop] is not done; a [start_stream] command received
    there while the flag is up leaves every task, the flag and both handles
    as they are; received while the flag is down it raises the flag and
    creates one task, which [stream_task] names. *)
Theorem stream_single_flight
    (cfg : SO100DemoConfig) (llm_cfg : LLMConfig) (ls : list Label)
    (w : World) (es : list Emitted) :
  Forall not_stop ls →
  exec ls (initial_world cfg llm_cfg) = Some (w, es) →
  (∀ tid1 tid2 t1 t2,
      tasks w !! tid1 = Some t1 → is_stream_task t1 = true → alive t1 = true →
      tasks w !! tid2 = Some t2 → is_stream_task t2 = true → alive t2 = true →
      tid1 = tid2)
  ∧ (∀ websocket msg,
       is_command "start_stream" msg = true →
       let w' := endpoint_receive websocket msg w in
       (streaming (globals w) = true →
        tasks w' = tasks w ∧ same_ctl (globals w) (globals w'))
       ∧ (streaming (globals w) = false →
          tasks w' = tasks w ++ [stream_task_new]
          ∧ streaming (globals w') = true
          ∧ stream_task (globals w') = Some (length (tasks w))
          ∧ behavior_task (globals w') = behavior_task (globals w)
          ∧ ∀ tid t, tasks w !! tid = Some t → is_stream_task t = true →
                     alive t = false)).
Proof.
  intros Hls Hexec.
  assert (StreamInv w) as Hsinv.
  { eapply exec_StreamInv; [done|apply Inv_initial|apply StreamInv_initial|done]. }
  split.
  - intros tid1 tid2 t1 t2 H1 Hn1 Ha1 H2 Hn2 Ha2.
    destruct (Hsinv _ _ H1 Hn1 Ha1) as [Hh1 _].
    destruct (Hsinv _ _ H2 Hn2 Ha2) as [Hh2 _]. congruence.
  - intros websocket msg Hmsg.
    destruct (receive_start_stream websocket msg w Hmsg) as [Hup Hdown].
    split; [done|]. intros Hidle.
    destruct (Hdown Hidle) as (? & ? & ? & ?). repeat split; try done.
    intros tid t Ht Hname. destruct (alive t) eqn:Halive; [|done].
    destruct (Hsinv _ _ Ht Hname Halive) as [_ Hflag]. congruence.
Qed.

(** C3: single flight of the scripted behaviour. In every world the server
    reaches, a [search_and_grasp] command received while [behavior_task]
    names a task that is not done asks that task to cancel, and creates the
    new task, if any, only then; at most one behaviour task can still run;
    and in the run so far the behaviour tasks were heard in the order of
    their creation: nothing an earlier one awaited comes after something a
    later one awaited. *)
Theorem behavior_single_flight
    (cfg : SO100DemoConfig) (llm_cfg : LLMConfig) (ls : list Label)
    (w : World) (es : list Emitted) :
  exec ls (initial_world cfg llm_cfg) = Some (w, es) →
  (∀ websocket msg old t,
      is_command "search_and_grasp" msg = true →
      behavior_task (globals w) = Some old →
      tasks w !! old = Some t →
      alive t = true →
      let w' := endpoint_receive websocket msg w in
      tasks w' !! old
        = Some {| coro_name := coro_name t; task_state := CancelRequested |}
      ∧ ∃ object_name,
          if _is_mock_robot (globals w) then
            tasks w' = alter cancel_state old (tasks w)
                       ++ [behavior_task_new object_name]
            ∧ behavior_task (globals w') = Some (length (tasks w))
            ∧ (old < length (tasks w))%nat
          else
            tasks w' = alter cancel_state old (tasks w)
            ∧ behavior_task (globals w') = Some old)
  ∧ (∀ tid1 tid2 t1 t2,
       tasks w !! tid1 = Some t1 → is_behavior_task t1 = true → runnable t1 = true →
       tasks w !! tid2 = Some t2 → is_behavior_task t2 = true → runnable t2 = true →
       tid1 = tid2)
  ∧ (∀ i j tid1 a1 tid2 a2,
       (i < j)%nat →
       es !! i = Some (Some (tid1, "_mock_search_and_grasp", a1)) →
       es !! j = Some (Some (tid2, "_mock_search_and_grasp", a2)) →
       (tid1 ≤ tid2)%nat).
Proof.
  intros Hexec.
  pose proof (exec_Inv _ _ _ _ (Inv_initial cfg llm_cfg) Hexec) as Hinv.
  split; [|split].
  - intros websocket msg old t Hmsg Hold Ht Halive.
    destruct (receive_search_and_grasp websocket msg w Hmsg) as [object_name Hw'].
    rewrite Hold in Hw'. simpl in Hw'.
    assert (old < length (tasks w))%nat as Hlt by (by eapply lookup_lt_Some).
    assert (alter cancel_state old (tasks w) !! old
            = Some {| coro_name := coro_name t; task_state := CancelRequested |})
      as Hcancelled.
    { rewrite list_lookup_alter_eq, Ht. simpl. unfold cancel_state.
      unfold alive in Halive. by destruct (task_state t). }
    simpl. split.
    + destruct (_is_mock_robot (globals w)).
      * destruct Hw' as [-> _]. rewrite lookup_app_l by (by rewrite length_alter).
        done.
      * by destruct Hw' as [-> _].
    + exists object_name. destruct (_is_mock_robot (globals w)).
      * by destruct Hw' as [-> ->].
      * by destruct Hw' as [-> ->].
  - intros tid1 tid2 t1 t2 H1 Hn1 Hr1 H2 Hn2 Hr2.
    pose proof (inv_behavior _ Hinv _ _ H1 Hn1 Hr1).
    pose proof (inv_behavior _ Hinv _ _ H2 Hn2 Hr2). congruence.
  - by apply (exec_order ls _ _ _ (Inv_initial cfg llm_cfg) Hexec).
Qed.

End Invariants.

(** * Examples *)

(** ** The mock robot *)

Lemma sample_targets_NoDup : NoDup (dict_keys (deref sample_store 1%nat)).
Proof.
  apply NoDup_cons. split; [|apply NoDup_singleton].
  intros Hin%list_elem_of_singleton. discriminate Hin.
Defined.

(** Sending the target map changes [joint_1], adds [gripper], and keeps
    [joint_0]. *)
Lemma send_joint_targets_merges_witness :
  (Mock.joints sample_robot < length sample_store)%nat
  ∧ NoDup (dict_keys (deref sample_store 1%nat))
  ∧ deref (Mock.send_joint_targets 1%nat sample_robot sample_store) 0%nat
    = [("joint_0", 0%float); ("joint_1", 1.5%float); ("joint_2", 0%float);
       ("gripper", 0.5%float)]
  ∧ ∀ name,
      dict_get name (deref (Mock.send_joint_targets 1%nat sample_robot sample_store) 0%nat)
      = match dict_get name (deref sample_store 1%nat) with
        | Some v => Some v
        | None => dict_get name (deref sample_store 0%nat)
        end.
Proof.
  split; [simpl; lia|]. split; [apply sample_targets_NoDup|]. split; [reflexivity|].
  apply (send_joint_targets_merges sample_robot sample_store 1%nat);
    [simpl; lia|apply sample_targets_NoDup].
Defined.

(** A connected robot hands out a new dictionary, not its own. *)
Lemma get_observation_connected_copy_witness :
  (Mock.joints sample_robot < length sample_store)%nat
  ∧ ∃ frame l,
      (Mock.get_observation sample_robot sample_store).1.1 = Ok (frame, l)
      ∧ l ≠ Mock.joints sample_robot.
Proof.
  split; [simpl; lia|].
  pose proof (get_observation_connected_copy sample_robot sample_store) as Hcopy.
  destruct (Mock.get_observation sample_robot sample_store) as [[res self'] h'].
  destruct Hcopy as [_ Hconnected]; [simpl; lia|].
  destruct (Hconnected eq_refl) as (frame & l & -> & Hne & _).
  by exists frame, l.
Defined.

(** ** One client *)

Lemma one_client_open : 0%nat ∉ closed (globals one_client).
Proof. apply not_elem_of_empty. Defined.

(** The client says hello and is answered by the stub. *)
Lemma chat_answered_by_stub_echo_witness :
  json_loads (json_text chat_hello) = Ok chat_hello
  ∧ dict_get "type" [("type", VStr "chat"); ("text", VStr "hello")] = Some (VStr "chat")
  ∧ delivered (globals (endpoint_receive 0%nat (json_text chat_hello) one_client))
    = [(0%nat,
        [("type", VStr "chat");
         ("text", VStr "[STUB LLM] I received: 'hello'. Configure a real LLM to get meaningful answers.")])].
Proof.
  split; [reflexivity|]. split; [reflexivity|].
  destruct (chat_answered_by_stub_echo one_client 0%nat (json_text chat_hello)
              [("type", VStr "chat"); ("text", VStr "hello")]
              eq_refl eq_refl) as (_ & Hopen & _).
  rewrite (Hopen one_client_open). reflexivity.
Defined.

(** Text that is not JSON, from a client that takes the reply: one error
    event, and the client stays registered. *)
Lemma unrecognized_message_error_reply_witness :
  unrecognized "not json" = true
  ∧ (∃ text, delivered (globals (endpoint_receive 0%nat "not json" one_client))
             = [(0%nat, error_event text)])
  ∧ active_connections (globals (endpoint_receive 0%nat "not json" one_client))
    = active_connections (globals one_client).
Proof.
  split; [reflexivity|].
  destruct (unrecognized_message_error_reply one_client 0%nat "not json" eq_refl)
    as (_ & _ & _ & _ & _ & Hopen & _).
  destruct (Hopen one_client_open) as [text Hw']. rewrite Hw'.
  split; [by exists text|reflexivity].
Defined.

(** C7 without the proviso on the send does not hold: text that is not
    JSON, from a client whose connection no longer takes a send. The
    endpoint is running and the client is registered; after the message
    nothing was delivered and the client is no longer in the active set. *)
Lemma unrecognized_message_changes_active_set :
  unrecognized "not json" = true
  ∧ 0%nat ∈ endpoints one_client_gone
  ∧ 0%nat ∈ active_connections (globals one_client_gone)
  ∧ delivered (globals (endpoint_receive 0%nat "not json" one_client_gone)) = []
  ∧ (0%nat ∉ active_connections
               (globals (endpoint_receive 0%nat "not json" one_client_gone)))
  ∧ active_connections (globals (endpoint_receive 0%nat "not json" one_client_gone))
    ≠ active_connections (globals one_client_gone).
Proof.
  assert (0%nat ∈ closed (globals one_client_gone)) as Hclosed.
  { apply elem_of_singleton. reflexivity. }
  assert (0%nat ∈ active_connections (globals one_client_gone)) as Hin.
  { apply elem_of_singleton. reflexivity. }
  assert (endpoint_receive 0%nat "not json" one_client_gone
          = endpoint_stop 0%nat one_client_gone) as Hstop.
  { unfold endpoint_receive, handle_text.
    change (json_loads "not json")
      with (@Raise Value (JSONDecodeError "Expecting value")). cbv iota.
    rewrite on_globals_send_json_closed by done. by rewrite set_globals_id. }
  assert (0%nat ∉ active_connections
                   (globals (endpoint_receive 0%nat "not json" one_client_gone)))
    as Hout.
  { rewrite Hstop. simpl. set_solver. }
  split; [reflexivity|]. split; [apply elem_of_singleton; reflexivity|].
  split; [done|]. split; [by rewrite Hstop|].
  split; [done|]. intros Heq. apply Hout. by rewrite Heq.
Qed.

(** A client sends an integer of five thousand digits: [json.loads] raises
    [ValueError], which the loop does not intercept. No error event is
    sent, and the client, whose connection is sound, is deregistered. *)
Lemma integer_of_many_digits_stops_endpoint :
  json_loads many_digits = Raise (OtherException "ValueError")
  ∧ unrecognized many_digits = false
  ∧ (0%nat ∉ closed (globals one_client))
  ∧ 0%nat ∈ active_connections (globals one_client)
  ∧ delivered (globals (endpoint_receive 0%nat many_digits one_client)) = []
  ∧ (0%nat ∉ active_connections
               (globals (endpoint_receive 0%nat many_digits one_client))).
Proof.
  assert (json_loads many_digits = Raise (OtherException "ValueError")) as Hjson.
  { vm_compute. reflexivity. }
  destruct (loads_exception_stops_endpoint one_client 0%nat many_digits _ Hjson)
    as (Hun & _ & _ & Hd & Ha); [done|].
  split; [done|]. split; [done|]. split; [apply one_client_open|].
  split; [apply elem_of_singleton; reflexivity|]. split; [by rewrite Hd|].
  rewrite Ha. set_solver.
Qed.

(** ** The arm does not answer *)

(** The task is resumed, the flag falls, and nothing is delivered. *)
Lemma stream_loop_connect_failure_witness :
  tasks real_started !! 0%nat = Some stream_task_new
  ∧ (robot_connect (globals real_started)).1 = Raise (OtherException "ConnectionError")
  ∧ ∃ w', step (Resume 0%nat) real_started = Some (w', None)
          ∧ streaming (globals w') = false
          ∧ delivered (globals w') = [].
Proof.
  split; [reflexivity|]. split; [reflexivity|].
  destruct (stream_loop_connect_failure real_started 0%nat "camera_stream_loop"
              (OtherException "ConnectionError") eq_refl eq_refl)
    as (w' & Hstep & Hflag & _ & Hdelivered & _).
  exists w'. by rewrite Hdelivered.
Defined.

(** ** The scripted behaviour *)

Lemma sample_states_fetch_ok step g :
  (step < 10)%nat → sample_states !! fetch_rank step = Some g → fetch_ok g = true.
Proof. intros _ [-> _]%lookup_replicate. reflexivity. Defined.

Lemma sample_run_returns :
  resume_all (_mock_search_and_grasp "ball") sample_states
  = (sample_run.1, Done Returned).
Proof. vm_compute. reflexivity. Defined.

Lemma sample_states_mock step g :
  (step < 10)%nat → sample_states !! fetch_rank step = Some g → _is_mock_robot g = true.
Proof. intros _ [-> _]%lookup_replicate. reflexivity. Defined.

Lemma mock_search_and_grasp_script_witness :
  (∀ step g, (step < 10)%nat → sample_states !! fetch_rank step = Some g →
             fetch_ok g = true)
  ∧ (∀ step g, (step < 10)%nat → sample_states !! fetch_rank step = Some g →
               _is_mock_robot g = true)
  ∧ (37 ≤ length sample_states)%nat
  ∧ (∃ tr, resume_all (_mock_search_and_grasp "ball") sample_states
           = (tr, Done Returned)
           ∧ length tr = 37%nat
           ∧ broadcasts tr
             = status "searching" :: search_narration "ball"
                 ++ status "grasping" :: grasp_narration "ball"
                 ++ [status "done"])
  ∧ broadcasts sample_run.1
    = status "searching" :: search_narration "ball"
        ++ status "grasping" :: grasp_narration "ball"
        ++ [status "done"].
Proof.
  assert (37 ≤ length sample_states)%nat as Hlen.
  { unfold sample_states. rewrite length_replicate. lia. }
  split; [apply sample_states_fetch_ok|]. split; [apply sample_states_mock|].
  split; [done|].
  destruct (mock_search_and_grasp_script "ball" sample_states sample_states_fetch_ok)
    as (Hscript & Hreturns & _).
  split.
  - by apply Hreturns; [apply sample_states_mock|].
  - apply Hscript. apply sample_run_returns.
Defined.

Lemma mock_search_and_grasp_fetch_raises_witness :
  (0 < 10)%nat
  ∧ length failing_states = fetch_rank 0
  ∧ fetch_ok mock_idle = false
  ∧ (length failing_states < length failing_run.1)%nat
  ∧ broadcasts failing_run.1
    = [status "searching";
       reasoning "Starting search for 'ball' using mock policy.";
       error_status]
  ∧ failing_run.2 = Done Returned.
Proof.
  assert (length failing_states < length failing_run.1)%nat as Hreached.
  { vm_compute. lia. }
  split; [lia|]. split; [reflexivity|]. split; [reflexivity|]. split; [done|].
  destruct (mock_search_and_grasp_fetch_raises "ball" 0 failing_states mock_idle
              [mock_idle] failing_run.1 failing_run.2)
    as (Hb & _ & _ & _ & Hst); try done.
  lia.
Defined.

(** ** Runs of the server *)

Lemma runs_exec ls w :
  runs ls w = true → ∃ w' es, exec ls w = Some (w', es).
Proof.
  unfold runs. destruct (exec ls w) as [[w' es]|]; [|done].
  intros _. by exists w', es.
Defined.

Lemma stream_labels_not_stop : Forall not_stop stream_labels.
Proof. repeat (apply Forall_cons_2; [reflexivity|]). apply Forall_nil_2. Defined.

Lemma stream_labels_run :
  runs stream_labels (initial_world (sample_cfg true) sample_llm_cfg) = true.
Proof. vm_compute. reflexivity. Defined.

Lemma stream_single_flight_witness :
  Forall not_stop stream_labels
  ∧ ∃ w es,
      exec stream_labels (initial_world (sample_cfg true) sample_llm_cfg) = Some (w, es)
      ∧ ∀ tid1 tid2 t1 t2,
          tasks w !! tid1 = Some t1 → is_stream_task t1 = true → alive t1 = true →
          tasks w !! tid2 = Some t2 → is_stream_task t2 = true → alive t2 = true →
          tid1 = tid2.
Proof.
  split; [apply stream_labels_not_stop|].
  destruct (runs_exec _ _ stream_labels_run) as (w & es & Hexec).
  exists w, es. split; [done|].
  apply (stream_single_flight _ _ _ _ _ stream_labels_not_stop Hexec).
Defined.

Lemma behavior_labels_run :
  runs behavior_labels (initial_world (sample_cfg true) sample_llm_cfg) = true.
Proof. vm_compute. reflexivity. Defined.

Lemma behavior_single_flight_witness :
  ∃ w es,
    exec behavior_labels (initial_world (sample_cfg true) sample_llm_cfg) = Some (w, es)
    ∧ ∀ i j tid1 a1 tid2 a2,
        (i < j)%nat →
        es !! i = Some (Some (tid1, "_mock_search_and_grasp", a1)) →
        es !! j = Some (Some (tid2, "_mock_search_and_grasp", a2)) →
        (tid1 ≤ tid2)%nat.
Proof.
  destruct (runs_exec _ _ behavior_labels_run) as (w & es & Hexec).
  exists w, es. split; [done|].
  apply (behavior_single_flight _ _ _ _ _ Hexec).
Defined.

(** What the second run lets the clients observe: the first task is heard
    once, then only the second. *)
Example behavior_labels_emitted :
  option_map snd (exec behavior_labels (initial_world (sample_cfg true) sample_llm_cfg))
  = Some [None; None;
          Some (0%nat, "_mock_search_and_grasp", broadcast_json_call (status "searching"));
          None; None;
          Some (1%nat, "_mock_search_and_grasp", broadcast_json_call (status "searching"));
          Some (1%nat, "_mock_search_and_grasp",
                broadcast_json_call
                  (reasoning "Starting search for 'ball' using mock policy."))].
Proof. vm_compute. reflexivity. Qed.

(** What the client of the first run was sent: an acknowledgement, the
    frame of the first iteration, and the second acknowledgement while the
    streaming task sleeps. *)
Example stream_labels_delivered :
  option_map (λ r, map (λ d, dict_get "type" d.2) (delivered (globals r.1)))
             (exec stream_labels (initial_world (sample_cfg true) sample_llm_cfg))
  = Some [Some (VStr "status"); Some (VStr "frame"); Some (VStr "status")].
Proof. vm_compute. reflexivity. Qed.

Example repr_str_hello : repr_str "hello" = "'hello'".
Proof. reflexivity. Qed.

Example repr_str_quote : repr_str "it's" = String "034" ("it's" +:+ String "034" "").
Proof. reflexivity. Qed.

Example strip_spaces : strip "  red cup " = "red cup".
Proof. reflexivity. Qed.

(** * Further properties *)

(** ** The mock robot, from connection to connection *)

Section MockLife.
Context `{Ext : External}.
Implicit Types (self : Mock.MockRobotInterface) (h : Store).

Lemma mock_connect_facts self :
  Mock._connected (Mock.connect self) = true
  ∧ Mock.joints (Mock.connect self) = Mock.joints self
  ∧ Mock.cfg (Mock.connect self) = Mock.cfg self
  ∧ Mock._frame_index (Mock.connect self) = Mock._frame_index self.
Proof.
  unfold Mock.connect.
  destruct (Mock._connected self) eqn:Hc; [done|].
  repeat case_match; done.
Qed.

Lemma mock_connect_connected self :
  Mock._connected self = true → Mock.connect self = self.
Proof. unfold Mock.connect. by intros ->. Qed.

Lemma mock_disconnect_disconnected self :
  Mock._connected self = false → Mock.disconnect self = self.
Proof. unfold Mock.disconnect. by intros ->. Qed.

(** X1: the life cycle of the mock robot. [connect] and [disconnect] are
    idempotent; after [connect] an observation is returned, after
    [disconnect] it is refused with a [RuntimeError] that changes nothing;
    a disconnection drops the video capture and keeps the joint dictionary
    and the frame counter, so the joint values survive a reconnection. *)
Theorem mock_life_cycle self h :
  let up := Mock.connect self in
  let down := Mock.disconnect up in
  Mock.connect up = up
  ∧ Mock.disconnect down = down
  ∧ is_ok (Mock.get_observation up h).1.1 = true
  ∧ Mock.get_observation down h
    = (Raise (RuntimeError "MockRobotInterface not connected."), down, h)
  ∧ Mock._video_cap down = None
  ∧ Mock.joints (Mock.connect down) = Mock.joints self
  ∧ Mock._frame_index (Mock.connect down) = Mock._frame_index self.
Proof.
  cbv zeta.
  destruct (mock_connect_facts self) as (Hc & Hj & _ & Hi).
  set (up := Mock.connect self) in *.
  assert (Hdown : Mock._connected (Mock.disconnect up) = false
                  ∧ Mock._video_cap (Mock.disconnect up) = None
                  ∧ Mock.joints (Mock.disconnect up) = Mock.joints self
                  ∧ Mock._frame_index (Mock.disconnect up) = Mock._frame_index self).
  { unfold Mock.disconnect. rewrite Hc. simpl. done. }
  set (down := Mock.disconnect up) in *.
  destruct Hdown as (Hd & Hv & Hdj & Hdi).
  split; [by apply mock_connect_connected|].
  split; [by apply mock_disconnect_disconnected|].
  split.
  { unfold Mock.get_observation. rewrite Hc. simpl.
    by destruct (Mock._get_frame up) as [frame self']. }
  split; [unfold Mock.get_observation; by rewrite Hd|].
  split; [done|].
  destruct (mock_connect_facts down) as (_ & Hj' & _ & Hi').
  by rewrite Hj', Hi'.
Qed.

(** *** The three sources of frames *)

Lemma vc_read_loop cap f :
  vc_opened cap = true →
  (vc_pos cap ≤ length (vc_frames cap))%nat →
  vc_frames cap !! (vc_pos cap `mod` length (vc_frames cap))%nat = Some f →
  ∃ cap',
    (match vc_read cap with
     | (Some f0, cap0) => (Some f0, cap0)
     | (None, cap0) => vc_read (vc_rewind cap0)
     end) = (Some f, cap')
    ∧ vc_opened cap' = true
    ∧ vc_frames cap' = vc_frames cap
    ∧ vc_pos cap' = S (vc_pos cap `mod` length (vc_frames cap)).
Proof.
  intros Hopen Hle Hf.
  assert (Hlen : (0 < length (vc_frames cap))%nat).
  { apply lookup_lt_Some in Hf. lia. }
  unfold vc_read at 1. rewrite Hopen.
  destruct (decide (vc_pos cap = length (vc_frames cap))) as [Heq|Hne].
  - rewrite Heq, Nat.Div0.mod_same in Hf.
    rewrite Heq, (lookup_ge_None_2 _ (length (vc_frames cap))) by lia.
    unfold vc_read, vc_rewind. simpl. rewrite Hopen, Hf.
    eexists. split; [reflexivity|]. simpl.
    by rewrite Nat.Div0.mod_same.
  - rewrite Nat.mod_small in Hf by lia. rewrite Hf.
    eexists. split; [reflexivity|]. simpl.
    by rewrite Nat.mod_small by lia.
Qed.

(** X2: a video loops. With an opened capture of a video that has frames,
    the successive calls of [_get_frame] return the frames of the video in
    order, starting over after the last one; the static image, if there is
    one, is never shown. *)
Theorem mock_video_loops self cap (n i : nat) f :
  Mock._video_cap self = Some cap →
  vc_opened cap = true →
  (vc_pos cap ≤ length (vc_frames cap))%nat →
  (i < n)%nat →
  vc_frames cap !! ((vc_pos cap + i) `mod` length (vc_frames cap))%nat = Some f →
  get_frames n self !! i = Some (RGB f).
Proof.
  revert self cap i. induction n as [|n IH]; intros self cap i Hcap Hopen Hle Hi Hf; [lia|].
  assert (Hlen : (0 < length (vc_frames cap))%nat).
  { apply lookup_lt_Some in Hf. lia. }
  destruct (lookup_lt_is_Some_2 (vc_frames cap)
              (vc_pos cap `mod` length (vc_frames cap))%nat) as [f0 Hf0].
  { apply Nat.mod_upper_bound. lia. }
  destruct (vc_read_loop cap f0 Hopen Hle Hf0) as (cap' & Hread & Hopen' & Hframes' & Hpos').
  assert (Hstep : Mock._get_frame self = (RGB f0, Mock.set_video_cap (Some cap') self)).
  { unfold Mock._get_frame. rewrite Hcap. revert Hread.
    destruct (vc_read cap) as [[f1|] cap1]; intros Hread.
    - by injection Hread as -> ->.
    - by rewrite Hread. }
  cbn [get_frames]. rewrite Hstep.
  destruct i as [|i].
  - rewrite Nat.add_0_r in Hf. simpl. congruence.
  - simpl. apply (IH _ cap'); [done|done|..].
    + rewrite Hframes', Hpos'.
      pose proof (Nat.mod_upper_bound (vc_pos cap) (length (vc_frames cap))). lia.
    + lia.
    + rewrite Hframes', Hpos'.
      replace (S (vc_pos cap `mod` length (vc_frames cap)) + i)%nat
        with (vc_pos cap `mod` length (vc_frames cap) + S i)%nat by lia.
      by rewrite Nat.Div0.add_mod_idemp_l.
Qed.

Lemma synthetic_phase_range (n : Z) : 0 ≤ (n / 20) mod 3 < 3.
Proof. apply Z.mod_pos_bound. lia. Qed.

Lemma generate_synthetic_scene_spec self :
  Mock._generate_synthetic_scene self
  = (SyntheticScene (scene_objects ((Mock._frame_index self + 1) / 20 mod 3)),
     Mock.set_frame_index (Mock._frame_index self + 1) self).
Proof.
  unfold Mock._generate_synthetic_scene, scene_objects. cbn [Mock._frame_index Mock.set_frame_index].
  pose proof (synthetic_phase_range (Mock._frame_index self + 1)) as Hr.
  assert (Hcases : (Mock._frame_index self + 1) / 20 mod 3 = 0
                   ∨ (Mock._frame_index self + 1) / 20 mod 3 = 1
                   ∨ (Mock._frame_index self + 1) / 20 mod 3 = 2) by lia.
  destruct Hcases as [-> | [-> | ->]]; reflexivity.
Qed.

(** X3: the synthetic scene. Without a video and without a static image,
    the frame is the synthetic scene of phase [(n // 20) % 3], where [n] is
    the number of synthetic frames made so far, this one included: the red
    cup is in every frame (the test [phase >= 0] never fails), the blue
    block from phase 1 on, the green ball in phase 2; and the scenes come
    back every 60 frames. *)
Theorem synthetic_scene_schedule self self' :
  Mock._video_cap self = None →
  Mock._static_image self = None →
  Mock._video_cap self' = None →
  Mock._static_image self' = None →
  Mock._frame_index self' = Mock._frame_index self + 60 →
  let phase := (Mock._frame_index self + 1) / 20 mod 3 in
  Mock._get_frame self
  = (SyntheticScene (scene_objects phase),
     Mock.set_frame_index (Mock._frame_index self + 1) self)
  ∧ RedCup ∈ scene_objects phase
  ∧ (BlueBlock ∈ scene_objects phase ↔ (1 ≤ phase)%Z)
  ∧ (GreenBall ∈ scene_objects phase ↔ phase = 2%Z)
  ∧ (Mock._get_frame self').1 = (Mock._get_frame self).1.
Proof.
  intros Hv Hs Hv' Hs' Hi phase.
  assert (Hframe : ∀ r, Mock._video_cap r = None → Mock._static_image r = None →
            Mock._get_frame r = Mock._generate_synthetic_scene r).
  { intros r Hrv Hrs. unfold Mock._get_frame, Mock._get_frame_fallback.
    by rewrite Hrv, Hrs. }
  rewrite !Hframe, !generate_synthetic_scene_spec by done.
  fold phase.
  pose proof (synthetic_phase_range (Mock._frame_index self + 1)) as Hr. fold phase in Hr.
  split; [done|].
  assert (Hcases : phase = 0 ∨ phase = 1 ∨ phase = 2) by lia.
  split; [|split; [|split]].
  - destruct Hcases as [-> | [-> | ->]]; unfold scene_objects; simpl; set_solver.
  - destruct Hcases as [-> | [-> | ->]]; unfold scene_objects; simpl;
      (split; [intros Hin; try lia; set_solver | intros Hle; try lia; set_solver]).
  - destruct Hcases as [-> | [-> | ->]]; unfold scene_objects; simpl;
      (split; [intros Hin; try lia; set_solver | intros Hle; try lia; set_solver]).
  - simpl. rewrite Hi. f_equal. f_equal.
    replace (Mock._frame_index self + 60 + 1) with (Mock._frame_index self + 1 + 3 * 20) by lia.
    rewrite Z.div_add by lia. subst phase.
    replace ((Mock._frame_index self + 1) / 20 + 3)
      with ((Mock._frame_index self + 1) / 20 + 1 * 3) by lia.
    apply Z.mod_add. lia.
Qed.

End MockLife.

(** ** The chat engines *)

Section Engines.
Context `{Ext : External}.

Lemma lower_char_idemp c : lower_char (lower_char c) = lower_char c.
Proof. destruct c as [[] [] [] [] [] [] [] []]; reflexivity. Qed.

Lemma lower_idemp s : lower (lower s) = lower s.
Proof. induction s as [|c s IH]; simpl; [done|]. by rewrite lower_char_idemp, IH. Qed.

(** X4: which engine answers. [make_llm_engine] looks at the provider in
    lower case only: for ["gemini"], ["claude"] and ["qwen"], in any
    capitalisation, the engine is a placeholder whose [chat] raises
    [NotImplementedError]; for every other provider it is the stub engine,
    whose [chat] returns. *)
Theorem make_llm_engine_by_provider (cfg : LLMConfig) (messages : list Message) :
  let p := lower (provider cfg) in
  make_llm_engine
    {| provider := p; model_name := model_name cfg; api_key_env := api_key_env cfg |}
  = make_llm_engine cfg
  ∧ ((p = "gemini" ∨ p = "claude" ∨ p = "qwen")
     ↔ ∃ msg, chat (make_llm_engine cfg) messages = Raise (NotImplementedError msg))
  ∧ (¬ (p = "gemini" ∨ p = "claude" ∨ p = "qwen")
     ↔ chat (make_llm_engine cfg) messages = Ok (stub_chat messages)).
Proof.
  intros p. split.
  { unfold make_llm_engine. cbn [provider model_name api_key_env].
    subst p. by rewrite lower_idemp. }
  unfold make_llm_engine. fold p.
  destruct (String.eqb_spec p "gemini") as [->|Hg].
  { split; split.
    - intros _. simpl. eauto.
    - auto.
    - intros Hn. exfalso. apply Hn. auto.
    - intros Hm. simpl in Hm. discriminate. }
  destruct (String.eqb_spec p "claude") as [->|Hc].
  { split; split.
    - intros _. simpl. eauto.
    - auto.
    - intros Hn. exfalso. apply Hn. auto.
    - intros Hm. simpl in Hm. discriminate. }
  destruct (String.eqb_spec p "qwen") as [->|Hq].
  { split; split.
    - intros _. simpl. eauto.
    - auto.
    - intros Hn. exfalso. apply Hn. auto.
    - intros Hm. simpl in Hm. discriminate. }
  split; split.
  - intros [?|[?|?]]; congruence.
  - intros [msg Hm]. simpl in Hm. discriminate.
  - done.
  - intros _ [?|[?|?]]; congruence.
Qed.

Lemma last_user_content_skip (skipped rest : list Message) :
  Forall (λ m, is_user m = false) skipped →
  last_user_content (skipped ++ rest) = last_user_content rest.
Proof.
  induction 1 as [|m skipped Hm _ IH]; [done|].
  simpl. unfold is_user in Hm. by rewrite Hm.
Qed.

(** X5: the stub engine echoes the last user message. Whatever comes
    before it, and whatever messages of other roles come after it, the
    reply quotes the content of the last message whose role is ["user"];
    when no message has that role the reply quotes the empty string. *)
Theorem stub_chat_last_user (before after : list Message) (m : Message) :
  is_user m = true →
  Forall (λ m', is_user m' = false) after →
  chat StubEngine (before ++ m :: after)
  = Ok (stub_reply (py_str float_repr (dict_get_default "content" (VStr "") m)))
  ∧ chat StubEngine after = Ok (stub_reply "").
Proof.
  intros Hm Hafter. unfold chat, stub_chat, stub_reply, stub_echo. split.
  - rewrite rev_app_distr. simpl. rewrite <- app_assoc. simpl.
    rewrite last_user_content_skip by (by apply Forall_rev).
    simpl. unfold is_user in Hm. by rewrite Hm.
  - rewrite <- (app_nil_r (rev after)).
    by rewrite last_user_content_skip by (by apply Forall_rev).
Qed.

End Engines.

(** ** The name of the object to search *)

Section ObjectName.
Context `{Ext : External}.

Lemma lstrip_starts s : starts_with_space (lstrip s) = false.
Proof.
  induction s as [|c s IH]; simpl; [done|].
  destruct (isspace c) eqn:Hc; [done|]. simpl. by rewrite Hc.
Qed.

Lemma rstrip_ends s : ends_with_space (rstrip s) = false.
Proof.
  induction s as [|c s IH]; simpl; [done|].
  destruct (rstrip s) as [|c' r] eqn:Hr.
  - destruct (isspace c) eqn:Hc; simpl; [done|]. by rewrite Hc.
  - exact IH.
Qed.

Lemma rstrip_starts s : starts_with_space s = false → starts_with_space (rstrip s) = false.
Proof.
  destruct s as [|c s]; simpl; [done|]. intros Hc.
  destruct (rstrip s); [by rewrite Hc|done].
Qed.

Lemma strip_stripped s :
  starts_with_space (strip s) = false ∧ ends_with_space (strip s) = false.
Proof.
  unfold strip. split; [apply rstrip_starts, lstrip_starts|apply rstrip_ends].
Qed.

Lemma lstrip_id s : starts_with_space s = false → lstrip s = s.
Proof. destruct s as [|c s]; simpl; [done|]. by intros ->. Qed.

Lemma rstrip_id s : ends_with_space s = false → rstrip s = s.
Proof.
  induction s as [|c s IH]; simpl; [done|].
  destruct s as [|c' s'].
  - simpl. by intros ->.
  - intros He. rewrite IH by done. done.
Qed.

(** X6: the object name of a [search_and_grasp] command is never empty and
    has no white space at either end, whatever the command holds under
    ["object"]: the value is turned into text and stripped, and a text that
    strips to nothing gives ["object"]. Stripping the name again changes
    nothing. *)
Theorem object_name_of_stripped (v : Value) :
  let s := strip (py_str float_repr v) in
  object_name_of v = (if String.eqb s "" then "object" else s)
  ∧ object_name_of v ≠ ""
  ∧ starts_with_space (object_name_of v) = false
  ∧ ends_with_space (object_name_of v) = false
  ∧ strip (object_name_of v) = object_name_of v.
Proof.
  intros s. unfold object_name_of. fold s.
  destruct (strip_stripped (py_str float_repr v)) as [Hs He]. fold s in Hs, He.
  destruct s as [|c s'] eqn:Heq.
  - repeat split; done.
  - split; [done|]. split; [done|]. split; [done|]. split; [done|].
    unfold strip. by rewrite (lstrip_id _ Hs), (rstrip_id _ He).
Qed.

End ObjectName.

(** ** More on dictionaries *)

Section DictOrder.
Context {V : Type}.
Implicit Types d other : list (string * V).

Lemma dict_set_fresh k v d : k ∉ dict_keys d → dict_set k v d = d ++ [(k, v)].
Proof.
  induction d as [|[k' v'] d IH]; simpl; [done|].
  intros [Hne Hnotin]%not_elem_of_cons.
  destruct (String.eqb_spec k k') as [->|_]; [done|].
  by rewrite IH.
Qed.

Lemma dict_update_fresh d other :
  NoDup (dict_keys other) →
  (∀ k, k ∈ dict_keys other → k ∉ dict_keys d) →
  dict_update d other = d ++ other.
Proof.
  unfold dict_update. revert d.
  induction other as [|[k v] other IH]; intros d Hnd Hfresh; simpl.
  - by rewrite app_nil_r.
  - apply NoDup_cons in Hnd as [Hk Hnd]. simpl in Hk.
    rewrite dict_set_fresh by (apply Hfresh; simpl; left).
    rewrite IH; [by rewrite <- app_assoc|done|].
    intros k' Hk'. unfold dict_keys. rewrite map_app. simpl.
    rewrite elem_of_app, list_elem_of_singleton.
    intros [Hin| ->]; [|done].
    by apply (Hfresh k'); [simpl; right|].
Qed.

Lemma dict_keys_set_old k v d : k ∈ dict_keys d → dict_keys (dict_set k v d) = dict_keys d.
Proof.
  induction d as [|[k' v'] d IH]; simpl; [by intros ?%elem_of_nil|].
  intros Hin. destruct (String.eqb_spec k k') as [->|Hne]; [done|].
  simpl. f_equal. apply IH. apply elem_of_cons in Hin as [?|?]; done.
Qed.

Lemma dict_keys_update_old d other :
  (∀ k, k ∈ dict_keys other → k ∈ dict_keys d) →
  dict_keys (dict_update d other) = dict_keys d.
Proof.
  unfold dict_update. revert d.
  induction other as [|[k v] other IH]; intros d Hold; simpl; [done|].
  rewrite IH.
  - apply dict_keys_set_old, Hold. simpl. left.
  - intros k' Hk'. rewrite dict_keys_set_old by (apply Hold; simpl; left).
    apply Hold. simpl. by right.
Qed.

(** Two dictionaries with the same keys in the same order and the same
    values are equal. *)
Lemma dict_ext d1 : ∀ d2,
  dict_keys d1 = dict_keys d2 →
  NoDup (dict_keys d1) →
  (∀ k, dict_get k d1 = dict_get k d2) →
  d1 = d2.
Proof.
  induction d1 as [|[k v] d1 IH]; intros [|[k2 v2] d2] Hkeys Hnd Hget;
    try discriminate; [done|].
  simpl in Hkeys. injection Hkeys as <- Hkeys.
  apply NoDup_cons in Hnd as [Hk Hnd]. simpl in Hk.
  pose proof (Hget k) as Hv. simpl in Hv. rewrite String.eqb_refl in Hv.
  injection Hv as <-. f_equal.
  apply IH; [done|done|].
  intros k'. pose proof (Hget k') as Hk'. simpl in Hk'.
  destruct (String.eqb k' k) eqn:E; [|done].
  apply String.eqb_eq in E. subst k'.
  assert (Hn1 : dict_get k d1 = None) by (by apply dict_get_None).
  assert (Hn2 : dict_get k d2 = None).
  { apply dict_get_None. by rewrite <- Hkeys. }
  by rewrite Hn1, Hn2.
Qed.

Lemma dict_get_elem k v d : NoDup (dict_keys d) → (k, v) ∈ d → dict_get k d = Some v.
Proof.
  induction d as [|[k' v'] d IH]; simpl; [by intros _ ?%elem_of_nil|].
  intros [Hk Hnd]%NoDup_cons Hin.
  apply elem_of_cons in Hin as [[= <- <-]|Hin]; [by rewrite String.eqb_refl|].
  destruct (String.eqb_spec k k') as [->|_]; [|by apply IH].
  exfalso. apply Hk. unfold dict_keys. apply list_elem_of_fmap. by exists (k', v).
Qed.

End DictOrder.

(** ** The search pattern *)

Section Scan.
Context `{Ext : External}.

Lemma scan_fold (step : nat) (joints : Joints) : ∀ (k0 : nat) (acc : Joints),
  NoDup (dict_keys joints) →
  (∀ k, k ∈ dict_keys joints → k ∉ dict_keys acc) →
  foldl (λ new_joints '(idx, (name, val)),
           let delta := (0.1 * np_sin (float_of_nat step / 3 + float_of_nat idx))%float in
           dict_set name (val + delta)%float new_joints)
        acc (imap (λ idx kv, ((k0 + idx)%nat, kv)) joints)
  = acc ++ imap (λ idx kv, (kv.1, (kv.2 + scan_delta step (k0 + idx))%float)) joints.
Proof.
  induction joints as [|[name val] joints IH]; intros k0 acc Hnd Hfresh; simpl.
  - by rewrite app_nil_r.
  - apply NoDup_cons in Hnd as [Hname Hnd]. simpl in Hname.
    rewrite dict_set_fresh by (apply Hfresh; simpl; left).
    rewrite (imap_ext _ (λ idx kv, ((S k0 + idx)%nat, kv))).
    2:{ intros i x Hx. unfold compose. f_equal. apply Nat.add_succ_r. }
    rewrite IH; [|done|].
    + rewrite <- app_assoc. simpl. unfold scan_delta at 1. f_equal. f_equal.
      apply imap_ext. intros i [n v] _. unfold compose. simpl.
      by rewrite Nat.add_succ_r.
    + intros k Hk. unfold dict_keys. rewrite map_app. simpl.
      rewrite elem_of_app, list_elem_of_singleton.
      intros [Hin| ->]; [|done].
      by apply (Hfresh k); [simpl; right|].
Qed.

Lemma scan_targets_spec (step : nat) (joints : Joints) :
  NoDup (dict_keys joints) →
  scan_targets step joints
  = imap (λ idx kv, (kv.1, (kv.2 + scan_delta step idx)%float)) joints.
Proof.
  intros Hnd. unfold scan_targets.
  pose proof (scan_fold step joints 0 [] Hnd) as Hfold. simpl in Hfold.
  rewrite Hfold; [done|]. intros k _. apply not_elem_of_nil.
Qed.

Lemma dict_keys_imap (f : nat → string * float → float) (joints : Joints) :
  dict_keys (imap (λ idx kv, (kv.1, f idx kv)) joints) = dict_keys joints.
Proof.
  revert f. induction joints as [|kv joints IH]; intros f; simpl; [done|].
  f_equal. apply (IH (λ idx, f (S idx))).
Qed.

(** X7: the scan of a search step. The targets hold the observed joints
    under the same names in the same order, the joint of rank [idx] moved by
    [0.1 * sin(step / 3 + idx)]; sent to the mock robot, they replace its
    joint dictionary as a whole, without adding or dropping a name. *)
Theorem scan_targets_keeps_names (step : nat) (joints : Joints) :
  NoDup (dict_keys joints) →
  scan_targets step joints
  = imap (λ idx kv, (kv.1, (kv.2 + scan_delta step idx)%float)) joints
  ∧ dict_keys (scan_targets step joints) = dict_keys joints
  ∧ dict_update joints (scan_targets step joints) = scan_targets step joints.
Proof.
  intros Hnd.
  assert (Hkeys : dict_keys (scan_targets step joints) = dict_keys joints).
  { rewrite scan_targets_spec by done.
    apply (dict_keys_imap (λ idx kv, (kv.2 + scan_delta step idx)%float)). }
  split; [by apply scan_targets_spec|]. split; [done|].
  apply dict_ext.
  - rewrite dict_keys_update_old; [done|]. intros k. by rewrite Hkeys.
  - rewrite dict_keys_update_old; [done|]. intros k. by rewrite Hkeys.
  - intros k. rewrite dict_get_update by (by rewrite Hkeys).
    destruct (dict_get k (scan_targets step joints)) eqn:Hget; [done|].
    apply dict_get_None in Hget. rewrite Hkeys in Hget.
    by apply dict_get_None.
Qed.

End Scan.

(** ** The real arm *)

Section RealArm.
Context `{Ext : External}.
Implicit Types (self : SO100.SO100RobotInterface) (h : Store).

Lemma observed_position_key obs name kv :
  observed_position obs name = Some kv → kv.1 = name.
Proof.
  unfold observed_position. destruct (dict_get _ obs) as [[a|f]|]; [done| |done].
  by intros [= <-].
Qed.

Lemma dict_keys_observed obs motors k :
  k ∈ dict_keys (omap (observed_position obs) motors) → k ∈ motors.
Proof.
  unfold dict_keys. rewrite list_elem_of_fmap.
  intros (kv & -> & Hin). apply list_elem_of_omap in Hin as (name & Hname & Hobs).
  by rewrite (observed_position_key _ _ _ Hobs).
Qed.

Lemma NoDup_keys_observed obs motors :
  NoDup motors → NoDup (dict_keys (omap (observed_position obs) motors)).
Proof.
  induction 1 as [|name motors Hname Hnd IH]; simpl; [constructor|].
  destruct (observed_position obs name) as [kv|] eqn:Hobs; [|done].
  simpl. apply NoDup_cons. split; [|done].
  rewrite (observed_position_key _ _ _ Hobs).
  intros Hin%dict_keys_observed. done.
Qed.

Lemma joint_positions_spec obs motors :
  NoDup motors →
  (∀ name a, name ∈ motors → dict_get (name +:+ ".pos") obs ≠ Some (ObsImage a)) →
  SO100.joint_positions obs motors = Ok (omap (observed_position obs) motors).
Proof.
  induction 1 as [|name motors Hname Hnd IH]; intros Hnum; simpl; [done|].
  assert (Hrest : SO100.joint_positions obs motors
                  = Ok (omap (observed_position obs) motors)).
  { apply IH. intros n a Hn. apply Hnum. by right. }
  unfold observed_position at 1.
  destruct (dict_get (name +:+ ".pos") obs) as [[a|f]|] eqn:Hget.
  - exfalso. apply (Hnum name a); [by left|done].
  - rewrite Hrest. f_equal.
    rewrite dict_update_fresh; [done|by apply NoDup_keys_observed|].
    intros k Hk%dict_keys_observed. simpl.
    rewrite list_elem_of_singleton. by intros ->.
  - done.
Qed.

(** X8: what the real arm's [get_observation] returns. When the follower
    answers with an observation that holds the frame of its first camera,
    the result is that frame and a new dictionary with one entry for each
    motor whose [name.pos] is in the observation, in the order of the
    motors; a motor without an observed position is left out without an
    error, and no other key of the observation gets in. *)
Theorem so100_get_observation_joints self h r r' obs cam cams image :
  SO100.robot self = Some r →
  follower_get_observation r = (Ok obs, r') →
  follower_cameras r' = cam :: cams →
  dict_get cam obs = Some (ObsImage image) →
  NoDup (follower_motors r') →
  (∀ name a, name ∈ follower_motors r' →
             dict_get (name +:+ ".pos") obs ≠ Some (ObsImage a)) →
  let joints := omap (observed_position obs) (follower_motors r') in
  SO100.get_observation self h
  = (Ok (image, length h),
     {| SO100.config := SO100.config self; SO100.robot := Some r' |},
     h ++ [joints])
  ∧ (∀ name, name ∈ dict_keys joints
             ↔ name ∈ follower_motors r' ∧ is_Some (dict_get (name +:+ ".pos") obs))
  ∧ (∀ name f, dict_get (name +:+ ".pos") obs = Some (ObsNumber f) →
               name ∈ follower_motors r' → dict_get name joints = Some f).
Proof.
  intros Hrobot Hobs Hcams Himage Hnd Hnum joints.
  split; [|split].
  - unfold SO100.get_observation.
    rewrite Hrobot, Hobs, Hcams, Himage, joint_positions_spec by done.
    reflexivity.
  - intros name. unfold joints, dict_keys. rewrite list_elem_of_fmap. split.
    + intros (kv & -> & Hin). apply list_elem_of_omap in Hin as (n & Hn & Hpos).
      pose proof (observed_position_key _ _ _ Hpos) as ->.
      split; [done|]. unfold observed_position in Hpos.
      by destruct (dict_get (n +:+ ".pos") obs).
    + intros [Hin [[a|f] Hget]]; [by destruct (Hnum name a)|].
      exists (name, f). split; [done|]. apply list_elem_of_omap.
      exists name. split; [done|]. unfold observed_position. by rewrite Hget.
  - intros name f Hget Hin. apply dict_get_elem.
    + by apply NoDup_keys_observed.
    + apply list_elem_of_omap. exists name. split; [done|].
      unfold observed_position. by rewrite Hget.
Qed.

(** X9: the real arm when it is not connected. After [disconnect], and
    before the first [connect], [get_observation] and [send_joint_targets]
    raise [RuntimeError] and change neither the interface nor the store;
    [connect] on an arm that reports to be connected changes nothing, and
    otherwise the interface holds the new follower even when its
    [connect] raised. *)
Theorem so100_not_connected self h joint_targets :
  let down := SO100.disconnect self in
  SO100.get_observation down h = (Raise (RuntimeError "Robot not connected."), down, h)
  ∧ SO100.send_joint_targets joint_targets down h
    = (Raise (RuntimeError "Robot not connected."), down)
  ∧ SO100.disconnect down = down
  ∧ (∀ r, SO100.robot self = Some r → follower_is_connected r = true →
          SO100.connect self = (Ok tt, self))
  ∧ SO100.connect down
    = ((follower_connect (follower_new (SO100.config self))).1,
       {| SO100.config := SO100.config self;
          SO100.robot := Some (follower_connect (follower_new (SO100.config self))).2 |}).
Proof.
  intros down. repeat split.
  - intros r Hr Hc. unfold SO100.connect. by rewrite Hr, Hc.
  - unfold SO100.connect. simpl. by destruct (follower_connect _).
Qed.

End RealArm.

(** ** One message, one reply *)

Section OneReply.
Context `{Ext : External}.
Implicit Types (g : Globals) (w : World) (t : Task).

Lemma same_net_refl g : same_net g g.
Proof. by repeat split. Qed.

Lemma handle_start_stream_net websocket w :
  ∃ m w1, handle_start_stream websocket w = on_globals (send_json websocket m) w1
    ∧ endpoints w1 = endpoints w ∧ same_net (globals w) (globals w1).
Proof.
  unfold handle_start_stream, gets, mbind, M_bind, mret, M_ret.
  destruct (streaming (globals w)) eqn:Hs; simpl.
  - eexists _, w. by repeat split.
  - eexists _, _. split; [reflexivity|]. by repeat split.
Qed.

Lemma handle_stop_stream_net websocket w :
  ∃ m w1, handle_stop_stream websocket w = on_globals (send_json websocket m) w1
    ∧ endpoints w1 = endpoints w ∧ same_net (globals w) (globals w1).
Proof.
  unfold handle_stop_stream, gets, mbind, M_bind, mret, M_ret, task_cancel, modify.
  simpl. destruct (stream_task (globals w)) as [tid|] eqn:Hst; simpl.
  - eexists _, _. split; [reflexivity|]. by repeat split.
  - eexists _, _. split; [reflexivity|]. by repeat split.
Qed.

Lemma handle_search_and_grasp_net websocket data w :
  ∃ m w1, handle_search_and_grasp websocket (VDict data) w
          = on_globals (send_json websocket m) w1
    ∧ endpoints w1 = endpoints w ∧ same_net (globals w) (globals w1).
Proof.
  unfold handle_search_and_grasp, data_get, gets, mbind, M_bind, mret, M_ret,
    task_done, task_cancel, modify, gets.
  simpl.
  destruct (behavior_task (globals w)) as [tid|] eqn:Hbt; simpl.
  - destruct (match tasks w !! tid with
              | Some {| task_state := Done _ |} => true
              | _ => false
              end) eqn:Hdone; simpl;
      destruct (_is_mock_robot (globals w)) eqn:Hmock; simpl;
      eexists _, _; (split; [reflexivity|]); by repeat split.
  - destruct (_is_mock_robot (globals w)) eqn:Hmock; simpl;
      eexists _, _; (split; [reflexivity|]); by repeat split.
Qed.

(** Every handler ends in one [send_json] to the sender, in a world in
    which only the tasks, the flag and the handles may have changed; a text
    that is JSON without being an object, or on which [json.loads] raises
    another exception than [JSONDecodeError], raises before that. *)
Lemma handle_text_sends websocket msg w :
  (unanswered msg ∧ ∃ e, handle_text websocket msg w = (Raise e, w))
  ∨ (¬ unanswered msg
     ∧ ∃ m w1, handle_text websocket msg w = on_globals (send_json websocket m) w1
         ∧ endpoints w1 = endpoints w ∧ same_net (globals w) (globals w1)).
Proof.
  destruct (json_loads msg) as [data|e] eqn:Hjson.
  2:{ assert (Hvalue : ¬ not_an_object msg) by (intros (v & Hv & _); congruence).
      assert (Hother : (∀ text, e ≠ JSONDecodeError text) →
                unanswered msg ∧ ∃ e, handle_text websocket msg w = (Raise e, w)).
      { intros He. split; [right; by exists e|].
        exists e. unfold handle_text. rewrite Hjson.
        destruct e; try done. by destruct (He msg0). }
      destruct e as [text|text|text|text| |text].
      1-3, 5-6: by left; apply Hother.
      right. split.
      { intros [Hno|(e & He & Hne)]; [done|]. rewrite Hjson in He.
        injection He as <-. by destruct (Hne text). }
      unfold handle_text. rewrite Hjson. eexists _, w.
      split; [done|]. split; [done|]. apply same_net_refl. }
  assert (Hobject : ∀ d, data = VDict d → ¬ unanswered msg).
  { intros d -> [(v & Hv & Hno)|(e & He & _)]; [|congruence].
    rewrite Hjson in Hv. injection Hv as <-. by apply (Hno d). }
  destruct data as [| | | | | |data].
  1-6: left; (split; [by left; eexists; split; [done|]|]);
       unfold handle_text; rewrite Hjson; by eexists.
  right. split; [by eapply Hobject|].
  destruct (value_is_str (dict_get_default "type" VNone data) "chat") eqn:Hchat.
  { unfold handle_text. rewrite Hjson.
    unfold data_get at 1. unfold mbind at 1, M_bind, mret, M_ret. rewrite Hchat.
    destruct (handle_chat_sends websocket data w) as [m ->].
    eexists m, w. split; [done|]. split; [done|]. apply same_net_refl. }
  destruct (value_is_str (dict_get_default "type" VNone data) "command") eqn:Hcommand.
  2:{ unfold handle_text. rewrite Hjson.
      unfold data_get at 1. unfold mbind at 1, M_bind, mret, M_ret.
      rewrite Hchat, Hcommand. eexists _, w.
      split; [done|]. split; [done|]. apply same_net_refl. }
  assert (handle_text websocket msg = handle_command websocket (VDict data)) as ->.
  { unfold handle_text. rewrite Hjson.
    unfold data_get at 1. unfold mbind at 1, M_bind, mret, M_ret.
    by rewrite Hchat, Hcommand. }
  destruct (value_is_str (dict_get_default "action" VNone data) "start_stream") eqn:Hstart.
  { rewrite handle_command_start by (by apply value_is_str_eq).
    apply handle_start_stream_net. }
  destruct (value_is_str (dict_get_default "action" VNone data) "stop_stream") eqn:Hstop.
  { rewrite handle_command_stop by (by apply value_is_str_eq).
    apply handle_stop_stream_net. }
  destruct (value_is_str (dict_get_default "action" VNone data) "search_and_grasp")
    eqn:Hsearch.
  { rewrite handle_command_search by (by apply value_is_str_eq).
    apply handle_search_and_grasp_net. }
  unfold handle_command, data_get, mbind, M_bind, mret, M_ret.
  rewrite Hstart, Hstop, Hsearch. eexists _, w.
  split; [done|]. split; [done|]. apply same_net_refl.
Qed.


End OneReply.

(** ** What a task keeps *)

Section Keeps.
Context `{Ext : External}.
Variable R : Globals → Globals → Prop.
Hypothesis R_refl : ∀ g, R g g.
Hypothesis R_trans : ∀ g1 g2 g3, R g1 g2 → R g2 g3 → R g1 g3.
Hypothesis R_perform : ∀ a g, R g (perform a g).2.

Lemma keeps_then (c1 c2 : Coro Globals) : keeps R c1 → keeps R c2 → keeps R (then_ c1 c2).
Proof.
  induction c1 as [| | |A f k IH|aw k IH|cond body IHbody k IHk]; simpl; try done.
  - intros [Hf Hk] Hb. split; [done|]. intros r. by apply IH.
  - intros [Hbody Hk] Hb. split; [done|]. by apply IHk.
Qed.

Lemma keeps_for_each {A} (l : list A) (body : A → Coro Globals) :
  (∀ x, keeps R (body x)) → keeps R (for_each l body).
Proof. intros Hbody. induction l; simpl; [done|]. by apply keeps_then. Qed.

Lemma keeps_call {A} (f : M Globals A) (k : A → Coro Globals) :
  (∀ g, R g (f g).2) → (∀ a, keeps R (k a)) → keeps R (call f k).
Proof. intros Hf Hk. split; [done|]. by intros [a|e]. Qed.

Lemma run_sync_keeps (c : Coro Globals) : ∀ g stop g',
  keeps R c → run_sync c g = (stop, g') →
  R g g'
  ∧ match stop with
    | StopAwait _ k => keeps R k
    | StopLoop _ body k => keeps R body ∧ keeps R k
    | StopEnd _ => True
    end.
Proof.
  induction c as [| | |A f k IH|a k IH|cond body IHbody k IHk];
    intros g stop g' Hq Hrun; simpl in Hrun; try (by inversion Hrun).
  destruct Hq as [Hf Hk]. specialize (Hf g).
  destruct (f g) as [r g1]. simpl in Hf.
  destruct (IH r g1 stop g' (Hk r) Hrun) as [Hctl Hstop].
  split; [by eapply R_trans|done].
Qed.

Lemma run_to_await_keeps (c : Coro Globals) g stop g' :
  keeps R c → run_to_await c g = (stop, g') →
  R g g'
  ∧ match stop with
    | StopAwait _ k => keeps R k
    | StopLoop _ body k => keeps R body ∧ keeps R k
    | StopEnd _ => True
    end.
Proof.
  intros Hq. unfold run_to_await.
  destruct (run_sync c g) as [stop1 g1] eqn:Hrun1.
  destruct (run_sync_keeps c g stop1 g1 Hq Hrun1) as [Hctl1 Hstop1].
  destruct stop1 as [a k|cond body k|o]; try (intros [= <- <-]; done).
  destruct Hstop1 as [Hbody Hk].
  destruct (cond g1).
  - intros Hrun2.
    eapply run_sync_keeps in Hrun2 as [Hctl2 Hstop2].
    + split; [by eapply R_trans|done].
    + apply keeps_then; [done|]. by split.
  - destruct (run_sync k g1) as [stop2 g2] eqn:Hrun2.
    destruct (run_sync_keeps k g1 stop2 g2 Hk Hrun2) as [Hctl2 Hstop2].
    intros Heq.
    assert ((stop, g') = (stop2, g2)) as [= -> ->] by (by destruct stop2).
    split; [by eapply R_trans|done].
Qed.

(** Resuming code that keeps [R] takes the state to a related one, and the
    code that remains keeps [R]. *)
Lemma resume_code_keeps (c : Coro Globals) g st g' a :
  keeps R c → resume_code c g = (st, g', a) →
  R g g' ∧ ∀ k, st = Suspended k → keeps R k.
Proof.
  intros Hq. unfold resume_code.
  destruct (run_to_await c g) as [stop g1] eqn:Hrun.
  destruct (run_to_await_keeps c g stop g1 Hq Hrun) as [Hctl Hstop].
  destruct stop as [aw k|cond body k|o].
  - pose proof (R_perform aw g1) as Hp. pose proof (perform_ok aw g1) as Hok.
    destruct (perform aw g1) as [r g2]. simpl in Hp, Hok. subst r.
    intros [= <- <- <-]. split; [by eapply R_trans|].
    by intros k' [= <-].
  - intros [= <- <- <-]. split; [done|]. by intros k' [= <-].
  - intros [= <- <- <-]. split; [done|]. by intros k'.
Qed.

End Keeps.

Section TaskFrame.
Context `{Ext : External}.
Implicit Types (g : Globals) (w : World) (t : Task).

Lemma task_frame_refl g : task_frame g g.
Proof. by repeat split. Qed.

Lemma task_frame_trans g1 g2 g3 : task_frame g1 g2 → task_frame g2 g3 → task_frame g1 g3.
Proof.
  unfold task_frame. intros (?&?&?&?&?) (?&?&?&?&?).
  repeat split; try congruence. set_solver.
Qed.

Lemma task_frame_perform a g : task_frame g (perform a g).2.
Proof.
  destruct a as [message|seconds]; simpl; [|apply task_frame_refl].
  rewrite broadcast_json_spec. repeat split; simpl. set_solver.
Qed.

Lemma task_frame_set_robot g r h :
  (match r, robot_interface g with
   | IsMock _, IsMock _ | IsReal _, IsReal _ => True
   | _, _ => False
   end) →
  task_frame g (set_robot r h g).
Proof.
  intros Hkind. unfold task_frame. simpl. split; [|by split].
  unfold _is_mock_robot. simpl. by destruct r, (robot_interface g).
Qed.

Lemma task_frame_robot_connect g : task_frame g (robot_connect g).2.
Proof.
  unfold robot_connect. destruct (robot_interface g) as [r|r] eqn:Hr.
  - apply task_frame_set_robot. by rewrite Hr.
  - destruct (SO100.connect r) as [res r']. apply task_frame_set_robot. by rewrite Hr.
Qed.

Lemma task_frame_robot_get_observation g : task_frame g (robot_get_observation g).2.
Proof.
  unfold robot_get_observation. destruct (robot_interface g) as [r|r] eqn:Hr.
  - destruct (Mock.get_observation r (store g)) as [[res r'] h].
    apply task_frame_set_robot. by rewrite Hr.
  - destruct (SO100.get_observation r (store g)) as [[res r'] h].
    apply task_frame_set_robot. by rewrite Hr.
Qed.

Lemma task_frame_robot_send_joint_targets l g :
  task_frame g (robot_send_joint_targets l g).2.
Proof.
  unfold robot_send_joint_targets. destruct (robot_interface g) as [r|r] eqn:Hr.
  - apply task_frame_set_robot. by rewrite Hr.
  - destruct (SO100.send_joint_targets l r (store g)) as [res r'].
    apply task_frame_set_robot. by rewrite Hr.
Qed.

Lemma task_frame_new_dict d g : task_frame g (new_dict d g).2.
Proof.
  unfold new_dict, alloc. apply task_frame_set_robot. by destruct (robot_interface g).
Qed.

Lemma task_frame_stream_period g : task_frame g (stream_period g).2.
Proof.
  unfold stream_period. destruct (float_of_int _); apply task_frame_refl.
Qed.

Lemma keeps_task_frame_search_step step : keeps task_frame (search_step step).
Proof.
  split; [apply task_frame_robot_get_observation|].
  intros [[frame joints]|e]; [|done].
  apply keeps_call; [intros g; apply task_frame_refl|]. intros joint_items.
  apply keeps_call; [apply task_frame_new_dict|]. intros new_joints.
  apply keeps_call; [apply task_frame_robot_send_joint_targets|]. done.
Qed.

Lemma keeps_task_frame_behavior object_name :
  keeps task_frame (_mock_search_and_grasp object_name).
Proof.
  unfold _mock_search_and_grasp.
  repeat (apply keeps_then; [first [done|apply keeps_for_each;
    first [apply keeps_task_frame_search_step|done]]|]).
  done.
Qed.

Lemma keeps_task_frame_stream : keeps task_frame camera_stream_loop.
Proof.
  split; [apply task_frame_robot_connect|].
  intros [[]|e].
  - split; [|done].
    apply keeps_call; [apply task_frame_robot_get_observation|]. intros [frame joints].
    apply keeps_call; [intros g; apply task_frame_refl|]. intros joint_items.
    apply keeps_then; [done|].
    apply keeps_call; [apply task_frame_stream_period|]. done.
  - split; [|done]. intros g. by repeat split.
Qed.

Lemma Coded_same_tasks (R : Globals → Globals → Prop) w w' :
  tasks w' = tasks w → Coded R w → Coded R w'.
Proof. intros Ht Hc tid name code. rewrite Ht. apply Hc. Qed.

Lemma cancel_handle_suspended h (ts : list Task) i name code :
  cancel_handle h ts !! i = Some {| coro_name := name; task_state := Suspended code |} →
  ts !! i = Some {| coro_name := name; task_state := Suspended code |}.
Proof.
  intros (t & Ht & _ & _ & _ & Hr)%cancel_handle_lookup.
  destruct (Hr eq_refl) as [<- _]. done.
Qed.

(** The tasks of a world reached by a message hold code that keeps
    [task_frame]. *)
Lemma Effect_Coded msg w w' :
  Coded task_frame w → Effect msg w w' → Coded task_frame w'.
Proof.
  intros Hc
    [Ht _
    |_ _ Ht _ _ _
    |_ Ht _ _ _
    |object_name _ _ Ht _ _ _
    |_ _ Ht _]; intros tid name code; rewrite Ht.
  - apply Hc.
  - intros [Hold|[_ Heq]]%lookup_snoc_Some; [by eapply Hc|].
    unfold stream_task_new in Heq. injection Heq as -> ->.
    apply keeps_task_frame_stream.
  - intros Hold%cancel_handle_suspended. by eapply Hc.
  - intros [Hold%cancel_handle_suspended|[_ Heq]]%lookup_snoc_Some; [by eapply Hc|].
    unfold behavior_task_new in Heq. injection Heq as -> ->.
    apply keeps_task_frame_behavior.
  - intros Hold%cancel_handle_suspended. by eapply Hc.
Qed.

Lemma step_Coded l w w' e :
  Coded task_frame w → step l w = Some (w', e) →
  Coded task_frame w'
  ∧ (∀ tid, l = Resume tid → task_frame (globals w) (globals w') ∧ endpoints w' = endpoints w).
Proof.
  intros Hc Hstep.
  destruct l as [ws|ws msg|ws|ws|tid].
  1,3,4: apply step_connection in Hstep as (Ht & _ & _); [|done];
         split; [by eapply Coded_same_tasks|done].
  - simpl in Hstep. destruct (decide _); [|done]. injection Hstep as <- <-.
    split; [|done]. eapply Effect_Coded; [done|]. apply endpoint_receive_effect.
  - destruct (tasks w !! tid) as [[name [code| |o]]|] eqn:Htid.
    + rewrite (step_Resume_Suspended _ _ _ _ Htid) in Hstep.
      destruct (resume_code code (globals w)) as [[st g'] a] eqn:Hres.
      injection Hstep as <- <-.
      destruct (resume_code_keeps task_frame task_frame_refl task_frame_trans
                  task_frame_perform code _ _ _ _ (Hc _ _ _ Htid) Hres) as [Hf Hk].
      assert (tid < length (tasks w))%nat as Hlt by (by eapply lookup_lt_Some).
      split; [|by intros ? _].
      intros i name' code'. simpl.
      destruct (decide (i = tid)) as [->|Hne].
      * rewrite list_lookup_insert_eq by done. intros [= <- ->]. by apply Hk.
      * rewrite list_lookup_insert_ne by done. apply Hc.
    + rewrite (step_Resume_CancelRequested _ _ _ Htid) in Hstep.
      injection Hstep as <- <-.
      assert (tid < length (tasks w))%nat as Hlt by (by eapply lookup_lt_Some).
      split; [|intros ? _; split; [apply task_frame_refl|done]].
      intros i name' code'. simpl.
      destruct (decide (i = tid)) as [->|Hne].
      * rewrite list_lookup_insert_eq by done. by intros [= <-].
      * rewrite list_lookup_insert_ne by done. apply Hc.
    + unfold step in Hstep. by rewrite Htid in Hstep.
    + unfold step in Hstep. by rewrite Htid in Hstep.
Qed.

End TaskFrame.

(** ** Runs of the server: what never changes *)

Section ServerRuns.
Context `{Ext : External}.
Implicit Types (g : Globals) (w : World) (t : Task).

(** A property kept by every transition holds at the end of a run, and
    what every transition emits satisfies [E]. *)
Lemma exec_invariant (P : World → Prop) (Q : Label → Prop) (E : Emitted → Prop) :
  (∀ l w w' e, Q l → P w → step l w = Some (w', e) → P w' ∧ E e) →
  ∀ ls w w' es, Forall Q ls → P w → exec ls w = Some (w', es) → P w' ∧ Forall E es.
Proof.
  intros Hstep. induction ls as [|l ls IH]; intros w w' es Hls HP Hexec.
  - injection Hexec as <- <-. by split.
  - apply exec_cons in Hexec as (w1 & e & es' & Hs & Hexec & ->).
    apply Forall_cons in Hls as [Hl Hls].
    destruct (Hstep _ _ _ _ Hl HP Hs) as [HP1 He].
    destruct (IH _ _ _ Hls HP1 Hexec) as [HP' Hes].
    split; [done|]. by apply Forall_cons.
Qed.

Lemma Forall_any_label (ls : list Label) : Forall (λ _, True) ls.
Proof. by apply Forall_forall. Qed.

(** What one received message leaves alone. *)
Lemma endpoint_receive_frame websocket msg w :
  let w' := endpoint_receive websocket msg w in
  closed (globals w') = closed (globals w)
  ∧ demo_cfg (globals w') = demo_cfg (globals w)
  ∧ llm_engine (globals w') = llm_engine (globals w)
  ∧ robot_interface (globals w') = robot_interface (globals w)
  ∧ store (globals w') = store (globals w)
  ∧ (active_connections (globals w') = active_connections (globals w)
       ∧ endpoints w' = endpoints w
     ∨ active_connections (globals w') = active_connections (globals w) ∖ {[websocket]}
       ∧ endpoints w' = endpoints w ∖ {[websocket]}).
Proof.
  intros w'. subst w'. unfold endpoint_receive.
  destruct (handle_text_sends websocket msg w)
    as [[Hno [e ->]]|[Hobj (m & w1 & -> & He & Ha & Hc & Hd & Hcfg & Hllm & Hr & Hs)]].
  - repeat split; try done. by right.
  - unfold on_globals, send_json.
    destruct (decide (websocket ∈ closed (globals w1))) as [Hin|Hout]; simpl.
    + repeat split; try done. right. by rewrite Ha, He.
    + repeat split; try done. by left.
Qed.

Lemma Setup_initial cfg llm_cfg : Setup cfg llm_cfg (initial_world cfg llm_cfg).
Proof.
  unfold initial_world, initial_globals, make_robot_interface.
  destruct (use_mock cfg) eqn:Hmock.
  - destruct (Mock.make_mock_robot_interface cfg []) as [r h].
    split; simpl; try done; by intros tid name code.
  - split; simpl; try done; by intros tid name code.
Qed.

Lemma step_Setup cfg llm_cfg l w w' e :
  Setup cfg llm_cfg w → step l w = Some (w', e) → Setup cfg llm_cfg w'.
Proof.
  intros [Hcoded Hreg Hcfg Hllm Hkind] Hstep.
  destruct (step_Coded _ _ _ _ Hcoded Hstep) as [Hcoded' Hresume].
  destruct l as [ws|ws msg|ws|ws|tid]; simpl in Hstep.
  - destruct (decide _); [done|]. injection Hstep as <-.
    split; [done|simpl; set_solver|done..].
  - destruct (decide _); [|done]. injection Hstep as <-.
    destruct (endpoint_receive_frame ws msg w)
      as (Hc & Hcfg' & Hllm' & Hr & Hs & [[Ha He]|[Ha He]]).
    + split; [done| |congruence|congruence|].
      * rewrite Ha, He. done.
      * unfold _is_mock_robot in *. by rewrite Hr.
    + split; [done| |congruence|congruence|].
      * rewrite Ha, He. set_solver.
      * unfold _is_mock_robot in *. by rewrite Hr.
  - destruct (decide _); [|done]. injection Hstep as <-.
    split; [done|simpl; set_solver|done..].
  - injection Hstep as <-. by split.
  - destruct (Hresume tid eq_refl) as [(Hk & Ha & Hc & Hcfg' & Hllm') He].
    split; [done| |congruence..]. rewrite He. set_solver.
Qed.

Lemma exec_Setup cfg llm_cfg ls w es :
  exec ls (initial_world cfg llm_cfg) = Some (w, es) → Setup cfg llm_cfg w.
Proof.
  intros Hexec.
  apply (exec_invariant (Setup cfg llm_cfg) (λ _, True) (λ _, True)) in Hexec as [Hs _];
    [done| |apply Forall_any_label|apply Setup_initial].
  intros l w0 w1 e _ Hs Hstep. split; [|done]. by eapply step_Setup.
Qed.

(** X11: no registration outlives its endpoint. In every world the server
    reaches, a connection of the active set has an endpoint in its receive
    loop; so a broadcast never writes to a connection whose endpoint has
    ended. (The converse fails: a broadcast evicts a connection and leaves
    its endpoint running.) *)
Theorem registered_connections_have_endpoints
    (cfg : SO100DemoConfig) (llm_cfg : LLMConfig) (ls : list Label)
    (w : World) (es : list Emitted) :
  exec ls (initial_world cfg llm_cfg) = Some (w, es) →
  ∀ websocket, websocket ∈ active_connections (globals w) → websocket ∈ endpoints w.
Proof.
  intros Hexec%exec_Setup websocket Hin.
  by apply (setup_registered _ _ _ Hexec).
Qed.

(** X12: the set-up is that of start-up. Nothing the clients send and
    nothing the tasks do changes the configuration, the chat engine or the
    kind of robot: in every world the server reaches they are what the
    import of the module made them. *)
Theorem setup_is_stable
    (cfg : SO100DemoConfig) (llm_cfg : LLMConfig) (ls : list Label)
    (w : World) (es : list Emitted) :
  exec ls (initial_world cfg llm_cfg) = Some (w, es) →
  demo_cfg (globals w) = cfg
  ∧ llm_engine (globals w) = make_llm_engine llm_cfg
  ∧ _is_mock_robot (globals w) = use_mock cfg.
Proof.
  intros [_ _ Hcfg Hllm Hkind]%exec_Setup. done.
Qed.

End ServerRuns.

(** ** Stopping and restarting the stream *)

Section StreamRuns.
Context `{Ext : External}.
Implicit Types (g : Globals) (w : World) (t : Task).

Lemma receive_stop_stream websocket msg w :
  is_command "stop_stream" msg = true →
  let w' := endpoint_receive websocket msg w in
  tasks w' = cancel_handle (stream_task (globals w)) (tasks w)
  ∧ streaming (globals w') = false
  ∧ stream_task (globals w') = None
  ∧ behavior_task (globals w') = behavior_task (globals w).
Proof.
  intros (data & _ & Haction & Htext)%(is_command_handle_text _ _ websocket).
  simpl. rewrite endpoint_receive_finish, Htext, handle_command_stop by done.
  destruct (handle_stop_stream_effect websocket w)
    as (m & w1 & -> & _ & Ht1 & Hs1 & Hst1 & Hbt1).
  destruct (finish_send websocket m w1) as [Ht (Hc1 & Hc2 & Hc3)].
  repeat split; congruence.
Qed.

Lemma behavior_task_new_not_stream object_name :
  is_stream_task (behavior_task_new object_name) = false.
Proof. done. Qed.

Lemma RunInv_same_tasks w w' :
  tasks w' = tasks w → same_ctl (globals w) (globals w') → RunInv w → RunInv w'.
Proof.
  intros Ht (Hs & Hst & _) [Hrun Hhandle].
  split; rewrite ?Ht, ?Hs, ?Hst; done.
Qed.

Lemma Effect_RunInv msg w w' : RunInv w → Effect msg w w' → RunInv w'.
Proof.
  intros Hinv
    [Ht Hc
    |_ Hidle Ht Hs Hst _
    |_ Ht Hs Hst _
    |object_name _ _ Ht _ Hs Hst
    |_ _ Ht (Hs & Hst & _)].
  - by eapply RunInv_same_tasks.
  - destruct Hinv as [Hrun Hhandle]. split.
    + intros tid t. rewrite Ht, Hs, Hst.
      intros [Hold|[-> ->]]%lookup_snoc_Some Hname Hr; [|done].
      destruct (Hrun tid t Hold Hname Hr) as [_ Hup]. congruence.
    + intros h. rewrite Ht, Hst, length_app. intros [= <-]. simpl. lia.
  - destruct Hinv as [Hrun Hhandle]. split.
    + intros tid t. rewrite Ht, Hs, Hst.
      intros (t0 & Ht0 & Hn & _ & _ & Hr)%cancel_handle_lookup Hname Hrunnable.
      destruct (Hr Hrunnable) as [-> Hne]. exfalso. apply Hne.
      by destruct (Hrun tid t0 Ht0 Hname Hrunnable).
    + intros h. by rewrite Hst.
  - destruct Hinv as [Hrun Hhandle]. split.
    + intros tid t. rewrite Ht, Hs, Hst.
      intros [Hold|[-> ->]]%lookup_snoc_Some Hname Hrunnable; [|done].
      apply cancel_handle_lookup in Hold as (t0 & Ht0 & _ & _ & _ & Hr).
      destruct (Hr Hrunnable) as [-> _]. by eapply Hrun.
    + intros h. rewrite Ht, Hst, length_app, cancel_handle_length.
      intros Hh%Hhandle. lia.
  - destruct Hinv as [Hrun Hhandle]. split.
    + intros tid t. rewrite Ht, Hs, Hst.
      intros (t0 & Ht0 & _ & _ & _ & Hr)%cancel_handle_lookup Hname Hrunnable.
      destruct (Hr Hrunnable) as [-> _]. by eapply Hrun.
    + intros h. rewrite Ht, Hst, cancel_handle_length. apply Hhandle.
Qed.

Lemma Effect_stream_floor msg w w' :
  RunInv w → Effect msg w w' → (stream_floor w ≤ stream_floor w')%nat.
Proof.
  intros Hinv
    [Ht (_ & Hst & _)
    |_ _ Ht _ Hst _
    |_ Ht _ Hst _
    |object_name _ _ Ht _ _ Hst
    |_ _ Ht (_ & Hst & _)]; unfold stream_floor; rewrite Hst, ?Ht.
  - done.
  - destruct (stream_task (globals w)) as [h|] eqn:Hh; [|done].
    apply (run_handle _ Hinv) in Hh. lia.
  - rewrite cancel_handle_length.
    destruct (stream_task (globals w)) as [h|] eqn:Hh; [|done].
    apply (run_handle _ Hinv) in Hh. lia.
  - destruct (stream_task (globals w)); [done|].
    rewrite length_app, cancel_handle_length. lia.
  - by rewrite cancel_handle_length.
Qed.

(** One transition keeps the two invariants, does not lower the floor, and
    lets no streaming task be heard but the one at the floor. *)
Lemma step_RunInv l w w' e :
  Inv w ∧ RunInv w → step l w = Some (w', e) →
  (Inv w' ∧ RunInv w')
  ∧ (stream_floor w ≤ stream_floor w')%nat
  ∧ ∀ tid a, e = Some (tid, "camera_stream_loop", a) → tid = stream_floor w.
Proof.
  intros [Hinv Hrinv] Hstep.
  split; [split; [by eapply step_Inv|]|].
  - destruct l as [ws|ws msg|ws|ws|tid].
    1,3,4: apply step_connection in Hstep as (Ht & Hc & _); [|done];
           by eapply RunInv_same_tasks.
    + simpl in Hstep. destruct (decide _); [|done]. injection Hstep as <- <-.
      eapply Effect_RunInv; [done|]. apply endpoint_receive_effect.
    + destruct (tasks w !! tid) as [[name [code| |o]]|] eqn:Htid.
      * rewrite (step_Resume_Suspended _ _ _ _ Htid) in Hstep.
        destruct (resume_code code (globals w)) as [[st g'] a] eqn:Hres.
        injection Hstep as <- <-.
        destruct (resume_code_well_coded name code _ _ _ _
                    (inv_coded _ Hinv _ _ Htid) Hres)
          as (Hst & Hbt & Hw & Hflag).
        assert (tid < length (tasks w))%nat as Hlt by (by eapply lookup_lt_Some).
        destruct Hrinv as [Hrun Hhandle]. split; simpl.
        -- intros i t. rewrite Hst.
           destruct (decide (i = tid)) as [->|Hne].
           ++ rewrite list_lookup_insert_eq by done. intros [= <-] Hname Hrunnable.
              destruct (Hrun _ _ Htid Hname eq_refl) as [Hh Hup].
              split; [done|]. destruct Hflag as [->|(_ & -> & _)]; done.
           ++ rewrite list_lookup_insert_ne by done. intros Hi Hname Hrunnable.
              destruct (Hrun _ _ Hi Hname Hrunnable) as [Hh Hup].
              split; [done|]. destruct Hflag as [->|(_ & _ & Hstream)]; [done|].
              destruct (Hrun _ _ Htid Hstream eq_refl) as [Hh' _]. congruence.
        -- intros h. rewrite Hst, length_insert. apply Hhandle.
      * rewrite (step_Resume_CancelRequested _ _ _ Htid) in Hstep.
        injection Hstep as <- <-.
        assert (tid < length (tasks w))%nat as Hlt by (by eapply lookup_lt_Some).
        destruct Hrinv as [Hrun Hhandle]. split; simpl.
        -- intros i t. destruct (decide (i = tid)) as [->|Hne].
           ++ rewrite list_lookup_insert_eq by done. by intros [= <-].
           ++ rewrite list_lookup_insert_ne by done. apply Hrun.
        -- intros h. rewrite length_insert. apply Hhandle.
      * unfold step in Hstep. by rewrite Htid in Hstep.
      * unfold step in Hstep. by rewrite Htid in Hstep.
  - destruct l as [ws|ws msg|ws|ws|tid].
    1,3,4: apply step_connection in Hstep as (Ht & (_ & Hst & _) & ->); [|done];
           unfold stream_floor; rewrite Ht, Hst; done.
    + simpl in Hstep. destruct (decide _); [|done]. injection Hstep as <- <-.
      split; [|done]. eapply Effect_stream_floor; [done|]. apply endpoint_receive_effect.
    + destruct (tasks w !! tid) as [[name [code| |o]]|] eqn:Htid.
      * rewrite (step_Resume_Suspended _ _ _ _ Htid) in Hstep.
        destruct (resume_code code (globals w)) as [[st g'] a] eqn:Hres.
        injection Hstep as <- <-.
        destruct (resume_code_well_coded name code _ _ _ _
                    (inv_coded _ Hinv _ _ Htid) Hres)
          as (Hst & Hbt & Hw & Hflag).
        unfold stream_floor. simpl. rewrite Hst, length_insert. split; [done|].
        intros tid' a'. destruct a as [a|]; [|done]. simpl. intros [= -> -> _].
        by destruct (run_stream _ Hrinv _ _ Htid eq_refl eq_refl) as [-> _].
      * rewrite (step_Resume_CancelRequested _ _ _ Htid) in Hstep.
        injection Hstep as <- <-. unfold stream_floor. simpl. by rewrite length_insert.
      * unfold step in Hstep. by rewrite Htid in Hstep.
      * unfold step in Hstep. by rewrite Htid in Hstep.
Qed.

Lemma RunInv_initial cfg llm_cfg : RunInv (initial_world cfg llm_cfg).
Proof.
  destruct (initial_world_facts cfg llm_cfg) as (Ht & _ & Hst & _).
  split; rewrite ?Ht, ?Hst; done.
Qed.

Lemma exec_RunInv ls : ∀ w w' es,
  Inv w ∧ RunInv w → exec ls w = Some (w', es) →
  (Inv w' ∧ RunInv w')
  ∧ (∀ i tid a, es !! i = Some (Some (tid, "camera_stream_loop", a)) →
                (stream_floor w ≤ tid)%nat)
  ∧ (∀ i j tid1 a1 tid2 a2,
       (i < j)%nat →
       es !! i = Some (Some (tid1, "camera_stream_loop", a1)) →
       es !! j = Some (Some (tid2, "camera_stream_loop", a2)) →
       (tid1 ≤ tid2)%nat).
Proof.
  induction ls as [|l ls IH]; intros w w' es Hinv Hexec.
  - injection Hexec as <- <-. split; [done|by split].
  - apply exec_cons in Hexec as (w1 & e & es' & Hstep & Hexec & ->).
    destruct (step_RunInv _ _ _ _ Hinv Hstep) as (Hinv1 & Hfloor & Hemit).
    destruct (IH w1 w' es' Hinv1 Hexec) as (Hinv' & Hlow & Hsorted).
    split; [done|]. split.
    + intros [|i] tid a; simpl.
      * intros [= ->]. by rewrite (Hemit _ _ eq_refl).
      * intros Hi%Hlow. lia.
    + intros [|i] [|j] tid1 a1 tid2 a2 Hij; simpl; try lia.
      * intros [= ->] Hj%Hlow. rewrite (Hemit _ _ eq_refl). lia.
      * apply Hsorted. lia.
Qed.

(** X13: a stopped stream stays silent. Take any run of the server, a
    [stop_stream] command received at its end, and any continuation. In
    the continuation every frame event and every pause comes from a
    streaming task created after the command, so nothing of the loops
    stopped by it is heard again; the streaming tasks are heard in the order
    of their creation; and at the end at most one of them can still run, the
    one [stream_task] names, with the flag up. *)
Theorem stream_stop_is_final
    (cfg : SO100DemoConfig) (llm_cfg : LLMConfig) (ls1 ls2 : list Label)
    (websocket : WebSocket) (msg : string)
    (w1 w2 : World) (es1 es2 : list Emitted) :
  exec ls1 (initial_world cfg llm_cfg) = Some (w1, es1) →
  is_command "stop_stream" msg = true →
  exec (Receive websocket msg :: ls2) w1 = Some (w2, es2) →
  (∀ i tid a, es2 !! i = Some (Some (tid, "camera_stream_loop", a)) →
              (length (tasks w1) ≤ tid)%nat)
  ∧ (∀ i j tid1 a1 tid2 a2,
       (i < j)%nat →
       es2 !! i = Some (Some (tid1, "camera_stream_loop", a1)) →
       es2 !! j = Some (Some (tid2, "camera_stream_loop", a2)) →
       (tid1 ≤ tid2)%nat)
  ∧ (∀ tid t,
       tasks w2 !! tid = Some t → is_stream_task t = true → runnable t = true →
       stream_task (globals w2) = Some tid ∧ streaming (globals w2) = true).
Proof.
  intros Hexec1 Hstop Hexec2.
  assert (Hinv1 : Inv w1 ∧ RunInv w1).
  { eapply exec_RunInv; [|done]. split; [apply Inv_initial|apply RunInv_initial]. }
  pose proof Hexec2 as Hexec.
  apply exec_cons in Hexec2 as (w & e & es' & Hstep & Hexec2 & ->).
  destruct (step_RunInv _ _ _ _ Hinv1 Hstep) as (Hinv & _ & _).
  assert (He : e = None ∧ stream_floor w = length (tasks w1)).
  { simpl in Hstep. destruct (decide _); [|done]. injection Hstep as <- <-.
    split; [done|].
    destruct (receive_stop_stream websocket msg w1 Hstop) as (Ht & _ & Hst & _).
    unfold stream_floor. by rewrite Hst, Ht, cancel_handle_length. }
  destruct He as [-> Hfloor].
  destruct (exec_RunInv _ _ _ _ Hinv Hexec2) as ([_ Hrun] & Hlow & _).
  destruct (exec_RunInv _ _ _ _ Hinv1 Hexec) as (_ & _ & Hsorted).
  split; [|split; [done|apply (run_stream _ Hrun)]].
  intros [|i] tid a; simpl; [done|].
  intros Hi%Hlow. lia.
Qed.

End StreamRuns.

(** ** The real arm behind the server *)

Section RealMode.
Context `{Ext : External}.
Implicit Types (g : Globals) (w : World) (t : Task).

Lemma handle_search_and_grasp_real websocket data w :
  _is_mock_robot (globals w) = false →
  behavior_task (globals w) = None →
  handle_search_and_grasp websocket (VDict data) w
  = on_globals (send_json websocket real_reply) w.
Proof.
  intros Hkind Hhandle.
  unfold handle_search_and_grasp, data_get, gets, mbind, M_bind, mret, M_ret.
  simpl. rewrite Hhandle. simpl. rewrite Hkind. reflexivity.
Qed.

Lemma is_stream_task_name name st :
  is_stream_task {| coro_name := name; task_state := st |} = true →
  name = "camera_stream_loop".
Proof. unfold is_stream_task. simpl. by intros ?%String.eqb_eq. Qed.

Lemma Effect_RealInv msg w w' :
  _is_mock_robot (globals w') = false → RealInv w → Effect msg w w' → RealInv w'.
Proof.
  intros Hkind' [Hkind Hhandle Htasks]
    [Ht (_ & _ & Hb)
    |_ _ Ht _ _ Hb
    |_ Ht _ _ Hb
    |object_name _ Hmock _ _ _ _
    |_ _ Ht (_ & _ & Hb)]; [| | |congruence|].
  all: split; [done|congruence|]; intros tid t; rewrite Ht.
  - apply Htasks.
  - intros [Hold|[-> ->]]%lookup_snoc_Some; [by eapply Htasks|done].
  - intros (t0 & Ht0 & Hn & _)%cancel_handle_lookup.
    unfold is_stream_task. rewrite Hn. by eapply Htasks.
  - intros (t0 & Ht0 & Hn & _)%cancel_handle_lookup.
    unfold is_stream_task. rewrite Hn. by eapply Htasks.
Qed.

Lemma step_RealInv cfg llm_cfg l w w' e :
  use_mock cfg = false →
  Setup cfg llm_cfg w ∧ Inv w ∧ RealInv w → step l w = Some (w', e) →
  (Setup cfg llm_cfg w' ∧ Inv w' ∧ RealInv w')
  ∧ ∀ tid name a, e = Some (tid, name, a) → name = "camera_stream_loop".
Proof.
  intros Hreal (Hsetup & Hinv & Hrinv) Hstep.
  pose proof (step_Setup _ _ _ _ _ _ Hsetup Hstep) as Hsetup'.
  pose proof (step_Inv _ _ _ _ Hinv Hstep) as Hinv'.
  assert (Hkind' : _is_mock_robot (globals w') = false).
  { by rewrite (setup_kind _ _ _ Hsetup'). }
  destruct l as [ws|ws msg|ws|ws|tid].
  1,3,4: apply step_connection in Hstep as (Ht & (_ & _ & Hb) & ->); [|done];
         split; [|done]; split; [done|]; split; [done|];
         destruct Hrinv as [Hkind Hhandle Htasks];
         split; [done|congruence|by rewrite Ht].
  - simpl in Hstep. destruct (decide _); [|done]. injection Hstep as <- <-.
    split; [|done]. split; [done|]. split; [done|].
    eapply Effect_RealInv; [done|done|]. apply endpoint_receive_effect.
  - destruct Hrinv as [Hkind Hhandle Htasks].
    destruct (tasks w !! tid) as [[name [code| |o]]|] eqn:Htid.
    + rewrite (step_Resume_Suspended _ _ _ _ Htid) in Hstep.
      destruct (resume_code code (globals w)) as [[st g'] a] eqn:Hres.
      injection Hstep as <- <-.
      destruct (resume_code_well_coded name code _ _ _ _
                  (inv_coded _ Hinv _ _ Htid) Hres)
        as (Hst & Hbt & Hw & Hflag).
      assert (tid < length (tasks w))%nat as Hlt by (by eapply lookup_lt_Some).
      pose proof (is_stream_task_name _ _ (Htasks _ _ Htid)) as ->.
      split.
      * split; [done|]. split; [done|]. split; [done|simpl; congruence|].
        intros i t. simpl. destruct (decide (i = tid)) as [->|Hne].
        -- rewrite list_lookup_insert_eq by done. by intros [= <-].
        -- rewrite list_lookup_insert_ne by done. apply Htasks.
      * intros tid' name' a'. destruct a as [a|]; [|done]. simpl. by intros [= _ <- _].
    + rewrite (step_Resume_CancelRequested _ _ _ Htid) in Hstep.
      injection Hstep as <- <-.
      assert (tid < length (tasks w))%nat as Hlt by (by eapply lookup_lt_Some).
      pose proof (is_stream_task_name _ _ (Htasks _ _ Htid)) as ->.
      split; [|done]. split; [done|]. split; [done|]. split; [done|done|].
      intros i t. simpl. destruct (decide (i = tid)) as [->|Hne].
      * rewrite list_lookup_insert_eq by done. by intros [= <-].
      * rewrite list_lookup_insert_ne by done. apply Htasks.
    + unfold step in Hstep. by rewrite Htid in Hstep.
    + unfold step in Hstep. by rewrite Htid in Hstep.
Qed.

Lemma RealInv_initial cfg llm_cfg :
  use_mock cfg = false → RealInv (initial_world cfg llm_cfg).
Proof.
  intros Hreal.
  destruct (initial_world_facts cfg llm_cfg) as (Ht & _ & _ & Hb).
  split; [|done|by rewrite Ht].
  by rewrite (setup_kind _ _ _ (Setup_initial cfg llm_cfg)).
Qed.

(** X14: on the real arm the scripted behaviour never runs. In every world
    a server on the real arm reaches, all tasks are streaming tasks, none was
    ever heard under the name of the behaviour, and a [search_and_grasp]
    command is answered with the status "only implemented in mock mode" and
    changes nothing else: no task is created or cancelled. *)
Theorem real_arm_never_searches
    (cfg : SO100DemoConfig) (llm_cfg : LLMConfig) (ls : list Label)
    (w : World) (es : list Emitted) :
  use_mock cfg = false →
  exec ls (initial_world cfg llm_cfg) = Some (w, es) →
  (∀ tid t, tasks w !! tid = Some t → is_behavior_task t = false)
  ∧ Forall (λ e, ∀ tid name a, e = Some (tid, name, a) → name = "camera_stream_loop") es
  ∧ ∀ websocket msg,
      is_command "search_and_grasp" msg = true →
      handle_text websocket msg w = on_globals (send_json websocket real_reply) w.
Proof.
  intros Hreal Hexec.
  apply (exec_invariant
           (λ w, Setup cfg llm_cfg w ∧ Inv w ∧ RealInv w) (λ _, True)
           (λ e, ∀ tid name a, e = Some (tid, name, a) → name = "camera_stream_loop"))
    in Hexec as [(Hsetup & Hinv & [Hkind Hhandle Htasks]) Hes].
  - split; [|split; [done|]].
    + intros tid t Ht. by apply stream_not_behavior, (Htasks tid).
    + intros websocket msg (data & _ & Haction & ->)%(is_command_handle_text _ _ websocket).
      rewrite handle_command_search by done.
      by apply handle_search_and_grasp_real.
  - intros l w0 w1 e _. by apply step_RealInv.
  - apply Forall_any_label.
  - split; [apply Setup_initial|]. split; [apply Inv_initial|by apply RealInv_initial].
Qed.

End RealMode.

(** ** The mock robot behind the server *)

Section MockMode.
Context `{Ext : External}.
Implicit Types (g : Globals) (w : World) (t : Task).

Lemma mock_search_and_grasp_unfold object_name :
  _mock_search_and_grasp object_name
  = Await (broadcast_json_call (status "searching"))
      (Await (broadcast_json_call (starting_search object_name))
         (behavior_search object_name)).
Proof. reflexivity. Qed.

Lemma behavior_search_unfold object_name :
  behavior_search object_name
  = then_ (then_ (search_step 0) (for_each (seq 1 9) search_step))
          (behavior_tail object_name).
Proof. reflexivity. Qed.

Lemma mock_off_fetch g :
  mock_off g → fetch_ok g = false ∧ mock_off (robot_get_observation g).2.
Proof.
  unfold mock_off, fetch_ok, robot_get_observation.
  destruct (robot_interface g) as [r|r] eqn:Hr; [|done].
  intros Hoff. unfold Mock.get_observation. rewrite Hoff. simpl. by rewrite Hoff.
Qed.

Lemma perform_robot a g : robot_interface (perform a g).2 = robot_interface g.
Proof.
  destruct a as [message|seconds]; simpl; [|done].
  by rewrite broadcast_json_spec.
Qed.

Lemma mock_off_broadcast message g : mock_off g → mock_off (broadcast_json message g).2.
Proof.
  unfold mock_off. pose proof (perform_robot (broadcast_json_call message) g) as Hr.
  simpl in Hr. by rewrite Hr.
Qed.

(** A behaviour task resumed while the robot is not connected. *)
Lemma resume_off_code code g st g' a :
  off_code code → mock_off g → resume_code code g = (st, g', a) →
  mock_off g'
  ∧ (∀ k, st = Suspended k → off_code k)
  ∧ (∀ aw, a = Some aw → off_awaited aw).
Proof.
  intros [object_name|object_name|object_name|] Hoff.
  - rewrite mock_search_and_grasp_unfold, resume_code_Await. intros [= <- <- <-].
    split; [by apply mock_off_broadcast|]. split.
    + intros k [= <-]. apply off_code_announce.
    + intros aw [= <-]. by left.
  - rewrite resume_code_Await. intros [= <- <- <-].
    split; [by apply mock_off_broadcast|]. split.
    + intros k [= <-]. apply off_code_search.
    + intros aw [= <-]. right. left. by exists object_name.
  - destruct (mock_off_fetch g Hoff) as [Hfail Hoff1].
    rewrite behavior_search_unfold, resume_search_step_raises by done.
    intros [= <- <- <-].
    split; [by apply mock_off_broadcast|]. split.
    + intros k [= <-]. apply off_code_return.
    + intros aw [= <-]. right. by right.
  - intros [= <- <- <-]. by repeat split.
Qed.

Lemma Effect_OffInv msg w w' :
  is_command "start_stream" msg = false →
  robot_interface (globals w') = robot_interface (globals w) →
  OffInv w → Effect msg w w' → OffInv w'.
Proof.
  intros Hnostart Hrobot [Hoff Htasks]
    [Ht _
    |Hstart _ _ _ _ _
    |_ Ht _ _ _
    |object_name _ _ Ht _ _ _
    |_ _ Ht _]; [| congruence | | |].
  all: split; [unfold mock_off in *; by rewrite Hrobot|];
       intros tid name code; rewrite Ht.
  - apply Htasks.
  - intros Hold%cancel_handle_suspended. by eapply Htasks.
  - intros [Hold%cancel_handle_suspended|[_ Heq]]%lookup_snoc_Some; [by eapply Htasks|].
    unfold behavior_task_new in Heq. injection Heq as -> ->.
    split; [done|apply off_code_start].
  - intros Hold%cancel_handle_suspended. by eapply Htasks.
Qed.

Lemma step_OffInv l w w' e :
  not_start l → OffInv w → step l w = Some (w', e) →
  OffInv w'
  ∧ ∀ tid name a, e = Some (tid, name, a) →
                  name = "_mock_search_and_grasp" ∧ off_awaited a.
Proof.
  intros Hl Hinv Hstep.
  destruct l as [ws|ws msg|ws|ws|tid]; simpl in Hstep.
  - destruct (decide _); [done|]. injection Hstep as <- <-.
    split; [|done]. destruct Hinv as [Hoff Htasks]. by split.
  - destruct (decide _); [|done]. injection Hstep as <- <-.
    split; [|done].
    destruct (endpoint_receive_frame ws msg w) as (_ & _ & _ & Hr & _).
    eapply Effect_OffInv; [exact Hl|done|done|]. apply endpoint_receive_effect.
  - destruct (decide _); [|done]. injection Hstep as <- <-.
    split; [|done]. destruct Hinv as [Hoff Htasks]. by split.
  - injection Hstep as <- <-.
    split; [|done]. destruct Hinv as [Hoff Htasks]. by split.
  - destruct Hinv as [Hoff Htasks].
    destruct (tasks w !! tid) as [[name [code| |o]]|] eqn:Htid; [| |done..].
    + destruct (Htasks _ _ _ Htid) as [-> Hcode].
      destruct (resume_code code (globals w)) as [[st g'] a] eqn:Hres.
      injection Hstep as <- <-.
      destruct (resume_off_code _ _ _ _ _ Hcode Hoff Hres) as (Hoff' & Hk & Ha).
      assert (tid < length (tasks w))%nat as Hlt by (by eapply lookup_lt_Some).
      split.
      * split; [done|]. intros i name' code'. simpl.
        destruct (decide (i = tid)) as [->|Hne].
        -- rewrite list_lookup_insert_eq by done. intros [= <- ->].
           split; [done|by apply Hk].
        -- rewrite list_lookup_insert_ne by done. apply Htasks.
      * intros tid' name' a'. destruct a as [a|]; [|done]. simpl.
        intros [= _ <- <-]. split; [done|by apply Ha].
    + injection Hstep as <- <-.
      assert (tid < length (tasks w))%nat as Hlt by (by eapply lookup_lt_Some).
      split; [|done]. split; [done|]. intros i name' code'. simpl.
      destruct (decide (i = tid)) as [->|Hne].
      * rewrite list_lookup_insert_eq by done. by intros [= <-].
      * rewrite list_lookup_insert_ne by done. apply Htasks.
Qed.

Lemma OffInv_initial cfg llm_cfg :
  use_mock cfg = true → OffInv (initial_world cfg llm_cfg).
Proof.
  intros Hmock. unfold initial_world, initial_globals, make_robot_interface.
  rewrite Hmock. unfold Mock.make_mock_robot_interface, alloc. split; simpl; done.
Qed.

(** X15: no search before the first stream. Only [camera_stream_loop]
    connects the robot. So in mock mode, as long as no [start_stream] command
    has been received, the robot is not connected and its
    [get_observation] raises; a behaviour task then gets as far as the
    status "searching" and the announcement of the search, fails at the
    fetch of its first search step, broadcasts the error status and
    returns. Nothing else is ever broadcast in such a run: no search step,
    no grasp, no "done". *)
Theorem search_fails_before_first_stream
    (cfg : SO100DemoConfig) (llm_cfg : LLMConfig) (ls : list Label)
    (w : World) (es : list Emitted) :
  use_mock cfg = true →
  Forall not_start ls →
  exec ls (initial_world cfg llm_cfg) = Some (w, es) →
  fetch_ok (globals w) = false
  ∧ Forall (λ e, ∀ tid name a, e = Some (tid, name, a) →
                   name = "_mock_search_and_grasp"
                   ∧ (a = broadcast_json_call (status "searching")
                      ∨ (∃ object_name,
                            a = broadcast_json_call (starting_search object_name))
                      ∨ a = broadcast_json_call error_status)) es.
Proof.
  intros Hmock Hls Hexec.
  apply (exec_invariant OffInv not_start
           (λ e, ∀ tid name a, e = Some (tid, name, a) →
                   name = "_mock_search_and_grasp" ∧ off_awaited a))
    in Hexec as [[Hoff _] Hes].
  - split; [by apply mock_off_fetch|done].
  - intros l w0 w1 e Hl Hw Hstep. by eapply step_OffInv.
  - done.
  - by apply OffInv_initial.
Qed.

(** *** A stream that runs *)

Lemma mock_get_observation_on g r :
  robot_interface g = IsMock r → Mock._connected r = true →
  ∃ g1, robot_get_observation g
        = (Ok ((Mock._get_frame r).1, length (store g)), g1)
    ∧ deref (store g1) (length (store g)) = deref (store g) (Mock.joints r)
    ∧ streaming g1 = streaming g.
Proof.
  intros Hr Hc. unfold robot_get_observation, Mock.get_observation. rewrite Hr, Hc. simpl.
  pose proof (mock_get_frame_joints r) as [Hj _].
  destruct (Mock._get_frame r) as [frame r']. simpl in *.
  eexists. split; [reflexivity|]. simpl. split; [|done].
  rewrite Hj. apply (deref_alloc_new (deref (store g) (Mock.joints r)) (store g)).
Qed.

Lemma resume_stream_head g r :
  robot_interface g = IsMock r → Mock._connected r = true → streaming g = true →
  ∃ g', resume_code stream_head g
        = (Suspended stream_sleep, g', Some (mock_frame_event r g)).
Proof.
  intros Hr Hc Hs.
  destruct (mock_get_observation_on g r Hr Hc) as (g1 & Hobs & Hjoints & Hs1).
  unfold resume_code, run_to_await, stream_head. simpl. rewrite Hs.
  unfold camera_stream_iteration, call. simpl. rewrite Hobs. simpl.
  unfold items, gets. simpl. rewrite Hjoints.
  unfold mock_frame_event. rewrite (mock_connect_connected r Hc).
  pose proof (perform_ok
    (broadcast_json_call
       (frame_payload (Mock._get_frame r).1 (deref (store g) (Mock.joints r)))) g1) as Hok.
  simpl in Hok.
  destruct (broadcast_json _ g1) as [res g2]. simpl in Hok. subst res.
  by eexists.
Qed.

Lemma resume_stream_sleep g :
  rate_divides g →
  resume_code stream_sleep g
  = (Suspended stream_head, g, Some (sleep_call (stream_pause g))).
Proof.
  intros [Hfinite Hfps].
  unfold resume_code, run_to_await, stream_sleep, call, stream_period,
    float_of_int, float_truediv.
  simpl. rewrite Hfinite, Hfps. reflexivity.
Qed.

Lemma resume_stream_start g r :
  robot_interface g = IsMock r → streaming g = true →
  ∃ g', resume_code camera_stream_loop g
        = (Suspended stream_sleep, g', Some (mock_frame_event r g)).
Proof.
  intros Hr Hs. unfold camera_stream_loop. rewrite resume_code_Sync.
  unfold robot_connect. rewrite Hr. simpl.
  destruct (mock_connect_facts r) as (Hc & Hj & _).
  destruct (resume_stream_head (set_robot (IsMock (Mock.connect r)) (store g) g)
              (Mock.connect r) eq_refl Hc Hs) as [g' Hres].
  exists g'. fold stream_head. rewrite Hres. unfold mock_frame_event. simpl.
  by rewrite (mock_connect_connected _ Hc), Hj.
Qed.

Lemma stream_states_mock g :
  mock_streaming g ∧ mock_on g →
  ∃ r, robot_interface g = IsMock r ∧ Mock._connected r = true ∧ streaming g = true
       ∧ rate_divides g.
Proof.
  unfold mock_on. intros [(_ & Hs & Hfps) Hon].
  destruct (robot_interface g) as [r|r]; [|done]. by exists r.
Qed.

Lemma resume_all_stream gs :
  Forall (λ g, mock_streaming g ∧ mock_on g) gs →
  resume_all stream_head gs
  = (stream_trace true gs,
     Suspended (if Nat.even (length gs) then stream_head else stream_sleep))
  ∧ resume_all stream_sleep gs
    = (stream_trace false gs,
       Suspended (if Nat.even (length gs) then stream_sleep else stream_head)).
Proof.
  induction 1 as [|g gs Hg _ [IHhead IHsleep]]; [done|].
  destruct (stream_states_mock g Hg) as (r & Hr & Hc & Hs & Hfps).
  rewrite !resume_all_cons.
  destruct (resume_stream_head g r Hr Hc Hs) as [g' ->].
  rewrite (resume_stream_sleep g Hfps), IHhead, IHsleep.
  cbn [stream_trace negb length]. rewrite Hr, Nat.even_succ, <- Nat.negb_even.
  by destruct (Nat.even (length gs)).
Qed.

(** X16: in mock mode the stream runs for as long as the flag is up. A
    streaming task on the mock robot, resumed in states in which the flag is
    up and the frame rate divides (it is not zero, and a float holds it),
    never ends and never raises: its first resumption connects the robot
    and broadcasts a frame event, the next one asks for a sleep of
    [1 / demo_fps] seconds, which is negative when the rate is, and so on
    in turns; each frame event carries
    the frame the robot gave and the values of the robot's own joint
    dictionary at that moment. *)
Theorem mock_stream_keeps_running (g0 : Globals) (gs : list Globals) :
  mock_streaming g0 →
  Forall (λ g, mock_streaming g ∧ mock_on g) gs →
  resume_all camera_stream_loop (g0 :: gs)
  = (stream_trace true (g0 :: gs),
     Suspended (if Nat.even (length gs) then stream_sleep else stream_head)).
Proof.
  intros (Hmock & Hs & _) Hgs.
  unfold _is_mock_robot in Hmock.
  destruct (robot_interface g0) as [r|r] eqn:Hr; [|done].
  rewrite resume_all_cons.
  destruct (resume_stream_start g0 r Hr Hs) as [g' ->].
  destruct (resume_all_stream gs Hgs) as [_ ->].
  cbn [stream_trace negb]. by rewrite Hr.
Qed.

(** X17: a failed observation ends the stream for good. When
    [get_observation] raises at the head of the loop, the streaming task
    dies of that exception without a word to the clients, and the flag
    stays up; so every later [start_stream] command finds the flag up and
    starts nothing. Only a [stop_stream] command, which takes the flag
    down, makes a restart possible. *)
Theorem stream_failure_blocks_restart
    (w : World) (tid : TaskId) (name : string) (e : Exn) :
  tasks w !! tid = Some {| coro_name := name; task_state := Suspended stream_head |} →
  streaming (globals w) = true →
  (robot_get_observation (globals w)).1 = Raise e →
  ∃ w', step (Resume tid) w = Some (w', None)
        ∧ tasks w' !! tid = Some {| coro_name := name; task_state := Done (Raised e) |}
        ∧ streaming (globals w') = true
        ∧ delivered (globals w') = delivered (globals w)
        ∧ ∀ websocket msg,
            is_command "start_stream" msg = true →
            tasks (endpoint_receive websocket msg w') = tasks w'
            ∧ streaming (globals (endpoint_receive websocket msg w')) = true.
Proof.
  intros Htid Hs Hfail.
  rewrite (step_Resume_Suspended _ _ _ _ Htid).
  assert (Hres : resume_code stream_head (globals w)
                 = (Done (Raised e), (robot_get_observation (globals w)).2, None)).
  { unfold resume_code, run_to_await, stream_head. simpl. rewrite Hs.
    unfold camera_stream_iteration, call. simpl.
    destruct (robot_get_observation (globals w)) as [res g1]. simpl in Hfail.
    by subst res. }
  rewrite Hres. eexists. split; [reflexivity|].
  assert (tid < length (tasks w))%nat as Hlt by (by eapply lookup_lt_Some).
  pose proof (robot_get_observation_ctl (globals w)) as (Hs1 & _ & _).
  assert (Hd : delivered (robot_get_observation (globals w)).2 = delivered (globals w)).
  { unfold robot_get_observation. destruct (robot_interface (globals w)) as [r|r].
    - by destruct (Mock.get_observation r (store (globals w))) as [[res r'] h].
    - by destruct (SO100.get_observation r (store (globals w))) as [[res r'] h]. }
  simpl. rewrite list_lookup_insert_eq by done.
  split; [done|]. split; [congruence|]. split; [done|].
  intros websocket msg Hstart.
  destruct (receive_start_stream websocket msg
              (set_tasks (<[tid := {| coro_name := name; task_state := Done (Raised e) |}]>
                            (tasks w))
                 (set_globals (robot_get_observation (globals w)).2 w)) Hstart)
    as [Hup _].
  destruct Hup as [Ht (Hs2 & _)]; [simpl; congruence|].
  split; [done|]. rewrite Hs2. simpl. congruence.
Qed.

End MockMode.

(** * Further examples *)

(** ** The mock robot's frames *)

(** Of three frames of the two-frame video the third is the first frame
    again; the static image is not shown. *)
Lemma mock_video_loops_witness :
  Mock._video_cap video_robot = Some sample_video
  ∧ get_frames 3 video_robot !! 2%nat = Some (RGB (Decoded 0 480 640 3)).
Proof.
  split; [reflexivity|].
  apply (mock_video_loops video_robot sample_video 3 2 (Decoded 0 480 640 3));
    [reflexivity|reflexivity|simpl; lia|lia|reflexivity].
Defined.

(** The first synthetic frame shows the red cup alone, and so does the
    sixty-first. *)
Lemma synthetic_scene_schedule_witness :
  Mock._frame_index later_robot = Mock._frame_index sample_robot + 60
  ∧ (Mock._get_frame sample_robot).1 = SyntheticScene [RedCup]
  ∧ (Mock._get_frame later_robot).1 = (Mock._get_frame sample_robot).1.
Proof.
  split; [reflexivity|]. split; [reflexivity|].
  apply (synthetic_scene_schedule sample_robot later_robot); reflexivity.
Defined.

(** ** The stub engine *)

Lemma sample_answer_no_user : Forall (λ m, is_user m = false) sample_answer.
Proof. repeat constructor. Defined.

(** Of two user messages followed by an answer, the second is echoed. *)
Lemma stub_chat_last_user_witness :
  chat StubEngine
       (sample_conversation ++ [("role", VStr "user"); ("content", VStr "third")]
          :: sample_answer)
  = Ok (stub_reply "third").
Proof.
  apply (stub_chat_last_user sample_conversation sample_answer
           [("role", VStr "user"); ("content", VStr "third")]);
    [reflexivity|apply sample_answer_no_user].
Defined.

(** ** The search pattern *)

Lemma sample_joints_NoDup : NoDup (dict_keys (deref sample_store 0%nat)).
Proof.
  repeat (apply NoDup_cons; split;
          [rewrite ?elem_of_cons, elem_of_nil; intros H; repeat destruct H as [H|H];
           discriminate || done|]).
  apply NoDup_nil_2.
Defined.

(** The scan of step 3 keeps the three names of the sample robot. *)
Lemma scan_targets_keeps_names_witness :
  NoDup (dict_keys (deref sample_store 0%nat))
  ∧ dict_keys (scan_targets 3 (deref sample_store 0%nat)) = ["joint_0"; "joint_1"; "joint_2"].
Proof.
  split; [apply sample_joints_NoDup|].
  apply (scan_targets_keeps_names 3 (deref sample_store 0%nat) sample_joints_NoDup).
Defined.

(** ** An arm that answers *)

Lemma arm_motors_NoDup : NoDup ["shoulder_pan"; "elbow_flex"; "gripper"].
Proof.
  repeat (apply NoDup_cons; split;
          [rewrite ?elem_of_cons, elem_of_nil; intros H; repeat destruct H as [H|H];
           discriminate || done|]).
  apply NoDup_nil_2.
Defined.

Lemma arm_positions_are_numbers name a :
  name ∈ ["shoulder_pan"; "elbow_flex"; "gripper"] →
  dict_get (name +:+ ".pos") arm_observation ≠ Some (ObsImage a).
Proof.
  rewrite !elem_of_cons, elem_of_nil.
  intros [->|[->|[->|[]]]]; discriminate.
Defined.

(** The arm reports no position for [elbow_flex]: the joints hold the two
    other motors. *)
Lemma so100_get_observation_joints_witness :
  (@SO100.get_observation arm_external arm_interface []).1.1
  = Ok (Decoded 7 480 640 3, 0%nat)
  ∧ (@SO100.get_observation arm_external arm_interface []).2
    = [[("shoulder_pan", 0.5%float); ("gripper", 1%float)]].
Proof.
  pose proof (@so100_get_observation_joints arm_external arm_interface [] tt tt
                arm_observation "wrist" [] (Decoded 7 480 640 3)
                eq_refl eq_refl eq_refl eq_refl arm_motors_NoDup
                arm_positions_are_numbers) as [Hobs _].
  rewrite Hobs. split; reflexivity.
Defined.

(** ** More runs of the server *)

Lemma exec_app_inv ls1 : ∀ ls2 w w2 es,
  exec (ls1 ++ ls2) w = Some (w2, es) →
  ∃ w1 es1 es2, exec ls1 w = Some (w1, es1) ∧ exec ls2 w1 = Some (w2, es2).
Proof.
  induction ls1 as [|l ls1 IH]; intros ls2 w w2 es Hexec.
  - by exists w, [], es.
  - rewrite <- app_comm_cons in Hexec.
    apply exec_cons in Hexec as (w' & e & es' & Hstep & Hexec & ->).
    apply IH in Hexec as (w1 & es1 & es2 & Hexec1 & Hexec2).
    exists w1, (e :: es1), es2. split; [|done].
    simpl. by rewrite Hstep, Hexec1.
Defined.

(** After the stream run the one client is registered and its endpoint
    runs. *)
Lemma registered_connections_have_endpoints_witness :
  ∃ w es,
    exec stream_labels (initial_world (sample_cfg true) sample_llm_cfg) = Some (w, es)
    ∧ ∀ websocket, websocket ∈ active_connections (globals w) → websocket ∈ endpoints w.
Proof.
  destruct (runs_exec _ _ stream_labels_run) as (w & es & Hexec).
  exists w, es. split; [done|].
  apply (registered_connections_have_endpoints _ _ _ _ _ Hexec).
Defined.

(** After the behaviour run the server is still in mock mode. *)
Lemma setup_is_stable_witness :
  ∃ w es,
    exec behavior_labels (initial_world (sample_cfg true) sample_llm_cfg) = Some (w, es)
    ∧ _is_mock_robot (globals w) = true.
Proof.
  destruct (runs_exec _ _ behavior_labels_run) as (w & es & Hexec).
  exists w, es. split; [done|].
  apply (setup_is_stable _ _ _ _ _ Hexec).
Defined.

Lemma restart_labels_run :
  runs restart_labels (initial_world (sample_cfg true) sample_llm_cfg) = true.
Proof. vm_compute. reflexivity. Qed.

(** Stop, then start: what is heard afterwards comes from the second
    streaming task. *)
Lemma stream_stop_is_final_witness :
  is_command "stop_stream" (json_text command_stop_stream) = true
  ∧ ∃ w1 es1 w2 es2,
      exec restart_prefix (initial_world (sample_cfg true) sample_llm_cfg) = Some (w1, es1)
      ∧ exec (Receive 0%nat (json_text command_stop_stream) :: restart_suffix) w1
        = Some (w2, es2)
      ∧ ∀ i tid a, es2 !! i = Some (Some (tid, "camera_stream_loop", a)) →
                   (length (tasks w1) ≤ tid)%nat.
Proof.
  split; [reflexivity|].
  destruct (runs_exec _ _ restart_labels_run) as (w2 & es & Hexec).
  apply exec_app_inv in Hexec as (w1 & es1 & es2 & Hexec1 & Hexec2).
  exists w1, es1, w2, es2. split; [done|]. split; [done|].
  apply (stream_stop_is_final (sample_cfg true) sample_llm_cfg restart_prefix
           restart_suffix 0%nat (json_text command_stop_stream) w1 w2 es1 es2
           Hexec1 eq_refl Hexec2).
Defined.

Lemma real_labels_run :
  runs real_labels (initial_world (sample_cfg false) sample_llm_cfg) = true.
Proof. vm_compute. reflexivity. Qed.

(** On the real arm the command leaves a streaming task and nothing else. *)
Lemma real_arm_never_searches_witness :
  use_mock (sample_cfg false) = false
  ∧ ∃ w es,
      exec real_labels (initial_world (sample_cfg false) sample_llm_cfg) = Some (w, es)
      ∧ ∀ tid t, tasks w !! tid = Some t → is_behavior_task t = false.
Proof.
  split; [reflexivity|].
  destruct (runs_exec _ _ real_labels_run) as (w & es & Hexec).
  exists w, es. split; [done|].
  apply (real_arm_never_searches (sample_cfg false) sample_llm_cfg real_labels w es
           eq_refl Hexec).
Defined.

Lemma behavior_labels_not_start : Forall not_start behavior_labels.
Proof. repeat constructor. Defined.

(** The behaviour run asks for no stream: at its end the robot is still not
    connected. *)
Lemma search_fails_before_first_stream_witness :
  use_mock (sample_cfg true) = true
  ∧ Forall not_start behavior_labels
  ∧ ∃ w es,
      exec behavior_labels (initial_world (sample_cfg true) sample_llm_cfg) = Some (w, es)
      ∧ fetch_ok (globals w) = false.
Proof.
  split; [reflexivity|]. split; [apply behavior_labels_not_start|].
  destruct (runs_exec _ _ behavior_labels_run) as (w & es & Hexec).
  exists w, es. split; [done|].
  apply (search_fails_before_first_stream (sample_cfg true) sample_llm_cfg
           behavior_labels w es eq_refl behavior_labels_not_start Hexec).
Defined.

Lemma streaming_idle_streams : mock_streaming streaming_idle.
Proof. repeat split. Defined.

Lemma streaming_connected_streams :
  mock_streaming streaming_connected ∧ mock_on streaming_connected.
Proof. repeat split. Defined.

Lemma streaming_backwards_streams :
  mock_streaming streaming_backwards ∧ mock_on streaming_backwards.
Proof. repeat split. Defined.

(** Every rate from -1000 to 1000 but zero divides. *)
Lemma small_rates_divide (n : Z) :
  (-1000 ≤ n ≤ 1000)%Z → n ≠ 0 →
  is_infinity (float_of_Z n) = false ∧ (float_of_Z n =? 0)%float = false.
Proof.
  intros Hn Hne.
  assert (forallb
            (λ i, let n := (Z.of_nat i - 1000)%Z in
                  (n =? 0)%Z
                  || (negb (is_infinity (float_of_Z n))
                      && negb (float_of_Z n =? 0)%float))
            (seq 0 2001) = true) as Hall by (vm_compute; reflexivity).
  rewrite forallb_forall in Hall.
  assert (In (Z.to_nat (n + 1000)) (seq 0 2001)) as Hin by (apply in_seq; lia).
  apply Hall in Hin. clear Hall. cbv zeta in Hin.
  rewrite Z2Nat.id in Hin by lia.
  replace (n + 1000 - 1000)%Z with n in Hin by lia.
  apply Z.eqb_neq in Hne. rewrite Hne in Hin. rewrite orb_false_l in Hin.
  apply andb_prop in Hin as [Hfinite Hzero].
  by apply negb_true_iff in Hfinite, Hzero.
Qed.

(** At fifteen frames a second the pause is a fifteenth of a second; at
    the rate -15 the task asks for a sleep of minus a fifteenth. *)
Lemma stream_pause_by_rate :
  stream_pause streaming_connected = 0.066666666666666666%float
  ∧ stream_pause streaming_backwards = (-0.066666666666666666)%float
  ∧ (resume_code stream_sleep streaming_backwards).2
    = Some (sleep_call (-0.066666666666666666)%float).
Proof. repeat split. Qed.

(** Four resumptions of a streaming task on the mock robot: frame, pause,
    frame, pause, and the task is at the head of its loop. The last pause
    is asked for at a negative rate. *)
Lemma mock_stream_keeps_running_witness :
  mock_streaming streaming_idle
  ∧ (resume_all camera_stream_loop
       [streaming_idle; streaming_connected; streaming_connected; streaming_backwards]).1
    = stream_trace true
        [streaming_idle; streaming_connected; streaming_connected; streaming_backwards].
Proof.
  split; [apply streaming_idle_streams|].
  rewrite (mock_stream_keeps_running streaming_idle
             [streaming_connected; streaming_connected; streaming_backwards]
             streaming_idle_streams).
  - reflexivity.
  - do 2 (apply Forall_cons; split; [apply streaming_connected_streams|]).
    apply Forall_cons; split; [apply streaming_backwards_streams|].
    apply Forall_nil_2.
Defined.

(** The robot of the stalled world is not connected: the task dies, the
    flag stays up. *)
Lemma stream_failure_blocks_restart_witness :
  streaming (globals stalled) = true
  ∧ (robot_get_observation (globals stalled)).1
    = Raise (RuntimeError "MockRobotInterface not connected.")
  ∧ ∃ w', step (Resume 0%nat) stalled = Some (w', None)
          ∧ streaming (globals w') = true
          ∧ tasks (endpoint_receive 0%nat (json_text command_start_stream) w') = tasks w'.
Proof.
  split; [reflexivity|]. split; [reflexivity|].
  destruct (stream_failure_blocks_restart stalled 0%nat "camera_stream_loop"
              (RuntimeError "MockRobotInterface not connected.")
              eq_refl eq_refl eq_refl)
    as (w' & Hstep & _ & Hs & _ & Hstart).
  exists w'. split; [done|]. split; [done|].
  apply (Hstart 0%nat (json_text command_start_stream) eq_refl).
Defined.

(** ** The policy demo *)

Section PolicyDemo.
Context `{Ext : External} `{Ler : Lerobot}.
Implicit Types (self : Orchestrator.SO100DemoOrchestrator).

Lemma robot_get_observation_skills self :
  let '(r, self') := Orchestrator.robot_get_observation self in
  Orchestrator.search_skill self' = Orchestrator.search_skill self
  ∧ Orchestrator.grasp_skill self' = Orchestrator.grasp_skill self.
Proof.
  unfold Orchestrator.robot_get_observation.
  by destruct (SO100.get_observation _ _) as [[r robot] h].
Qed.

Lemma robot_send_joint_targets_skills joint_targets self :
  let '(r, self') := Orchestrator.robot_send_joint_targets joint_targets self in
  Orchestrator.search_skill self' = Orchestrator.search_skill self
  ∧ Orchestrator.grasp_skill self' = Orchestrator.grasp_skill self.
Proof.
  unfold Orchestrator.robot_send_joint_targets, alloc.
  by destruct (SO100.send_joint_targets _ _ _) as [r robot].
Qed.

(** The search loop leaves the grasp skill alone, and what it returns is
    [(True, step)] for a step of the loop at which the detector fired, or
    [(False, max_steps)]. *)
Lemma search_steps_spec object_name detect_fn max_steps steps : ∀ self,
  let '(r, self') :=
    Orchestrator.search_steps steps object_name detect_fn max_steps self in
  Orchestrator.grasp_skill self' = Orchestrator.grasp_skill self
  ∧ match r with
    | Ok (found, taken) =>
        (found = true ∧ taken ∈ steps ∧ ∃ image, detect_fn image object_name = true)
        ∨ (found = false ∧ taken = max_steps)
    | Raise _ => True
    end.
Proof.
  induction steps as [|step steps IH]; intros self; simpl.
  { split; [done|]. by right. }
  unfold mbind, M_bind.
  pose proof (robot_get_observation_skills self) as Hobs.
  destruct (Orchestrator.robot_get_observation self) as [[[image joints]|e] self1];
    destruct Hobs as [Hs1 Hg1]; [|done].
  destruct (detect_fn image object_name) eqn:Hdetect.
  { simpl. split; [done|]. left. split; [done|]. split; [by left|]. by exists image. }
  unfold Orchestrator.on_search at 1.
  destruct (SearchSkill.step image joints (Orchestrator.search_skill self1))
    as [[action_dict|e] skill]; simpl; [|done].
  pose proof (robot_send_joint_targets_skills (joint_targets_of action_dict)
                (Orchestrator.set_search_skill skill self1)) as Hsend.
  destruct (Orchestrator.robot_send_joint_targets _ _) as [[[]|e] self2];
    destruct Hsend as [Hs2 Hg2]; simpl in Hg2; [|split; [congruence|done]].
  specialize (IH self2).
  destruct (Orchestrator.search_steps steps object_name detect_fn max_steps self2)
    as [r self3].
  destruct IH as [Hg3 Hr]. split; [congruence|].
  destruct r as [[found taken]|e]; [|done].
  destruct Hr as [(Hf & Hin & Himage)|Hr]; [left|by right].
  split; [done|]. split; [by right|done].
Qed.

Lemma run_search_loop_spec object_name detect_fn max_steps self :
  let '(r, self') := Orchestrator.run_search_loop object_name detect_fn max_steps self in
  Orchestrator.grasp_skill self' = Orchestrator.grasp_skill self
  ∧ match r with
    | Ok (found, taken) =>
        (found = true ∧ (taken < max_steps)%nat
         ∧ ∃ image, detect_fn image object_name = true)
        ∨ (found = false ∧ taken = max_steps)
    | Raise _ => True
    end.
Proof.
  unfold Orchestrator.run_search_loop, mbind, M_bind, Orchestrator.on_search.
  destruct (SearchSkill._ensure_loaded (Orchestrator.search_skill self)) as [[[]|e] skill];
    [|done].
  pose proof (search_steps_spec object_name detect_fn max_steps (range max_steps)
                (Orchestrator.set_search_skill skill self)) as Hloop.
  destruct (Orchestrator.search_steps _ _ _ _ _) as [r self'].
  destruct Hloop as [Hg Hr]. split; [done|].
  destruct r as [[found taken]|e]; [|done].
  destruct Hr as [(Hf & Hin & Himage)|Hr]; [left|by right].
  split; [done|]. split; [|done].
  unfold range in Hin. apply elem_of_seq in Hin. lia.
Qed.

(** X18: what [run_search_loop] returns. Without a loaded policy and
    without a policy path it raises [RuntimeError] before it asks the robot
    for anything. When it returns, the answer is [(True, k)] with
    [k < max_steps] and the detector has fired on a frame, or it is
    [(False, max_steps)]: the number of steps is [max_steps] exactly when
    the object was not found. The grasp skill is not touched. *)
Theorem run_search_loop_result object_name detect_fn max_steps self :
  let '(r, self') := Orchestrator.run_search_loop object_name detect_fn max_steps self in
  Orchestrator.grasp_skill self' = Orchestrator.grasp_skill self
  ∧ (SearchSkill.policy (Orchestrator.search_skill self) = None →
     SearchSkill.policy_path (Orchestrator.search_skill self) = None →
     (∃ msg, r = Raise (RuntimeError msg)) ∧ self' = self)
  ∧ ∀ found taken,
      r = Ok (found, taken) →
      (found = true ∧ (taken < max_steps)%nat
       ∧ ∃ image, detect_fn image object_name = true)
      ∨ (found = false ∧ taken = max_steps).
Proof.
  pose proof (run_search_loop_spec object_name detect_fn max_steps self) as Hspec.
  destruct (Orchestrator.run_search_loop object_name detect_fn max_steps self)
    as [r self'] eqn:Hrun.
  destruct Hspec as [Hg Hr]. split; [done|]. split.
  - intros Hpolicy Hpath. revert Hrun.
    unfold Orchestrator.run_search_loop, mbind, M_bind, Orchestrator.on_search,
      SearchSkill._ensure_loaded, SearchSkill.load.
    rewrite Hpolicy, Hpath. intros [= <- <-]. split; [by eexists|].
    by destruct self.
  - intros found taken ->. done.
Qed.

(** The grasp loop leaves the search skill alone. *)
Lemma grasp_steps_search_skill steps : ∀ self,
  Orchestrator.search_skill (Orchestrator.grasp_steps steps self).2
  = Orchestrator.search_skill self.
Proof.
  induction steps as [|step steps IH]; intros self; simpl; [done|].
  unfold mbind, M_bind.
  pose proof (robot_get_observation_skills self) as Hobs.
  destruct (Orchestrator.robot_get_observation self) as [[[image joints]|e] self1];
    destruct Hobs as [Hs1 Hg1]; [|done].
  unfold Orchestrator.on_grasp at 1.
  destruct (GraspSkill.step image joints (Orchestrator.grasp_skill self1))
    as [[action_dict|e] skill]; simpl; [|done].
  pose proof (robot_send_joint_targets_skills (joint_targets_of action_dict)
                (Orchestrator.set_grasp_skill skill self1)) as Hsend.
  destruct (Orchestrator.robot_send_joint_targets _ _) as [[[]|e] self2];
    destruct Hsend as [Hs2 Hg2]; simpl in Hs2; [|simpl; congruence].
  rewrite IH. congruence.
Qed.

Lemma run_grasp_loop_search_skill max_steps self :
  Orchestrator.search_skill (Orchestrator.run_grasp_loop max_steps self).2
  = Orchestrator.search_skill self.
Proof.
  unfold Orchestrator.run_grasp_loop, mbind, M_bind, Orchestrator.on_grasp.
  destruct (GraspSkill._ensure_loaded (Orchestrator.grasp_skill self)) as [[[]|e] skill];
    [|done].
  by rewrite grasp_steps_search_skill.
Qed.

(** X19: [run] disconnects in the end, but only if it got connected. The
    call of [connect] is outside the [try]: when it raises, [run] raises the
    same exception with the follower still held by the interface and the
    skills untouched. Once [connect] has returned, the robot interface holds
    no follower when [run] ends, whether the search and the grasp returned
    or raised. *)
Theorem run_disconnects_in_the_end object_name detect_fn self :
  let '(r, self') := Orchestrator.run object_name detect_fn self in
  match (SO100.connect (Orchestrator.robot self)).1 with
  | Ok _ => SO100.robot (Orchestrator.robot self') = None
  | Raise e =>
      r = Raise e
      ∧ SO100.robot (Orchestrator.robot self') ≠ None
      ∧ Orchestrator.search_skill self' = Orchestrator.search_skill self
      ∧ Orchestrator.grasp_skill self' = Orchestrator.grasp_skill self
      ∧ Orchestrator.store self' = Orchestrator.store self
  end.
Proof.
  unfold Orchestrator.run, mbind, M_bind, Orchestrator.robot_connect.
  destruct (SO100.connect (Orchestrator.robot self)) as [[[]|e] robot] eqn:Hconnect; simpl.
  - unfold Orchestrator.try_finally.
    by destruct (Orchestrator.search_then_grasp _ _ _) as [r self1].
  - repeat split; try done.
    revert Hconnect. unfold SO100.connect.
    destruct (match SO100.robot (Orchestrator.robot self) with
              | Some r => follower_is_connected r
              | None => false
              end); [done|].
    destruct (follower_connect _) as [res f]. by intros [= _ <-].
Qed.

(** What [run] does once the robot is connected, by the search policy
    path. *)
Lemma search_then_grasp_with_path object_name detect_fn self path :
  SearchSkill.policy_path (Orchestrator.search_skill self) = Some path →
  Orchestrator.search_then_grasp object_name detect_fn self
  = match Orchestrator.run_search_loop object_name detect_fn 50 self with
    | (Ok (true, _), self1) => Orchestrator.run_grasp_loop 100 self1
    | (Ok (false, _), self1) => (Ok tt, self1)
    | (Raise e, self1) => (Raise e, self1)
    end.
Proof.
  intros Hpath.
  unfold Orchestrator.search_then_grasp, mbind, M_bind, gets, mret, M_ret.
  rewrite Hpath.
  destruct (Orchestrator.run_search_loop object_name detect_fn 50 self)
    as [[[[] taken]|e] self1]; done.
Qed.

Lemma search_then_grasp_without_path object_name detect_fn self :
  SearchSkill.policy_path (Orchestrator.search_skill self) = None →
  Orchestrator.search_then_grasp object_name detect_fn self
  = Orchestrator.run_grasp_loop 100 self.
Proof.
  intros Hpath.
  unfold Orchestrator.search_then_grasp, mbind, M_bind, gets, mret, M_ret.
  by rewrite Hpath.
Qed.

Lemma run_connected object_name detect_fn self :
  Orchestrator.run object_name detect_fn self
  = match SO100.connect (Orchestrator.robot self) with
    | (Ok _, robot) =>
        let '(r, self1) :=
          Orchestrator.search_then_grasp object_name detect_fn
            (Orchestrator.set_robot robot (Orchestrator.store self) self) in
        (r, Orchestrator.set_robot (SO100.disconnect (Orchestrator.robot self1))
              (Orchestrator.store self1) self1)
    | (Raise e, robot) =>
        (Raise e, Orchestrator.set_robot robot (Orchestrator.store self) self)
    end.
Proof.
  unfold Orchestrator.run, mbind, M_bind, Orchestrator.robot_connect,
    Orchestrator.try_finally, Orchestrator.robot_disconnect.
  destruct (SO100.connect (Orchestrator.robot self)) as [[[]|e] robot]; [|done].
  by destruct (Orchestrator.search_then_grasp _ _ _) as [r self1].
Qed.

(** X20: with the detector of [run_demo.py] a search never ends in a
    grasp. [simple_pixel_detector] answers [False] on every frame, so when a
    search policy path is given on the command line the search loop cannot
    report the object: [main] never loads the grasp policy and never runs
    the grasp loop, whatever the search policy does. *)
Theorem main_with_search_policy_never_grasps
    (defaults : SO100DemoConfig) (args : RunDemo.Namespace) (h : Store) (path : string) :
  truthy (RunDemo.search_policy_path args) = Some path →
  let '(r, self') := RunDemo.main defaults args h in
  Orchestrator.grasp_skill self'
  = Orchestrator.grasp_skill (RunDemo.make_orchestrator defaults args h)
  ∧ GraspSkill.policy (Orchestrator.grasp_skill self') = None.
Proof.
  intros Hpath. unfold RunDemo.main. rewrite run_connected.
  destruct (SO100.connect _) as [[[]|e] robot]; [|done].
  rewrite (search_then_grasp_with_path _ _ _ path) by done.
  pose proof (run_search_loop_spec (RunDemo.object_name args) RunDemo.simple_pixel_detector
                50 (Orchestrator.set_robot robot
                      (Orchestrator.store (RunDemo.make_orchestrator defaults args h))
                      (RunDemo.make_orchestrator defaults args h))) as Hloop.
  destruct (Orchestrator.run_search_loop _ _ _ _) as [[[found taken]|e] self1];
    destruct Hloop as [Hg Hr]; simpl in Hg.
  - destruct Hr as [(_ & _ & image & Himage)|[-> _]]; [done|].
    simpl. by rewrite Hg.
  - simpl. by rewrite Hg.
Qed.

(** X21: without a search policy [run] goes straight to the grasp. The
    search skill is never loaded. With the command line of [run_demo.py]
    that names no policy at all, the grasp policy is looked for under
    ["MISSING_GRASP_POLICY"]; when loading it raises, [main] has connected
    the arm, raises that exception, and leaves the orchestrator as
    connecting and then disconnecting the arm leave it. *)
Theorem main_without_search_policy
    (defaults : SO100DemoConfig) (args : RunDemo.Namespace) (h : Store) :
  truthy (RunDemo.search_policy_path args) = None →
  let self := RunDemo.make_orchestrator defaults args h in
  let '(r, self') := RunDemo.main defaults args h in
  Orchestrator.search_skill self' = Orchestrator.search_skill self
  ∧ ∀ e,
      truthy (RunDemo.grasp_policy_path args) = None →
      (SO100.connect (Orchestrator.robot self)).1 = Ok tt →
      from_pretrained "MISSING_GRASP_POLICY" = Raise e →
      r = Raise e
      ∧ self' = Orchestrator.set_robot
                  (SO100.disconnect (SO100.connect (Orchestrator.robot self)).2) h self.
Proof.
  intros Hpath self. unfold RunDemo.main. fold self. rewrite run_connected.
  destruct (SO100.connect (Orchestrator.robot self)) as [[[]|e0] robot].
  2:{ split; [done|]. intros e _ Hok. discriminate Hok. }
  rewrite search_then_grasp_without_path by done.
  pose proof (run_grasp_loop_search_skill 100
                (Orchestrator.set_robot robot (Orchestrator.store self) self)) as Hs.
  destruct (Orchestrator.run_grasp_loop 100 _) as [r self1] eqn:Hrun.
  split; [done|].
  intros e Hgrasp _ Hload. revert Hrun.
  unfold Orchestrator.run_grasp_loop, mbind, M_bind, Orchestrator.on_grasp,
    GraspSkill._ensure_loaded, GraspSkill.load.
  subst self. simpl. rewrite Hgrasp, Hload. intros [= <- <-]. split; [done|].
  unfold RunDemo.make_orchestrator, Orchestrator.set_robot, Orchestrator.set_grasp_skill.
  simpl. by rewrite Hgrasp.
Qed.

End PolicyDemo.

(** ** Loading the chat configuration *)

Section LoadFacts.
Context `{Ext : External}.

(** X22: the file, or the environment, never both. When the path names a
    file, [load] reads every field from the file and does not look at the
    environment, not even for a key the file does not have, which gets the
    default of the class; so two processes with the same files load the same
    configuration from a file whatever their environments. Without a file
    [load] returns, and every field is a string. The test [is_file] that
    [server.py] makes before it calls [load] changes nothing. *)
Theorem load_file_or_environment
    (is_file : string → bool) (read_text : string → result string)
    (environ environ' : string → option string) (path : string) :
  let here := Build_Host is_file read_text environ in
  let there := Build_Host is_file read_text environ' in
  (is_file path = true → @load Ext here (Some path) = @load Ext there (Some path))
  ∧ (∀ text data,
       is_file path = true → read_text path = Ok text →
       json_loads text = Ok (VDict data) →
       ∃ c, @load Ext here (Some path) = Ok c
            ∧ (dict_get "provider" data = None →
               loaded_provider c = VStr (provider LLMConfig_defaults))
            ∧ (dict_get "model_name" data = None →
               loaded_model_name c = VStr (model_name LLMConfig_defaults))
            ∧ (dict_get "api_key_env" data = None →
               loaded_api_key_env c = VStr (api_key_env LLMConfig_defaults)))
  ∧ (is_file path = false → @load Ext here (Some path) = @load Ext here None)
  ∧ (∃ p m k,
       @load Ext here None
       = Ok {| loaded_provider := VStr p; loaded_model_name := VStr m;
               loaded_api_key_env := VStr k |})
  ∧ @server_llm_cfg Ext here path = @load Ext here (Some path).
Proof.
  intros here there. unfold server_llm_cfg, load. simpl.
  split; [by intros ->|]. split.
  { intros text data -> -> ->. eexists. split; [reflexivity|].
    simpl. unfold dict_get_default. by repeat split; intros ->. }
  split; [by intros ->|]. split; [by eexists _, _, _|].
  by destruct (is_file path).
Qed.

End LoadFacts.

(** ** From the action of a policy to the action sent to the arm *)

Section PositionNames.
Context `{Ext : External} `{Ler : Lerobot}.

Lemma append_cons c s t : String c s +:+ t = String c (s +:+ t).
Proof. reflexivity. Qed.

Lemma endswith_append suffix base : endswith suffix (base +:+ suffix) = true.
Proof.
  induction base as [|c base IH].
  - change ("" +:+ suffix) with suffix.
    destruct suffix; cbn [endswith]; by rewrite String.eqb_refl.
  - rewrite append_cons. cbn [endswith]. rewrite IH. apply orb_true_r.
Qed.

Lemma prefix_cons a s1 b s2 :
  String.prefix (String a s1) (String b s2) = Ascii.eqb a b && String.prefix s1 s2.
Proof.
  cbn [String.prefix]. destruct (ascii_dec a b) as [->|Hne].
  - by rewrite Ascii.eqb_refl.
  - apply Ascii.eqb_neq in Hne. by rewrite Hne.
Qed.

(** [.pos] begins with the only [.] it has: when it is not at the
    beginning of a name that is not empty, it is not at the beginning of
    that name followed by [.pos] either. *)
Lemma prefix_pos_append c s :
  String.prefix ".pos" (String c s) = false →
  String.prefix ".pos" (String c s +:+ ".pos") = false.
Proof.
  assert (Hnil : ∀ t, "" +:+ t = t) by done.
  assert (Hempty : ∀ t, String.prefix "" t = true) by (by intros []).
  destruct s as [|c1 [|c2 [|c3 s]]];
    rewrite ?append_cons, ?Hnil, ?prefix_cons, ?Hempty;
    repeat match goal with
           | |- context [Ascii.eqb ?a ?b] =>
               is_var b; destruct (Ascii.eqb_spec a b) as [<-|?]
           end;
    done.
Qed.

Lemma replace_position base :
  occurs ".pos" base = false → replace ".pos" "" (base +:+ ".pos") = base.
Proof.
  unfold replace. induction base as [|c base IH].
  - done.
  - cbn [occurs]. intros [Hhere Hlater]%orb_false_elim.
    apply prefix_pos_append in Hhere. rewrite append_cons in *.
    cbn [replace_from]. rewrite Hhere. f_equal. by apply IH.
Qed.

Lemma position_name_spec name :
  position_name name →
  endswith ".pos" name = true ∧ replace ".pos" "" name +:+ ".pos" = name.
Proof.
  intros (base & -> & Hbase). split; [apply endswith_append|].
  by rewrite replace_position.
Qed.

Lemma joint_targets_fold (action_dict : Joints) : ∀ targets : Joints,
  NoDup (dict_keys action_dict) →
  Forall (λ kv, endswith ".pos" kv.1 = true → position_name kv.1) action_dict →
  (∀ kv, kv ∈ action_dict → endswith ".pos" kv.1 = true →
         replace ".pos" "" kv.1 ∉ dict_keys targets) →
  fold_left
    (λ targets kv,
       if endswith ".pos" (fst kv)
       then dict_set (replace ".pos" "" (fst kv)) (snd kv) targets
       else targets)
    action_dict targets
  = targets
      ++ map (λ kv, (replace ".pos" "" kv.1, kv.2))
             (List.filter (λ kv, endswith ".pos" kv.1) action_dict).
Proof.
  induction action_dict as [|[name val] action_dict IH];
    intros targets Hnd Hnames Hfresh; simpl.
  - by rewrite app_nil_r.
  - apply NoDup_cons in Hnd as [Hname Hnd]. simpl in Hname.
    apply Forall_cons in Hnames as [Hhead Hnames]. simpl in Hhead.
    destruct (endswith ".pos" name) eqn:Hends.
    + rewrite dict_set_fresh by (apply (Hfresh (name, val)); [by left|done]).
      rewrite IH; [by rewrite <- app_assoc|done|done|].
      intros [name' val'] Hin Hends'. simpl.
      unfold dict_keys. rewrite map_app. simpl.
      rewrite elem_of_app, list_elem_of_singleton.
      intros [Hold|Heq]; [by apply (Hfresh (name', val')); [right|..]|].
      apply Hname. rewrite Forall_forall in Hnames.
      destruct (position_name_spec name (Hhead eq_refl)) as [_ <-].
      destruct (position_name_spec name' (Hnames _ Hin Hends')) as [_ Hname'].
      simpl in Heq. rewrite <- Heq, Hname'.
      unfold dict_keys. apply list_elem_of_fmap. by exists (name', val').
    + apply IH; [done|done|].
      intros kv Hin. apply Hfresh. by right.
Qed.

Lemma joint_targets_of_positions (action_dict : Joints) :
  NoDup (dict_keys action_dict) →
  Forall (λ kv, endswith ".pos" kv.1 = true → position_name kv.1) action_dict →
  action_of_targets (joint_targets_of action_dict)
  = List.filter (λ kv, endswith ".pos" kv.1) action_dict.
Proof.
  intros Hnd Hnames. unfold joint_targets_of, action_of_targets.
  rewrite joint_targets_fold; [|done|done|intros; apply not_elem_of_nil].
  simpl. rewrite map_map.
  rewrite Forall_forall in Hnames.
  rewrite <- (map_id (List.filter _ action_dict)) at 2.
  apply map_ext_in. intros [name val] [Hin Hends]%filter_In.
  apply list_elem_of_In in Hin. simpl in *.
  by destruct (position_name_spec name (Hnames _ Hin Hends)) as [_ ->].
Qed.

(** X23: what reaches the arm. Of the action a policy returns, the two
    loops keep the entries whose name ends with [.pos], under the name with
    every [.pos] taken out, and [send_joint_targets] puts [.pos] back at the
    end. When [.pos] occurs only at the end of those names, as in
    [shoulder_pan.pos], the follower is sent exactly those entries of the
    action, under the names the policy gave them and in its order; the
    other entries are dropped. *)
Theorem position_entries_reach_the_arm
    (action_dict : Joints) (self : Orchestrator.SO100DemoOrchestrator)
    (follower : SO100Follower) :
  NoDup (dict_keys action_dict) →
  Forall (λ kv, endswith ".pos" kv.1 = true → position_name kv.1) action_dict →
  SO100.robot (Orchestrator.robot self) = Some follower →
  let sent :=
    follower_send_action
      (List.filter (λ kv, endswith ".pos" kv.1) action_dict) follower in
  let outcome :=
    Orchestrator.robot_send_joint_targets (joint_targets_of action_dict) self in
  outcome.1 = sent.1
  ∧ SO100.robot (Orchestrator.robot outcome.2) = Some sent.2.
Proof.
  intros Hnd Hnames Hrobot. cbv zeta.
  unfold Orchestrator.robot_send_joint_targets, SO100.send_joint_targets.
  pose proof (deref_alloc_new (joint_targets_of action_dict) (Orchestrator.store self))
    as Hderef.
  unfold alloc in *. simpl in Hderef. rewrite Hrobot, Hderef.
  fold (action_of_targets (joint_targets_of action_dict)).
  rewrite joint_targets_of_positions by done.
  by destruct (follower_send_action _ follower).
Qed.

End PositionNames.

(** ** The policy demo on sample command lines *)

(** With a search policy that loads and an arm that answers, fifty search
    steps are made and the grasp policy is never loaded. *)
Lemma main_with_search_policy_never_grasps_witness :
  truthy (RunDemo.search_policy_path search_args) = Some "outputs/search"
  ∧ let '(r, self') :=
      @RunDemo.main arm_external sample_lerobot (sample_cfg false) search_args [] in
    Orchestrator.grasp_skill self'
    = Orchestrator.grasp_skill
        (@RunDemo.make_orchestrator arm_external sample_lerobot
           (sample_cfg false) search_args [])
    ∧ GraspSkill.policy (Orchestrator.grasp_skill self') = None.
Proof.
  split; [reflexivity|].
  exact (@main_with_search_policy_never_grasps arm_external sample_lerobot
           (sample_cfg false) search_args [] "outputs/search" eq_refl).
Defined.

(** With no policy on the command line the run ends with the exception of
    the missing grasp policy. *)
Lemma main_without_search_policy_witness :
  (@RunDemo.main arm_external sample_lerobot (sample_cfg false) bare_args []).1
  = Raise (OtherException "FileNotFoundError").
Proof.
  pose proof (@main_without_search_policy arm_external sample_lerobot
                (sample_cfg false) bare_args [] eq_refl) as Hmain.
  cbv zeta in Hmain.
  destruct (@RunDemo.main arm_external sample_lerobot (sample_cfg false) bare_args [])
    as [r self'].
  destruct Hmain as [_ Hmain].
  by destruct (Hmain (OtherException "FileNotFoundError") eq_refl eq_refl eq_refl)
    as [-> _].
Defined.

Lemma sample_action_NoDup : NoDup (dict_keys sample_action).
Proof.
  unfold sample_action, dict_keys. simpl.
  repeat (apply NoDup_cons; split;
          [rewrite ?elem_of_cons, elem_of_nil; intros H; by intuition discriminate|]).
  apply NoDup_nil_2.
Defined.

Lemma sample_action_positions :
  Forall (λ kv, endswith ".pos" kv.1 = true → position_name kv.1) sample_action.
Proof.
  unfold sample_action. repeat apply Forall_cons_2; simpl.
  - intros _. by exists "shoulder_pan".
  - intros Hends. discriminate Hends.
  - intros _. by exists "gripper".
  - apply Forall_nil_2.
Defined.

(** Of the sample action the arm is sent the two positions. *)
Lemma position_entries_reach_the_arm_witness :
  (@Orchestrator.robot_send_joint_targets arm_external sample_lerobot
     (joint_targets_of sample_action) arm_orchestrator).1
  = (@follower_send_action arm_external
       [("shoulder_pan.pos", 0.5%float); ("gripper.pos", 1%float)] tt).1.
Proof.
  exact (proj1 (@position_entries_reach_the_arm arm_external sample_lerobot
                  sample_action arm_orchestrator tt
                  sample_action_NoDup sample_action_positions eq_refl)).
Defined.
